(** * county-engine: scene graph, Act and Stage

    A shallow embedding of the node tree ([AbstractNode]), of the root
    controller ([Act]) and of the window loop ([Stage]) of the engine, with
    the properties of the specification stated over it (C1 to C10), and
    with further properties read off the code itself (X1, X2, ...).

    Conventions.
    - [int] and [unsigned int] values are integers of [Z]; conversions
      between the two are written out ([to_unsigned]).
    - [float] values are rationals of [Q]: sums and products are exact,
      so that a statement about such a value holds where the code needs
      no rounding; infinities and NaN are outside the model.  The
      quotient by a divisor that may be 0 is kept open there ([fdiv]),
      and the conversion of a window size to [float] is rounded as the
      machine rounds it ([to_float]).
    - Raw pointers are natural numbers; a nullable pointer is an [option].
    - Virtual hooks ([onMouseEntered], [onMouseLeft], ...) are recorded in
      a trace of events, followed by the behaviour of the base class. *)

From Stdlib Require Import ZArith QArith Qminmax List Bool Lia Lqa.
Import ListNotations.

#[local] Close Scope Q_scope.
#[local] Open Scope Z_scope.

(** ** Machine arithmetic *)

Module Machine.

(** The value of an [int] expression whose mathematical result is [z]
    (two's complement, 32 bits). *)
Definition to_int (z : Z) : Z := (z + 2 ^ 31) mod 2 ^ 32 - 2 ^ 31.

(** Conversion to [unsigned int], as the usual arithmetic conversions do
    when an [int] meets an [unsigned int]. *)
Definition to_unsigned (z : Z) : Z := z mod 2 ^ 32.

Definition int_sub (a b : Z) : Z := to_int (a - b).
Definition int_add (a b : Z) : Z := to_int (a + b).
Definition int_abs (a : Z) : Z := to_int (Z.abs a).

(** Conversion of a [float] to [int]: truncation towards zero. *)
Definition float_to_int (q : Q) : Z := to_int (Z.quot (Qnum q) (Zpos (Qden q))).

(** Conversion of an [unsigned int] to [float], by the integer that the
    result holds: the value itself while it has at most 24 significant
    bits, and else the nearest integer with 24 significant bits, a tie
    going to the one whose last bit is 0 (IEEE 754 binary32, default
    rounding). *)
Definition to_float (z : Z) : Z :=
  let e := Z.log2 z in
  if e <? 24 then z
  else
    let ulp := 2 ^ (e - 23) in
    let q := z / ulp in
    let r := z mod ulp in
    if (ulp <? 2 * r) || ((ulp =? 2 * r) && Z.odd q)
    then (q + 1) * ulp
    else q * ulp.

(** [a < b] on [float]s. *)
Definition Qltb (a b : Q) : bool := negb (Qle_bool b a).

(** [std::min]. *)
Definition fmin (a b : Q) : Q := if Qltb b a then b else a.

Lemma to_int_small (z : Z) : - 2 ^ 31 <= z < 2 ^ 31 -> to_int z = z.
Proof. intros Hz. unfold to_int. rewrite Z.mod_small; lia. Qed.

Lemma to_unsigned_negative (z : Z) :
  - 2 ^ 31 <= z < 0 -> to_unsigned z = z + 2 ^ 32.
Proof.
  intros Hz. unfold to_unsigned. symmetry.
  apply Z.mod_unique with (q := -1); lia.
Qed.

Lemma to_float_exact (z : Z) : 0 <= z <= 2 ^ 24 -> to_float z = z.
Proof.
  intros Hz. destruct (Z.eq_dec z (2 ^ 24)) as [->|Hne]; [reflexivity|].
  unfold to_float.
  destruct (Z.ltb_spec (Z.log2 z) 24) as [Hlt|Hge]; [reflexivity|].
  exfalso. destruct (Z.eq_dec z 0) as [->|Hpos]; [cbn in Hge; lia|].
  assert (z < 2 ^ 24) by lia.
  apply Z.log2_lt_pow2 in H; lia.
Qed.


End Machine.

Import Machine.

(** ** Stage: the window loop *)

Module Stage.

(** [sf::Mouse::Button]. *)
Inductive Button := Left | Right | Middle | XButton1 | XButton2.

(** The kinds of [sf::Event] the window can report.  Only the payload
    read by [Stage::update] is kept. *)
Inductive Event :=
| Closed
| Resized (width height : Z)
| LostFocus
| GainedFocus
| KeyPressed
| KeyReleased
| MouseWheelScrolled
| MouseButtonPressed (button : Button)
| MouseButtonReleased (button : Button)
| MouseMoved (x y : Z)
| MouseEntered
| MouseLeft.

Definition Color := Z.

(** [sf::FloatRect], for the rectangles of the view: their [float]s
    hold integers, which are kept as such. *)
Definition FloatRect := (Z * Z * Z * Z)%type.

(** The events that [sf::Window::pollEvent] returns from a queue to a
    loop that closes the window at a close request: once [close] has run,
    [pollEvent] returns no event, so that the events queued after the
    first close request are never seen. *)
Fixpoint untilClosed (queue : list Event) : list Event :=
  match queue with
  | [] => []
  | Closed :: _ => [Closed]
  | e :: rest => e :: untilClosed rest
  end.

(** The interface of the act as [Stage] uses it, with the mouse-move
    entry point that [Act] offers. *)
Class AbstractAct (A : Type) := {
  onMouseMoved : Z * Z -> A -> A;
  onLeftMouseButtonPressed : A -> A;
  onLeftMouseButtonReleased : A -> A;
  onRightMouseButtonPressed : A -> A;
  onRightMouseButtonReleased : A -> A;
  setUpNodes : A -> A;
  getBgColor : A -> Color;
  update : A -> A
}.

(** What the stage does to its render window, in order. *)
Inductive WindowOp :=
| SetView (r : FloatRect)
| Clear (c : Color)
| Display.

Section WithAct.
Context {A : Type} `{AbstractAct A}.

Record Stage := {
  isOpen : bool;
  view : FloatRect;
  parameters : Z * Z;       (* last arguments of Parameters::update *)
  currentAct : A;
  rendered : list WindowOp  (* oldest first *)
}.

Definition withAct (st : Stage) (a : A) : Stage :=
  {| isOpen := isOpen st; view := view st; parameters := parameters st;
     currentAct := a; rendered := rendered st |}.

(** [Stage::updateView]. *)
Definition updateView (st : Stage) : Stage :=
  {| isOpen := isOpen st; view := view st; parameters := parameters st;
     currentAct := setUpNodes (currentAct st);
     rendered := rendered st ++ [SetView (view st)] |}.

Definition close (st : Stage) : Stage :=
  {| isOpen := false; view := view st; parameters := parameters st;
     currentAct := currentAct st; rendered := rendered st |}.

(** The body of the [while (pollEvent(event))] loop. *)
Definition handleEvent (st : Stage) (event : Event) : Stage :=
  match event with
  | Resized width height =>
      updateView
        {| isOpen := isOpen st;
           view := (0, 0, to_float width, to_float height);
           parameters := (width, height);
           currentAct := currentAct st; rendered := rendered st |}
  | MouseButtonPressed button =>
      match button with
      | Left => withAct st (onLeftMouseButtonPressed (currentAct st))
      | Right => withAct st (onRightMouseButtonPressed (currentAct st))
      | _ => st
      end
  | MouseButtonReleased button =>
      match button with
      | Left => withAct st (onLeftMouseButtonReleased (currentAct st))
      | Right => withAct st (onRightMouseButtonReleased (currentAct st))
      | _ => st
      end
  | Closed => close st
  | _ => st
  end.

(** The loop [while (pollEvent(event))], over the events that
    [pollEvent] returns to it, in order. *)
Definition pollEvents (st : Stage) (pending : list Event) : Stage :=
  fold_left handleEvent pending st.

(** [Stage::update], where [pending] lists the events that its calls of
    [pollEvent] return. *)
Definition stageUpdate (st : Stage) (pending : list Event) : Stage :=
  let st1 := pollEvents st pending in
  let bg := getBgColor (currentAct st1) in
  {| isOpen := isOpen st1; view := view st1; parameters := parameters st1;
     currentAct := update (currentAct st1);
     rendered := rendered st1 ++ [Clear bg; Display] |}.

Definition isMouseMoved (e : Event) : bool :=
  match e with MouseMoved _ _ => true | _ => false end.

(** The events that [pollEvent] returns during one call of
    [Stage::update], from the queue that the window holds: none when the
    window is closed. *)
Definition polled (st : Stage) (queue : list Event) : list Event :=
  if isOpen st then untilClosed queue else [].

(** [Stage::start], over the queues that the window holds frame by
    frame: the loop runs [update] while the window is open. *)
Fixpoint start (st : Stage) (queues : list (list Event)) : Stage :=
  match queues with
  | [] => st
  | queue :: rest =>
      if isOpen st then start (stageUpdate st (polled st queue)) rest
      else st
  end.

End WithAct.

Arguments Stage A : clear implicits.

(** An act that only records which of its entry points were called. *)
Inductive ActCall :=
| CallMouseMoved (p : Z * Z)
| CallLeftPressed
| CallLeftReleased
| CallRightPressed
| CallRightReleased
| CallSetUpNodes
| CallUpdate.

Definition Recorder := list ActCall.

#[export] Instance RecorderAct : AbstractAct Recorder := {
  onMouseMoved p log := log ++ [CallMouseMoved p];
  onLeftMouseButtonPressed log := log ++ [CallLeftPressed];
  onLeftMouseButtonReleased log := log ++ [CallLeftReleased];
  onRightMouseButtonPressed log := log ++ [CallRightPressed];
  onRightMouseButtonReleased log := log ++ [CallRightReleased];
  setUpNodes log := log ++ [CallSetUpNodes];
  getBgColor _ := 0;
  update log := log ++ [CallUpdate]
}.

(** The calls one event is translated into. *)
Definition callsOf (e : Event) : list ActCall :=
  match e with
  | Resized _ _ => [CallSetUpNodes]
  | MouseButtonPressed Left => [CallLeftPressed]
  | MouseButtonPressed Right => [CallRightPressed]
  | MouseButtonReleased Left => [CallLeftReleased]
  | MouseButtonReleased Right => [CallRightReleased]
  | _ => []
  end.

Definition isMoveCall (c : ActCall) : bool :=
  match c with CallMouseMoved _ => true | _ => false end.

Definition freshStage (log : Recorder) : Stage Recorder :=
  {| isOpen := true; view := (0, 0, 800, 600); parameters := (800, 600);
     currentAct := log; rendered := [] |}.

(** The event is a close request. *)
Definition isClosed (e : Event) : bool :=
  match e with Closed => true | _ => false end.

(** The size carried by the last resize event of a list of events. *)
Definition lastResize (pending : list Event) : option (Z * Z) :=
  fold_left
    (fun last e =>
       match e with
       | Resized width height => Some (width, height)
       | _ => last
       end)
    pending None.

(** The views set while the events are handled: one for each resize
    event. *)
Definition resizedViews (pending : list Event) : list WindowOp :=
  flat_map
    (fun e =>
       match e with
       | Resized width height =>
           [SetView (0, 0, to_float width, to_float height)]
       | _ => []
       end)
    pending.

Section Drain.
Context {A : Type} `{AbstractAct A}.

Lemma handleEvent_MouseMoved (st : Stage A) (x y : Z) :
  handleEvent st (MouseMoved x y) = st.
Proof. reflexivity. Qed.

Lemma pollEvents_drop_moves (pending : list Event) :
  forall st : Stage A,
    pollEvents st pending
    = pollEvents st (filter (fun e => negb (isMouseMoved e)) pending).
Proof.
  unfold pollEvents.
  induction pending as [|e rest IH]; intros st; [reflexivity|].
  destruct e; simpl; try apply IH.
Qed.

End Drain.

Lemma handleEvent_calls (st : Stage Recorder) (e : Event) :
  currentAct (handleEvent st e) = currentAct st ++ callsOf e.
Proof.
  destruct e; simpl; try (symmetry; apply app_nil_r); try reflexivity;
    destruct button; simpl; try reflexivity; symmetry; apply app_nil_r.
Qed.

Lemma pollEvents_calls (pending : list Event) :
  forall st : Stage Recorder,
    currentAct (pollEvents st pending)
    = currentAct st ++ flat_map callsOf pending.
Proof.
  unfold pollEvents.
  induction pending as [|e rest IH]; intros st; simpl.
  - symmetry; apply app_nil_r.
  - rewrite IH, handleEvent_calls, <- app_assoc. reflexivity.
Qed.

Lemma callsOf_no_move (e : Event) :
  forallb (fun c => negb (isMoveCall c)) (callsOf e) = true.
Proof. destruct e; try reflexivity; destruct button; reflexivity. Qed.

Lemma flat_map_callsOf_no_move (pending : list Event) :
  forallb (fun c => negb (isMoveCall c)) (flat_map callsOf pending) = true.
Proof.
  induction pending as [|e rest IH]; [reflexivity|].
  simpl. rewrite forallb_app, callsOf_no_move, IH. reflexivity.
Qed.

(** C1 (as amended).  [Stage::update] forwards left/right presses and
    releases to the act, re-runs the layout on a resize, and makes no call
    for any other event: with the recording act, the calls of one frame
    are those of [callsOf] for each pending event, in order, followed by
    the per-frame update; none of them is a mouse-move call, and the
    frame is the same as if the pointer-move events had not been in the
    queue. *)
Theorem stage_update_forwards_buttons_only
  (st : Stage Recorder) (pending : list Event) :
  currentAct (stageUpdate st pending)
  = currentAct st ++ flat_map callsOf pending ++ [CallUpdate]
  /\ forallb (fun c => negb (isMoveCall c))
       (flat_map callsOf pending ++ [CallUpdate]) = true
  /\ stageUpdate st pending
     = stageUpdate st (filter (fun e => negb (isMouseMoved e)) pending).
Proof.
  split; [|split].
  - unfold stageUpdate; simpl.
    rewrite pollEvents_calls, <- app_assoc. reflexivity.
  - rewrite forallb_app, flat_map_callsOf_no_move. reflexivity.
  - unfold stageUpdate. rewrite <- pollEvents_drop_moves. reflexivity.
Qed.

(** C1 (as stated) fails: a frame whose queue holds one pointer-move event
    at (3, 4) makes a single call on the act, the per-frame update, and no
    mouse-move call. *)
Lemma stage_update_drops_pointer_move :
  currentAct (stageUpdate (freshStage []) [MouseMoved 3 4]) = [CallUpdate]
  /\ ~ In (CallMouseMoved (3, 4))
         (currentAct (stageUpdate (freshStage []) [MouseMoved 3 4])).
Proof.
  split; [reflexivity|].
  simpl. intros [H|[]]. discriminate H.
Qed.

(** *** Whole frames *)

Section Frames.
Context {A : Type} `{AbstractAct A}.

Lemma pollEvents_snoc (st : Stage A) (pending : list Event) (e : Event) :
  pollEvents st (pending ++ [e]) = handleEvent (pollEvents st pending) e.
Proof. unfold pollEvents. now rewrite fold_left_app. Qed.

Lemma handleEvent_isOpen (st : Stage A) (e : Event) :
  isOpen (handleEvent st e) = isOpen st && negb (isClosed e).
Proof.
  destruct e; simpl; rewrite ?andb_true_r, ?andb_false_r; try reflexivity;
    destruct button; reflexivity.
Qed.

Lemma pollEvents_isOpen (pending : list Event) :
  forall st : Stage A,
    isOpen (pollEvents st pending)
    = isOpen st && negb (existsb isClosed pending).
Proof.
  induction pending as [|e rest IH]; intros st; simpl.
  - now rewrite andb_true_r.
  - change (pollEvents st (e :: rest))
      with (pollEvents (handleEvent st e) rest).
    rewrite IH, handleEvent_isOpen, negb_orb. now rewrite andb_assoc.
Qed.

Lemma lastResize_snoc (pending : list Event) (e : Event) :
  lastResize (pending ++ [e])
  = match e with
    | Resized width height => Some (width, height)
    | _ => lastResize pending
    end.
Proof. unfold lastResize. rewrite fold_left_app. now destruct e. Qed.

Lemma resizedViews_snoc (pending : list Event) (e : Event) :
  resizedViews (pending ++ [e])
  = resizedViews pending
    ++ match e with
       | Resized width height =>
           [SetView (0, 0, to_float width, to_float height)]
       | _ => []
       end.
Proof.
  unfold resizedViews. rewrite flat_map_app. simpl. now rewrite app_nil_r.
Qed.

Lemma pollEvents_resized (st : Stage A) (pending : list Event) :
  view (pollEvents st pending)
  = match lastResize pending with
    | Some (width, height) => (0, 0, to_float width, to_float height)
    | None => view st
    end
  /\ parameters (pollEvents st pending)
     = match lastResize pending with
       | Some size => size
       | None => parameters st
       end
  /\ rendered (pollEvents st pending) = rendered st ++ resizedViews pending.
Proof.
  induction pending as [|e pending (IHv & IHp & IHr)] using rev_ind.
  - cbn. now rewrite app_nil_r.
  - rewrite pollEvents_snoc, lastResize_snoc, resizedViews_snoc.
    destruct e; cbn [handleEvent updateView withAct close view parameters
                     rendered]; rewrite ?app_nil_r; auto;
      try (destruct button; cbn [withAct view parameters rendered]; auto).
    split; [reflexivity|]. split; [reflexivity|].
    now rewrite IHr, app_assoc.
Qed.

Lemma start_closed (st : Stage A) (queues : list (list Event)) :
  isOpen st = false -> start st queues = st.
Proof. intros Hc. destruct queues; simpl; [reflexivity|now rewrite Hc]. Qed.

Lemma stageUpdate_isOpen (st : Stage A) (pending : list Event) :
  isOpen (stageUpdate st pending)
  = isOpen st && negb (existsb isClosed pending).
Proof. unfold stageUpdate; simpl. apply pollEvents_isOpen. Qed.

Lemma existsb_isClosed (pending : list Event) :
  In Closed pending -> existsb isClosed pending = true.
Proof. intros Hin. apply existsb_exists. now exists Closed. Qed.

Lemma untilClosed_keeps_close (queue : list Event) :
  In Closed queue -> In Closed (untilClosed queue).
Proof.
  induction queue as [|e queue IH]; intros Hin; [destruct Hin|].
  destruct e; cbn [untilClosed]; try (now left);
    (right; apply IH; destruct Hin as [E|Hin]; [discriminate E|exact Hin]).
Qed.

Lemma untilClosed_at_close (front rest : list Event) :
  ~ In Closed front ->
  untilClosed (front ++ Closed :: rest) = front ++ [Closed].
Proof.
  induction front as [|e front IH]; intros Hout; [reflexivity|].
  assert (Hrest : ~ In Closed front) by (intros Hin; apply Hout; now right).
  destruct e; cbn [untilClosed app]; rewrite ?(IH Hrest); try reflexivity.
  exfalso. apply Hout. now left.
Qed.

Lemma untilClosed_drops_rest (front rest : list Event) :
  untilClosed (front ++ Closed :: rest) = untilClosed (front ++ [Closed]).
Proof.
  induction front as [|e front IH]; [reflexivity|].
  destruct e; cbn [untilClosed app]; rewrite ?IH; reflexivity.
Qed.

Lemma lastResize_untilClosed (front : list Event) :
  lastResize (untilClosed (front ++ [Closed]))
  = lastResize (untilClosed front).
Proof.
  assert (Hgen : forall last,
            fold_left
              (fun last e =>
                 match e with
                 | Resized width height => Some (width, height)
                 | _ => last
                 end)
              (untilClosed (front ++ [Closed])) last
            = fold_left
                (fun last e =>
                   match e with
                   | Resized width height => Some (width, height)
                   | _ => last
                   end)
                (untilClosed front) last).
  { induction front as [|e front IH]; intros last; [reflexivity|].
    destruct e; cbn [untilClosed app fold_left]; try apply IH.
    reflexivity. }
  apply Hgen.
Qed.

(** X1.  A frame never reopens the window, and closes it exactly when
    the queue holds a close request, wherever in the queue it stands:
    after [Stage::update] the window is open when it was open before and
    no pending event is a close request. *)
Theorem stage_update_closes_on_request
  (st : Stage A) (pending : list Event) :
  isOpen (stageUpdate st pending)
  = isOpen st && negb (existsb isClosed pending).
Proof.
  unfold stageUpdate; simpl.
  revert st. induction pending as [|e rest IH]; intros st.
  - simpl. now rewrite andb_true_r.
  - change (pollEvents st (e :: rest))
      with (pollEvents (handleEvent st e) rest).
    rewrite IH, handleEvent_isOpen. simpl.
    rewrite negb_orb. now rewrite andb_assoc.
Qed.

(** X2.  A resize is applied as its event is polled: with [pending] the
    events that [pollEvent] returns from the queue of the window (those
    up to the first close request, and none on a closed window), after
    [Stage::update] the parameters hold the sizes of the last resize
    event of [pending] and the view holds them converted to [float],
    which changes no size up to 2^24; both are unchanged without a resize
    event, and a resize event queued after a close request is never
    applied.  The window got one [setView] for each resize event of
    [pending], in order, and then the clear, with the background of the
    act as the events left it, and the display that end every frame. *)
Theorem stage_update_applies_last_resize
  (st : Stage A) (queue : list Event) :
  let pending := polled st queue in
  view (stageUpdate st pending)
  = match lastResize pending with
    | Some (width, height) => (0, 0, to_float width, to_float height)
    | None => view st
    end
  /\ parameters (stageUpdate st pending)
     = match lastResize pending with
       | Some size => size
       | None => parameters st
       end
  /\ rendered (stageUpdate st pending)
     = rendered st ++ resizedViews pending
       ++ [Clear (getBgColor (currentAct (pollEvents st pending))); Display]
  /\ (forall width height,
        lastResize pending = Some (width, height) ->
        0 <= width <= 2 ^ 24 -> 0 <= height <= 2 ^ 24 ->
        view (stageUpdate st pending) = (0, 0, width, height))
  /\ (forall front rest,
        queue = front ++ Closed :: rest ->
        lastResize pending = lastResize (polled st front)).
Proof.
  intros pending.
  destruct (pollEvents_resized st pending) as (Hv & Hp & Hr).
  assert (Hview : view (stageUpdate st pending) = view (pollEvents st pending))
    by reflexivity.
  split; [rewrite Hview; exact Hv|].
  split; [exact Hp|].
  split; [unfold stageUpdate; cbn [rendered]; now rewrite Hr, app_assoc|].
  split.
  - intros width height Hlast Hw Hh. rewrite Hview, Hv, Hlast.
    now rewrite !to_float_exact.
  - intros front rest ->. unfold pending, polled.
    destruct (isOpen st); [|reflexivity].
    rewrite untilClosed_drops_rest. apply lastResize_untilClosed.
Qed.

(** X3.  [Stage::start] ends with the frame whose queue holds a close
    request.  In that frame the events queued before the close request
    and the close request itself are handled; the events queued after it
    are never polled; the rest of [update] still runs; and no later
    frame is run.  The window is closed afterwards. *)
Theorem start_stops_after_close
  (st : Stage A) (before : list (list Event)) (closing : list Event)
  (later : list (list Event)) :
  In Closed closing ->
  start st (before ++ closing :: later) = start st (before ++ [closing])
  /\ isOpen (start st (before ++ closing :: later)) = false
  /\ (isOpen st = true ->
      forall front rest,
        closing = front ++ Closed :: rest -> ~ In Closed front ->
        start st (closing :: later) = stageUpdate st (front ++ [Closed])).
Proof.
  intros Hin.
  assert (Hclosed : forall s,
             isOpen s = true ->
             isOpen (stageUpdate s (polled s closing)) = false).
  { intros s Ho. unfold polled. rewrite Ho, stageUpdate_isOpen.
    rewrite (existsb_isClosed _ (untilClosed_keeps_close _ Hin)).
    apply andb_false_r. }
  assert (Hone : forall s,
             start s (closing :: later) = start s [closing]
             /\ isOpen (start s (closing :: later)) = false).
  { intros s. simpl. destruct (isOpen s) eqn:Ho; [|auto].
    rewrite start_closed by now apply Hclosed. auto. }
  split; [|split].
  - revert st. induction before as [|f before IH]; intros st.
    + apply Hone.
    + simpl. destruct (isOpen st); [apply IH|reflexivity].
  - revert st. induction before as [|f before IH]; intros st.
    + apply Hone.
    + simpl. destruct (isOpen st) eqn:Ho; [apply IH|exact Ho].
  - intros Ho front rest Hsplit Hfront. simpl. rewrite Ho.
    rewrite start_closed by now apply Hclosed.
    unfold polled. rewrite Ho, Hsplit. now rewrite untilClosed_at_close.
Qed.

End Frames.

Lemma start_stops_after_close_witness :
  currentAct
    (start (freshStage [])
       ([[MouseButtonPressed Left]]
        ++ [MouseButtonReleased Left; Closed; MouseButtonPressed Right]
        :: [[MouseButtonReleased Left]]))
  = [CallLeftPressed; CallUpdate; CallLeftReleased; CallUpdate].
Proof.
  rewrite (proj1 (start_stops_after_close (freshStage [])
                    [[MouseButtonPressed Left]]
                    [MouseButtonReleased Left; Closed;
                     MouseButtonPressed Right]
                    [[MouseButtonReleased Left]]
                    (or_intror (or_introl eq_refl)))).
  reflexivity.
Defined.

(** A resize to 16777217 x 600, the first size that [float] does not
    hold: the view gets 16777216, the parameters get the size as it
    is; and a resize queued after the close request is not applied. *)
Example resize_beyond_float_precision :
  view (stageUpdate (freshStage []) (polled (freshStage [])
                                       [Resized 16777217 600]))
  = (0, 0, 16777216, 600)
  /\ parameters (stageUpdate (freshStage [])
                   (polled (freshStage []) [Resized 16777217 600]))
     = (16777217, 600)
  /\ view (stageUpdate (freshStage [])
             (polled (freshStage []) [Closed; Resized 1024 768]))
     = (0, 0, 800, 600).
Proof. repeat split. Qed.

End Stage.

(** ** Act: the root controller *)

Module Act.

Inductive Mode := STATIC | MOVABLE_BY_MOUSE | CENTERED_ON_NODE.

Definition Mode_eqb (m1 m2 : Mode) : bool :=
  match m1, m2 with
  | STATIC, STATIC | MOVABLE_BY_MOUSE, MOVABLE_BY_MOUSE
  | CENTERED_ON_NODE, CENTERED_ON_NODE => true
  | _, _ => false
  end.

(** [sf::Vector2i] and [sf::Vector2u]. *)
Definition Vector2i := (Z * Z)%type.
Definition Vector2u := (Z * Z)%type.

(** *** Nodes held by the act *)

Definition ptr := nat.

Definition ptr_eqb (p q : option ptr) : bool :=
  match p, q with
  | Some x, Some y => Nat.eqb x y
  | None, None => true
  | _, _ => false
  end.

(** The state of a [TransformableNode] that the act reads and writes:
    position, origin and scale of its [sf::Transformable], the selectable
    flag, and the bounds that the size accessors of the concrete node
    classes are computed from. *)
Record Node := {
  posX : Q;
  posY : Q;
  originX : Q;
  originY : Q;
  scale : Q;
  boundsWidth : Q;
  boundsHeight : Q;
  isSelectable : bool
}.

(** [setPos], [setOrigin] and [setScale] write the position, the origin
    and the scale of the [sf::Transformable]; [move] adds to the position;
    [setX] and [setY] are those of the node classes. *)
Definition setPos (n : Node) (x y : Q) : Node :=
  {| posX := x; posY := y; originX := originX n; originY := originY n;
     scale := scale n; boundsWidth := boundsWidth n;
     boundsHeight := boundsHeight n; isSelectable := isSelectable n |}.

Definition setX (n : Node) (value : Q) : Node := setPos n value (posY n).
Definition setY (n : Node) (value : Q) : Node := setPos n (posX n) value.

(** The sums of [move] are the exact ones.  The [float] sums of the
    code are these whenever they need no rounding, as with integers
    below 2^24 in magnitude; a sum that needs rounding is outside of
    what the statements below say of a position. *)
Definition move (n : Node) (dx dy : Q) : Node :=
  setPos n (posX n + dx)%Q (posY n + dy)%Q.

Definition setOrigin (n : Node) (x y : Q) : Node :=
  {| posX := posX n; posY := posY n; originX := x; originY := y;
     scale := scale n; boundsWidth := boundsWidth n;
     boundsHeight := boundsHeight n; isSelectable := isSelectable n |}.

Definition setScale (n : Node) (s : Q) : Node :=
  {| posX := posX n; posY := posY n; originX := originX n;
     originY := originY n; scale := s; boundsWidth := boundsWidth n;
     boundsHeight := boundsHeight n; isSelectable := isSelectable n |}.

(** The hooks of a node that the act calls. *)
Inductive NodeEvent :=
| MouseEntered (n : ptr)
| MouseLeft (n : ptr)
| MouseMoved (n : ptr) (p : Vector2i)
| LeftMouseButtonPressed (n : ptr)
| LeftMouseButtonReleased (n : ptr)
| RightMouseButtonReleased (n : ptr).

(** [ce::Parameters]: the global UI scale and indent. *)
Record Parameters := {
  getK : Q;
  getIndent : Z
}.

Record Act := {
  contentMode : Mode;
  savedMousePosition : Vector2i;
  isRightMouseButtonPressed : bool;
  isMouseMovedWithRightButton : bool;
  selectedNode : option ptr;
  center : option ptr;
  content : option ptr;
  contentLayer : ptr;
  leftUi : option ptr;
  rightUi : option ptr;
  topUi : option ptr;
  bottomUi : option ptr;
  windowSize : Vector2u;
  nodes : ptr -> Node;
  trace : list NodeEvent   (* hooks called so far, oldest first *)
}.

Definition with_savedMousePosition (a : Act) (v : Vector2i) : Act :=
  {| contentMode := contentMode a; savedMousePosition := v;
     isRightMouseButtonPressed := isRightMouseButtonPressed a;
     isMouseMovedWithRightButton := isMouseMovedWithRightButton a;
     selectedNode := selectedNode a; center := center a;
     content := content a; contentLayer := contentLayer a;
     leftUi := leftUi a; rightUi := rightUi a; topUi := topUi a;
     bottomUi := bottomUi a; windowSize := windowSize a;
     nodes := nodes a; trace := trace a |}.

Definition with_isRightMouseButtonPressed (a : Act) (v : bool) : Act :=
  {| contentMode := contentMode a;
     savedMousePosition := savedMousePosition a;
     isRightMouseButtonPressed := v;
     isMouseMovedWithRightButton := isMouseMovedWithRightButton a;
     selectedNode := selectedNode a; center := center a;
     content := content a; contentLayer := contentLayer a;
     leftUi := leftUi a; rightUi := rightUi a; topUi := topUi a;
     bottomUi := bottomUi a; windowSize := windowSize a;
     nodes := nodes a; trace := trace a |}.

Definition with_isMouseMovedWithRightButton (a : Act) (v : bool) : Act :=
  {| contentMode := contentMode a;
     savedMousePosition := savedMousePosition a;
     isRightMouseButtonPressed := isRightMouseButtonPressed a;
     isMouseMovedWithRightButton := v;
     selectedNode := selectedNode a; center := center a;
     content := content a; contentLayer := contentLayer a;
     leftUi := leftUi a; rightUi := rightUi a; topUi := topUi a;
     bottomUi := bottomUi a; windowSize := windowSize a;
     nodes := nodes a; trace := trace a |}.

Definition with_selectedNode (a : Act) (v : option ptr) : Act :=
  {| contentMode := contentMode a;
     savedMousePosition := savedMousePosition a;
     isRightMouseButtonPressed := isRightMouseButtonPressed a;
     isMouseMovedWithRightButton := isMouseMovedWithRightButton a;
     selectedNode := v; center := center a;
     content := content a; contentLayer := contentLayer a;
     leftUi := leftUi a; rightUi := rightUi a; topUi := topUi a;
     bottomUi := bottomUi a; windowSize := windowSize a;
     nodes := nodes a; trace := trace a |}.


Definition with_nodes (a : Act) (v : ptr -> Node) : Act :=
  {| contentMode := contentMode a;
     savedMousePosition := savedMousePosition a;
     isRightMouseButtonPressed := isRightMouseButtonPressed a;
     isMouseMovedWithRightButton := isMouseMovedWithRightButton a;
     selectedNode := selectedNode a; center := center a;
     content := content a; contentLayer := contentLayer a;
     leftUi := leftUi a; rightUi := rightUi a; topUi := topUi a;
     bottomUi := bottomUi a; windowSize := windowSize a;
     nodes := v; trace := trace a |}.

Definition with_trace (a : Act) (v : list NodeEvent) : Act :=
  {| contentMode := contentMode a;
     savedMousePosition := savedMousePosition a;
     isRightMouseButtonPressed := isRightMouseButtonPressed a;
     isMouseMovedWithRightButton := isMouseMovedWithRightButton a;
     selectedNode := selectedNode a; center := center a;
     content := content a; contentLayer := contentLayer a;
     leftUi := leftUi a; rightUi := rightUi a; topUi := topUi a;
     bottomUi := bottomUi a; windowSize := windowSize a;
     nodes := nodes a; trace := v |}.

(** Calling the hook [e] of a node. *)
Definition call (e : NodeEvent) (a : Act) : Act :=
  with_trace a (trace a ++ [e]).

(** Writing through a node pointer. *)
Definition store (a : Act) (p : ptr) (n : Node) : Act :=
  with_nodes a (fun q => if Nat.eqb q p then n else nodes a q).

(** *** A concrete act *)

(** Size accessors of a node whose size is that of its bounds. *)
Definition ownWidth (n : Node) : Q := boundsWidth n.
Definition ownHeight (n : Node) : Q := boundsHeight n.
Definition halfWidth (n : Node) : Q := (boundsWidth n / 2)%Q.
Definition halfHeight (n : Node) : Q := (boundsHeight n / 2)%Q.

Definition nodeAt (x y w h : Q) : Node :=
  {| posX := x; posY := y; originX := 0; originY := 0; scale := 1;
     boundsWidth := w; boundsHeight := h; isSelectable := true |}.

(** Node 0 is the content layer, of size (200, 100); node 1 a panel of
    size (50, 100) last placed at x = 7; nodes 2 and 3 content nodes. *)
Definition sampleNodes (p : ptr) : Node :=
  match p with
  | 0%nat => nodeAt 0 0 200 100
  | 1%nat => nodeAt 7 0 50 100
  | _ => nodeAt 0 0 10 10
  end.

(** An act in a window of (150, 100) with the panel docked on the left,
    the pointer last seen at (0, 0). *)
Definition sampleAct (mode : Mode) : Act :=
  {| contentMode := mode; savedMousePosition := (0, 0);
     isRightMouseButtonPressed := false;
     isMouseMovedWithRightButton := false;
     selectedNode := None; center := None; content := Some 3%nat;
     contentLayer := 0%nat; leftUi := Some 1%nat; rightUi := None;
     topUi := None; bottomUi := None; windowSize := (150, 100);
     nodes := sampleNodes; trace := [] |}.

(** The pointer is over node 2 wherever it is. *)
Definition overNode2 (_ : Act) (_ : Vector2i) : option ptr := Some 2%nat.

Definition sampleParameters : Parameters := {| getK := 1; getIndent := 20 |}.

Definition keepUi (a : Act) : Act := a.

(** The sample act with node 2 selected after it stopped being
    selectable. *)
Definition staleAct (mode : Mode) : Act :=
  let locked :=
    {| posX := 0; posY := 0; originX := 0; originY := 0; scale := 1;
       boundsWidth := 10; boundsHeight := 10; isSelectable := false |} in
  with_selectedNode (store (sampleAct mode) 2%nat locked) (Some 2%nat).

(** The sample act without content, the right button held down. *)
Definition emptyAct : Act :=
  {| contentMode := MOVABLE_BY_MOUSE; savedMousePosition := (0, 0);
     isRightMouseButtonPressed := true;
     isMouseMovedWithRightButton := false;
     selectedNode := None; center := None; content := None;
     contentLayer := 0%nat; leftUi := None; rightUi := None;
     topUi := None; bottomUi := None; windowSize := (150, 100);
     nodes := sampleNodes; trace := [] |}.

(** *** Operations *)

Section Operations.

(** [Node::select] as the act inherits it: the node under the pointer. *)
Variable select : Act -> Vector2i -> option ptr.

(** [Act::resizeUi], called first by [setUpNodes]. *)
Variable resizeUi : Act -> Act.

(** The size accessors of a node, virtual in the node classes. *)
Variables getWidth getHeight getHalfX getHalfY : Node -> Q.

(** [Node::update], the per-frame pass over the tree. *)
Variable updateNodes : Act -> Act.

(** The window position of the origin of a node:
    [getCombinedTransform().transformPoint(0, 0)]. *)
Variable originInWindow : Act -> ptr -> Q * Q.

Variable SCROLL_SPEED : Q.
Variable parameters : Parameters.

(** The quotient of two [float]s.  By 0 the quotient is an infinity or
    no number, which [Q] does not hold: it is left open here, and the
    quotient is the rational one by any other divisor
    ([fdiv_quotient] below). *)
Variable fdiv : Q -> Q -> Q.

(** The test of [onMouseMoved] on the offset of one move. *)
Definition movedEnough (offset : Vector2i) : bool :=
  10 <? int_add (int_abs (fst offset)) (int_abs (snd offset)).

(** The first half of [Act::onMouseMoved]: the node under the pointer
    becomes the selected node, with the leave, enter and move hooks. *)
Definition forwardMove (mousePosition : Vector2i) (a : Act) : Act :=
  let newSelectedNode := select a mousePosition in
  let a :=
    if negb (ptr_eqb (selectedNode a) newSelectedNode) then
      let a := match selectedNode a with
               | Some n => call (MouseLeft n) a
               | None => a
               end in
      let a := with_selectedNode a newSelectedNode in
      match selectedNode a with
      | Some n => call (MouseEntered n) a
      | None => a
      end
    else a in
  match selectedNode a with
  | Some n => call (MouseMoved n mousePosition) a
  | None => a
  end.

(** [Act::onMouseMoved].  [None]: [content] is dereferenced while null. *)
Definition onMouseMoved (mousePosition : Vector2i) (a : Act) : option Act :=
  let a := forwardMove mousePosition a in
  if Mode_eqb (contentMode a) MOVABLE_BY_MOUSE then
    if isRightMouseButtonPressed a then
      let offset :=
        (int_sub (fst mousePosition) (fst (savedMousePosition a)),
         int_sub (snd mousePosition) (snd (savedMousePosition a))) in
      let a := if movedEnough offset
               then with_isMouseMovedWithRightButton a true else a in
      match content a with
      | Some c =>
          let a := store a c (move (nodes a c) (inject_Z (fst offset))
                                               (inject_Z (snd offset))) in
          Some (with_savedMousePosition a mousePosition)
      | None => None
      end
    else Some (with_savedMousePosition a mousePosition)
  else Some a.

(** [Act::onMouseLeft]. *)
Definition onMouseLeft (a : Act) : Act :=
  match selectedNode a with
  | Some n => with_selectedNode (call (MouseLeft n) a) None
  | None => a
  end.

(** [Act::onLeftMouseButtonPressed]. *)
Definition onLeftMouseButtonPressed (a : Act) : Act :=
  match selectedNode a with
  | Some n =>
      if isSelectable (nodes a n) then call (LeftMouseButtonPressed n) a
      else with_selectedNode a None
  | None => a
  end.

(** [Act::onLeftMouseButtonReleased]. *)
Definition onLeftMouseButtonReleased (a : Act) : Act :=
  match selectedNode a with
  | Some n =>
      if isSelectable (nodes a n) then call (LeftMouseButtonReleased n) a
      else with_selectedNode a None
  | None => a
  end.

(** [Act::onRightMouseButtonPressed]. *)
Definition onRightMouseButtonPressed (a : Act) : Act :=
  if Mode_eqb (contentMode a) MOVABLE_BY_MOUSE then
    with_isMouseMovedWithRightButton (with_isRightMouseButtonPressed a true)
      false
  else a.

(** [Act::onRightMouseButtonReleased]. *)
Definition onRightMouseButtonReleased (a : Act) : Act :=
  let a := if Mode_eqb (contentMode a) MOVABLE_BY_MOUSE
           then with_isRightMouseButtonPressed a false else a in
  if negb (isMouseMovedWithRightButton a) then
    match selectedNode a with
    | Some n =>
        if isSelectable (nodes a n) then call (RightMouseButtonReleased n) a
        else with_selectedNode a None
    | None => a
    end
  else a.

(** The locals of [Act::setUpNodes]. *)
Definition fullLeftIndent (a : Act) : Q :=
  match leftUi a with Some l => getWidth (nodes a l) | None => 0%Q end.

Definition fullTopIndent (a : Act) : Q :=
  match topUi a with Some t => getHeight (nodes a t) | None => 0%Q end.

(** The body of [Act::setUpNodes] after its call of [resizeUi], with the
    final values of its locals [freeWidth] and [freeHeight]. *)
Definition layout (a : Act) : Act * Q * Q :=
  let fullLeftIndent := fullLeftIndent a in
  let fullTopIndent := fullTopIndent a in
  let a := match leftUi a with
           | Some l => store a l (setY (nodes a l) fullTopIndent)
           | None => a
           end in
  let freeWidth := (inject_Z (fst (windowSize a)) - fullLeftIndent)%Q in
  let '(a, freeWidth) :=
    match rightUi a with
    | Some r =>
        let a := store a r
                   (setPos (nodes a r)
                      (inject_Z (fst (windowSize a)) - getWidth (nodes a r))%Q
                      fullTopIndent) in
        (a, (freeWidth - getWidth (nodes a r))%Q)
    | None => (a, freeWidth)
    end in
  let a := match topUi a with
           | Some t => store a t (setX (nodes a t) fullLeftIndent)
           | None => a
           end in
  let freeHeight := (inject_Z (snd (windowSize a)) - fullTopIndent)%Q in
  let '(a, freeHeight) :=
    match bottomUi a with
    | Some b =>
        let a := store a b
                   (setPos (nodes a b) fullLeftIndent
                      (inject_Z (snd (windowSize a))
                       - getHeight (nodes a b))%Q) in
        (a, (freeHeight - getHeight (nodes a b))%Q)
    | None => (a, freeHeight)
    end in
  let cl := contentLayer a in
  if Mode_eqb (contentMode a) STATIC then
    let a := store a cl
               (setScale (nodes a cl)
                  (fmin (fdiv freeWidth (getWidth (nodes a cl)))
                        (fdiv freeHeight (getHeight (nodes a cl))))) in
    let a := store a cl
               (setOrigin (nodes a cl) (getHalfX (nodes a cl))
                                       (getHalfY (nodes a cl))) in
    let a := store a cl
               (setPos (nodes a cl) (fullLeftIndent + freeWidth / 2)%Q
                                    (fullTopIndent + freeHeight / 2)%Q) in
    (a, freeWidth, freeHeight)
  else
    (store a cl (setScale (nodes a cl) (getK parameters)),
     freeWidth, freeHeight).

Definition freeWidth (a : Act) : Q := snd (fst (layout a)).
Definition freeHeight (a : Act) : Q := snd (layout a).

(** [Act::setUpNodes]. *)
Definition setUpNodes (a : Act) : Act := fst (fst (layout (resizeUi a))).

(** The edge-scroll tests of [Act::update]: an [int] coordinate against
    the [unsigned int] margin, both converted to [unsigned int]. *)
Definition activeArea : Z := to_unsigned (getIndent parameters / 2).

Definition nearLowEdge (saved : Z) : bool :=
  to_unsigned saved <? activeArea.

Definition nearHighEdge (saved size : Z) : bool :=
  to_unsigned (size - activeArea) <? to_unsigned saved.

(** One component of the local [offset] of [Act::update]. *)
Definition edgeScroll (saved size : Z) : Z :=
  if nearLowEdge saved then
    float_to_int (inject_Z 0 + SCROLL_SPEED * getK parameters)%Q
  else if nearHighEdge saved size then
    float_to_int (inject_Z 0 - SCROLL_SPEED * getK parameters)%Q
  else 0.

(** [Act::update], drawing apart.  [None]: [center] is dereferenced
    while null. *)
Definition update (a0 : Act) : option Act :=
  let a := updateNodes a0 in
  let cl := contentLayer a in
  if Mode_eqb (contentMode a) MOVABLE_BY_MOUSE then
    let offset :=
      (edgeScroll (fst (savedMousePosition a)) (fst (windowSize a)),
       edgeScroll (snd (savedMousePosition a)) (snd (windowSize a))) in
    Some (store a cl (move (nodes a cl) (inject_Z (fst offset))
                                        (inject_Z (snd offset))))
  else if Mode_eqb (contentMode a) CENTERED_ON_NODE then
    match center a with
    | Some c =>
        let offset := originInWindow a c in
        Some (store a cl
                (move (nodes a cl)
                   (inject_Z (to_unsigned (fst (windowSize a) / 2))
                    - fst offset)%Q
                   (inject_Z (to_unsigned (snd (windowSize a) / 2))
                    - snd offset)%Q))
    | None => None
    end
  else Some a.

(** [Act::checkPointOnIt]. *)
Definition checkPointOnIt (a : Act) (point : Vector2i) : bool :=
  (0 <? fst point)
  && (to_unsigned (fst point) <? to_unsigned (fst (windowSize a)))
  && (0 <? snd point)
  && (to_unsigned (snd point) <? to_unsigned (snd (windowSize a))).

(** A run of pointer moves, in order. *)
Fixpoint mouseMoves (ps : list Vector2i) (a : Act) : option Act :=
  match ps with
  | [] => Some a
  | p :: rest =>
      match onMouseMoved p a with
      | Some a' => mouseMoves rest a'
      | None => None
      end
  end.

(** *** Drags, as the specification words them *)

(** Manhattan distance between two pointer positions. *)
Definition manhattan (p q : Vector2i) : Z :=
  Z.abs (fst q - fst p) + Z.abs (snd q - snd p).

(** Some move of the run [ps], started at [from], is farther than 10 from
    the position before it. *)
Fixpoint someStepExceeds (from : Vector2i) (ps : list Vector2i) : bool :=
  match ps with
  | [] => false
  | p :: rest => (10 <? manhattan from p) || someStepExceeds p rest
  end.

(** The cumulative Manhattan offset of the run: the sum over its moves. *)
Fixpoint cumulativeOffset (from : Vector2i) (ps : list Vector2i) : Z :=
  match ps with
  | [] => 0
  | p :: rest => manhattan from p + cumulativeOffset p rest
  end.

(** Pointer positions a window can report, far from the limits of [int]. *)
Definition inWindowRange (p : Vector2i) : Prop :=
  Z.abs (fst p) < 2 ^ 29 /\ Z.abs (snd p) < 2 ^ 29.

(** Integer coordinates, of the pointer or of a node, small enough for
    [float] to hold every position of a drag between them without
    rounding: a sum or difference of three of them stays below 2^24 in
    magnitude. *)
Definition inExactRange (p : Vector2i) : Prop :=
  Z.abs (fst p) < 2 ^ 22 /\ Z.abs (snd p) < 2 ^ 22.

(** The node stands at a position with integer coordinates. *)
Definition standsAt (n : Node) (p : Vector2i) : Prop :=
  (posX n == inject_Z (fst p))%Q /\ (posY n == inject_Z (snd p))%Q.

(** The position [p] after the displacement that leads from [from] to
    [to]. *)
Definition displaced (p from to : Vector2i) : Vector2i :=
  (fst p + (fst to - fst from), snd p + (snd to - snd from)).

(** Integer coordinates that [float] holds exactly. *)
Definition heldExactly (p : Vector2i) : Prop :=
  Z.abs (fst p) < 2 ^ 24 /\ Z.abs (snd p) < 2 ^ 24.

(** The click hook that a right-button release calls. *)
Definition releaseClick (a : Act) : list NodeEvent :=
  match selectedNode a with
  | Some n =>
      if negb (isMouseMovedWithRightButton a) && isSelectable (nodes a n)
      then [RightMouseButtonReleased n] else []
  | None => []
  end.


(** The nodes in the docked slots. *)
Definition uiNodes (a : Act) : list ptr :=
  let slot (s : option ptr) := match s with Some p => [p] | None => [] end in
  slot (leftUi a) ++ slot (rightUi a) ++ slot (topUi a) ++ slot (bottomUi a).


Definition position (n : Node) : Q * Q := (posX n, posY n).
Definition origin (n : Node) : Q * Q := (originX n, originY n).

(** *** The layout, block by block *)



Definition windowWidth (a : Act) : Q := inject_Z (fst (windowSize a)).
Definition windowHeight (a : Act) : Q := inject_Z (snd (windowSize a)).

(** The docking blocks of [layout], one by one. *)
Definition dock (slot : option ptr) (f : Node -> Node) (a : Act) : Act :=
  match slot with
  | Some p => store a p (f (nodes a p))
  | None => a
  end.

Definition dockedLeft (a : Act) : Act :=
  dock (leftUi a) (fun n => setY n (fullTopIndent a)) a.

Definition dockedRight (a : Act) : Act :=
  dock (rightUi a)
    (fun n => setPos n (windowWidth a - getWidth n)%Q (fullTopIndent a))
    (dockedLeft a).

Definition dockedTop (a : Act) : Act :=
  dock (topUi a) (fun n => setX n (fullLeftIndent a)) (dockedRight a).

Definition dockedBottom (a : Act) : Act :=
  dock (bottomUi a)
    (fun n => setPos n (fullLeftIndent a) (windowHeight a - getHeight n)%Q)
    (dockedTop a).

Definition freeWidthAfter (a : Act) : Q :=
  match rightUi a with
  | Some r => (windowWidth a - fullLeftIndent a
               - getWidth (nodes (dockedRight a) r))%Q
  | None => (windowWidth a - fullLeftIndent a)%Q
  end.

Definition freeHeightAfter (a : Act) : Q :=
  match bottomUi a with
  | Some b => (windowHeight a - fullTopIndent a
               - getHeight (nodes (dockedBottom a) b))%Q
  | None => (windowHeight a - fullTopIndent a)%Q
  end.

(** The last block of [layout]: the content layer. *)
Definition placeContent (a d : Act) : Act :=
  let cl := contentLayer a in
  if Mode_eqb (contentMode a) STATIC then
    let n1 := setScale (nodes d cl)
                (fmin (fdiv (freeWidthAfter a) (getWidth (nodes d cl)))
                      (fdiv (freeHeightAfter a) (getHeight (nodes d cl)))) in
    let n2 := setOrigin n1 (getHalfX n1) (getHalfY n1) in
    let n3 := setPos n2 (fullLeftIndent a + freeWidthAfter a / 2)%Q
                        (fullTopIndent a + freeHeightAfter a / 2)%Q in
    store (store (store d cl n1) cl n2) cl n3
  else store d cl (setScale (nodes d cl) (getK parameters)).


(** *** The hooks of a pointer move and of a click *)

(** The hooks that a pointer move to [p] calls when the node under the
    pointer changes from [old] to [new]. *)
Definition moveHooks (old new : option ptr) (p : Vector2i) : list NodeEvent :=
  (if ptr_eqb old new then []
   else match old with Some n => [MouseLeft n] | None => [] end
        ++ match new with Some n => [MouseEntered n] | None => [] end)
  ++ match new with Some n => [MouseMoved n p] | None => [] end.

(** The hook [hook] of the selected node, when that node is selectable. *)
Definition clickHook (hook : ptr -> NodeEvent) (a : Act) : list NodeEvent :=
  match selectedNode a with
  | Some n => if isSelectable (nodes a n) then [hook n] else []
  | None => []
  end.

(** The scroll steps of [Act::update] at the low and at the high edge. *)
Definition lowEdgeStep : Z :=
  float_to_int (inject_Z 0 + SCROLL_SPEED * getK parameters)%Q.

Definition highEdgeStep : Z :=
  float_to_int (inject_Z 0 - SCROLL_SPEED * getK parameters)%Q.

(** The scroll of one axis by zones, for a coordinate [saved] that is not
    negative in a window of size [size]. *)
Definition zoneStep (saved size : Z) : Z :=
  if saved <? activeArea then lowEdgeStep
  else if (activeArea <=? size) && (size - activeArea <? saved)
       then highEdgeStep
       else 0.

(** Two nodes that differ at most in their position. *)
Definition samePlacementApart (n m : Node) : Prop :=
  origin n = origin m /\ scale n = scale m
  /\ boundsWidth n = boundsWidth m /\ boundsHeight n = boundsHeight m
  /\ isSelectable n = isSelectable m.

(** *** Properties of the pointer handlers *)

Lemma nodes_store_same (a : Act) (p : ptr) (n : Node) :
  nodes (store a p n) p = n.
Proof. unfold store; simpl. now rewrite Nat.eqb_refl. Qed.

Lemma nodes_store_other (a : Act) (p q : ptr) (n : Node) :
  q <> p -> nodes (store a p n) q = nodes a q.
Proof.
  intros Hne. unfold store; simpl.
  destruct (Nat.eqb_spec q p); [contradiction|reflexivity].
Qed.

Lemma ptr_eqb_eq (p q : option ptr) : ptr_eqb p q = true -> p = q.
Proof.
  destruct p as [x|], q as [y|]; simpl; intros E; try discriminate E.
  - apply Nat.eqb_eq in E. now subst.
  - reflexivity.
Qed.

Lemma forwardMove_frame (p : Vector2i) (a : Act) :
  contentMode (forwardMove p a) = contentMode a
  /\ savedMousePosition (forwardMove p a) = savedMousePosition a
  /\ isRightMouseButtonPressed (forwardMove p a)
     = isRightMouseButtonPressed a
  /\ isMouseMovedWithRightButton (forwardMove p a)
     = isMouseMovedWithRightButton a
  /\ content (forwardMove p a) = content a
  /\ nodes (forwardMove p a) = nodes a
  /\ selectedNode (forwardMove p a) = select a p.
Proof.
  unfold forwardMove.
  destruct (ptr_eqb (selectedNode a) (select a p)) eqn:E; simpl.
  - apply ptr_eqb_eq in E.
    destruct (selectedNode a) eqn:S; simpl; rewrite ?S; repeat split; auto.
  - destruct (selectedNode a), (select a p); simpl; repeat split;
      reflexivity.
Qed.

Lemma movedEnough_manhattan (s p : Vector2i) :
  inWindowRange s -> inWindowRange p ->
  movedEnough (int_sub (fst p) (fst s), int_sub (snd p) (snd s))
  = (10 <? manhattan s p).
Proof.
  intros [Hs1 Hs2] [Hp1 Hp2].
  unfold movedEnough, manhattan, int_add, int_abs, int_sub; simpl.
  rewrite (to_int_small (fst p - fst s)) by lia.
  rewrite (to_int_small (snd p - snd s)) by lia.
  rewrite (to_int_small (Z.abs (fst p - fst s))) by lia.
  rewrite (to_int_small (Z.abs (snd p - snd s))) by lia.
  rewrite to_int_small by lia. reflexivity.
Qed.

(** One move of a drag in MOVABLE_BY_MOUSE mode. *)
Lemma onMouseMoved_drag_step (p : Vector2i) (a : Act) :
  contentMode a = MOVABLE_BY_MOUSE ->
  isRightMouseButtonPressed a = true ->
  content a <> None ->
  inWindowRange (savedMousePosition a) -> inWindowRange p ->
  exists a',
    onMouseMoved p a = Some a'
    /\ contentMode a' = MOVABLE_BY_MOUSE
    /\ isRightMouseButtonPressed a' = true
    /\ content a' = content a
    /\ savedMousePosition a' = p
    /\ isMouseMovedWithRightButton a'
       = isMouseMovedWithRightButton a
         || (10 <? manhattan (savedMousePosition a) p).
Proof.
  intros Hmode Hpressed Hcontent Hs Hp.
  destruct (forwardMove_frame p a) as (F1 & F2 & F3 & F4 & F5 & F6 & F7).
  unfold onMouseMoved.
  rewrite F1, Hmode, F3, Hpressed, F2; simpl.
  rewrite (movedEnough_manhattan _ _ Hs Hp).
  destruct (10 <? manhattan (savedMousePosition a) p); simpl.
  - rewrite F5. destruct (content a) as [c|]; [|contradiction].
    eexists; split; [reflexivity|]. simpl.
    rewrite F1, F3, F5. repeat split; auto using orb_true_r.
  - rewrite F5. destruct (content a) as [c|]; [|contradiction].
    eexists; split; [reflexivity|]. simpl.
    rewrite F1, F3, F4, F5. repeat split; auto using orb_false_r.
Qed.

Lemma mouseMoves_drag (ps : list Vector2i) :
  forall a : Act,
    contentMode a = MOVABLE_BY_MOUSE ->
    isRightMouseButtonPressed a = true ->
    content a <> None ->
    inWindowRange (savedMousePosition a) -> Forall inWindowRange ps ->
    exists a',
      mouseMoves ps a = Some a'
      /\ contentMode a' = MOVABLE_BY_MOUSE
      /\ isMouseMovedWithRightButton a'
         = isMouseMovedWithRightButton a
           || someStepExceeds (savedMousePosition a) ps.
Proof.
  induction ps as [|p rest IH]; intros a Hmode Hpressed Hcontent Hs Hps.
  - exists a. simpl. rewrite orb_false_r. auto.
  - inversion Hps as [|? ? Hp Hrest]; subst.
    destruct (onMouseMoved_drag_step p a Hmode Hpressed Hcontent Hs Hp)
      as (a1 & E1 & M1 & P1 & C1 & S1 & F1).
    destruct (IH a1 M1 P1) as (a2 & E2 & M2 & F2); auto.
    + now rewrite C1.
    + now rewrite S1.
    + exists a2. simpl. rewrite E1, E2, F2, F1, S1, orb_assoc. auto.
Qed.

Lemma cumulativeOffset_bounds_steps (ps : list Vector2i) :
  forall from,
    cumulativeOffset from ps <= 10 -> someStepExceeds from ps = false.
Proof.
  assert (Hnonneg : forall qs from, 0 <= cumulativeOffset from qs).
  { induction qs as [|q qs IHq]; intros from; simpl; [lia|].
    specialize (IHq q). unfold manhattan. lia. }
  induction ps as [|p rest IH]; intros from Hsum; simpl in *; [reflexivity|].
  specialize (Hnonneg rest p).
  assert (Hm : 0 <= manhattan from p) by (unfold manhattan; lia).
  rewrite IH by lia.
  rewrite orb_false_r. apply Z.ltb_ge. lia.
Qed.

Lemma onRightMouseButtonReleased_trace (a : Act) :
  trace (onRightMouseButtonReleased a) = trace a ++ releaseClick a.
Proof.
  unfold onRightMouseButtonReleased, releaseClick.
  destruct (Mode_eqb (contentMode a) MOVABLE_BY_MOUSE); simpl;
    destruct (isMouseMovedWithRightButton a); simpl;
    try (destruct (selectedNode a) as [n|]; simpl);
    try (destruct (isSelectable (nodes a n)); simpl);
    try reflexivity; symmetry; apply app_nil_r.
Qed.

(** C4 (as amended).  In MOVABLE_BY_MOUSE mode, after a right-button
    press and a run of pointer moves, the drag-moved flag is set exactly
    when some single move is farther than 10 (Manhattan) from the position
    recorded by the move before it; the release then calls the click hook
    of the selected node exactly when the flag is clear and that node is
    selectable.  A run whose per-move offsets sum to at most 10 leaves the
    flag clear. *)
Theorem drag_flag_set_by_single_move (a : Act) (ps : list Vector2i) :
  contentMode a = MOVABLE_BY_MOUSE ->
  content a <> None ->
  inWindowRange (savedMousePosition a) ->
  Forall inWindowRange ps ->
  exists a',
    mouseMoves ps (onRightMouseButtonPressed a) = Some a'
    /\ isMouseMovedWithRightButton a'
       = someStepExceeds (savedMousePosition a) ps
    /\ trace (onRightMouseButtonReleased a') = trace a' ++ releaseClick a'
    /\ (someStepExceeds (savedMousePosition a) ps = true ->
        trace (onRightMouseButtonReleased a') = trace a')
    /\ (someStepExceeds (savedMousePosition a) ps = false ->
        forall n, selectedNode a' = Some n ->
                  isSelectable (nodes a' n) = true ->
                  trace (onRightMouseButtonReleased a')
                  = trace a' ++ [RightMouseButtonReleased n])
    /\ (cumulativeOffset (savedMousePosition a) ps <= 10 ->
        isMouseMovedWithRightButton a' = false).
Proof.
  intros Hmode Hcontent Hs Hps.
  assert (Hpress : onRightMouseButtonPressed a
                   = with_isMouseMovedWithRightButton
                       (with_isRightMouseButtonPressed a true) false).
  { unfold onRightMouseButtonPressed. now rewrite Hmode. }
  destruct (mouseMoves_drag ps (onRightMouseButtonPressed a))
    as (a' & E & M & F); try (rewrite ?Hpress; simpl; auto; fail).
  rewrite Hpress in F; simpl in F.
  exists a'. split; [exact E|]. split; [exact F|].
  split; [apply onRightMouseButtonReleased_trace|].
  split; [|split].
  - intros Hx. rewrite onRightMouseButtonReleased_trace.
    unfold releaseClick. rewrite F, Hx. simpl.
    destruct (selectedNode a'); apply app_nil_r.
  - intros Hx n Hn Hsel. rewrite onRightMouseButtonReleased_trace.
    unfold releaseClick. rewrite F, Hx, Hn, Hsel. reflexivity.
  - intros Hsum. rewrite F. now apply cumulativeOffset_bounds_steps.
Qed.

(** C8 (as amended).  [onMouseMoved] records the pointer position in
    MOVABLE_BY_MOUSE mode; in the other modes the stored position is left
    as it was. *)
Theorem onMouseMoved_saves_position_when_movable (p : Vector2i) (a : Act) :
  (contentMode a = MOVABLE_BY_MOUSE ->
   isRightMouseButtonPressed a = true -> content a <> None) ->
  exists a',
    onMouseMoved p a = Some a'
    /\ savedMousePosition a'
       = if Mode_eqb (contentMode a) MOVABLE_BY_MOUSE
         then p else savedMousePosition a.
Proof.
  intros Hcontent.
  destruct (forwardMove_frame p a) as (F1 & F2 & F3 & F4 & F5 & F6 & F7).
  unfold onMouseMoved. rewrite F1, F3.
  destruct (contentMode a) eqn:Hmode; simpl;
    try (eexists; split; [reflexivity|exact F2]).
  destruct (isRightMouseButtonPressed a) eqn:Hpressed;
    [|eexists; split; reflexivity].
  specialize (Hcontent eq_refl eq_refl).
  match goal with
  | |- context [movedEnough ?o] => destruct (movedEnough o)
  end; simpl; rewrite F5;
    (destruct (content a) as [c|]; [|contradiction]);
    eexists; split; reflexivity.
Qed.

Lemma activeArea_bound :
  0 <= getIndent parameters < 2 ^ 32 -> 0 <= activeArea < 2 ^ 31.
Proof.
  intros Hi. unfold activeArea, to_unsigned.
  assert (0 <= getIndent parameters / 2 < 2 ^ 31).
  { split; [apply Z.div_pos; lia|apply Z.div_lt_upper_bound; lia]. }
  rewrite Z.mod_small; lia.
Qed.

(** C10.  In MOVABLE_BY_MOUSE mode [Act::update] compares the saved [int]
    coordinate with the [unsigned int] margin after converting it to
    [unsigned int]: for a negative saved coordinate the low-edge (left or
    top) branch is never taken, so the offset of that axis is the one of
    the high-edge branch or zero, never the positive scroll step of the
    low edge. *)
Theorem negative_coordinate_skips_low_edge (saved : Z) :
  0 <= getIndent parameters < 2 ^ 32 ->
  - 2 ^ 31 <= saved < 0 ->
  nearLowEdge saved = false
  /\ (forall size,
        edgeScroll saved size
        = if nearHighEdge saved size
          then float_to_int (inject_Z 0 - SCROLL_SPEED * getK parameters)%Q
          else 0)
  /\ (forall a,
        contentMode (updateNodes a) = MOVABLE_BY_MOUSE ->
        fst (savedMousePosition (updateNodes a)) = saved ->
        exists a',
          update a = Some a'
          /\ posX (nodes a' (contentLayer (updateNodes a)))
             = (posX (nodes (updateNodes a) (contentLayer (updateNodes a)))
                + inject_Z
                    (if nearHighEdge saved (fst (windowSize (updateNodes a)))
                     then float_to_int
                            (inject_Z 0 - SCROLL_SPEED * getK parameters)%Q
                     else 0))%Q)
  /\ (forall a,
        contentMode (updateNodes a) = MOVABLE_BY_MOUSE ->
        snd (savedMousePosition (updateNodes a)) = saved ->
        exists a',
          update a = Some a'
          /\ posY (nodes a' (contentLayer (updateNodes a)))
             = (posY (nodes (updateNodes a) (contentLayer (updateNodes a)))
                + inject_Z
                    (if nearHighEdge saved (snd (windowSize (updateNodes a)))
                     then float_to_int
                            (inject_Z 0 - SCROLL_SPEED * getK parameters)%Q
                     else 0))%Q).
Proof.
  intros Hindent Hsaved.
  assert (Hlow : nearLowEdge saved = false).
  { unfold nearLowEdge. rewrite (to_unsigned_negative _ Hsaved).
    pose proof (activeArea_bound Hindent). apply Z.ltb_ge. lia. }
  assert (Hscroll : forall size,
            edgeScroll saved size
            = if nearHighEdge saved size
              then float_to_int
                     (inject_Z 0 - SCROLL_SPEED * getK parameters)%Q
              else 0).
  { intros size. unfold edgeScroll. rewrite Hlow. reflexivity. }
  split; [exact Hlow|]. split; [exact Hscroll|]. split.
  - intros a Hmode Hx. unfold update. rewrite Hmode; simpl.
    eexists; split; [reflexivity|]. simpl.
    rewrite Nat.eqb_refl. simpl. rewrite Hx, Hscroll. reflexivity.
  - intros a Hmode Hy. unfold update. rewrite Hmode; simpl.
    eexists; split; [reflexivity|]. simpl.
    rewrite Nat.eqb_refl. simpl. rewrite Hy, Hscroll. reflexivity.
Qed.

(** *** More on the pointer handlers *)

Lemma forwardMove_trace (p : Vector2i) (a : Act) :
  trace (forwardMove p a)
  = trace a ++ moveHooks (selectedNode a) (select a p) p.
Proof.
  unfold forwardMove, moveHooks.
  destruct (selectedNode a) as [o|] eqn:So, (select a p) as [n|]; simpl;
    try (destruct (Nat.eqb_spec o n) as [->|]; simpl);
    rewrite ?So; simpl; rewrite <- ?app_assoc, ?app_nil_r; reflexivity.
Qed.

Lemma onMouseMoved_keeps_hooks (p : Vector2i) (a a' : Act) :
  onMouseMoved p a = Some a' ->
  trace a' = trace (forwardMove p a)
  /\ selectedNode a' = selectedNode (forwardMove p a).
Proof.
  unfold onMouseMoved.
  destruct (Mode_eqb (contentMode (forwardMove p a)) MOVABLE_BY_MOUSE);
    [|intros [= <-]; auto].
  destruct (isRightMouseButtonPressed (forwardMove p a));
    [|intros [= <-]; auto].
  match goal with
  | |- context [movedEnough ?o] => destruct (movedEnough o)
  end; simpl;
    (destruct (content (forwardMove p a)); [|discriminate]);
    intros [= <-]; auto.
Qed.

(** X4.  Whenever [Act::onMouseMoved] returns, the selected node is the
    node under the pointer, and the hooks called are, in this order: when
    the node under the pointer changed, the leave hook of the old node and
    the enter hook of the new one (each only for a node that exists);
    then the move hook of the node under the pointer.  A pointer that
    stays over one node calls its move hook only. *)
Theorem onMouseMoved_hooks (p : Vector2i) (a a' : Act) :
  onMouseMoved p a = Some a' ->
  selectedNode a' = select a p
  /\ trace a' = trace a ++ moveHooks (selectedNode a) (select a p) p
  /\ (selectedNode a = select a p ->
      trace a' = trace a ++ match select a p with
                            | Some n => [MouseMoved n p]
                            | None => []
                            end).
Proof.
  intros E. destruct (onMouseMoved_keeps_hooks p a a' E) as [Ht Hs].
  destruct (forwardMove_frame p a) as (_ & _ & _ & _ & _ & _ & F7).
  split; [congruence|]. split.
  - rewrite Ht. apply forwardMove_trace.
  - intros Hsame. rewrite Ht, forwardMove_trace. unfold moveHooks.
    rewrite Hsame.
    destruct (select a p) as [n|]; simpl; [now rewrite Nat.eqb_refl|].
    reflexivity.
Qed.

(** X5.  A button event that finds the selected node not selectable
    calls no hook and drops the selection, so that the button events
    after it do nothing either, until a pointer move selects a node
    again. *)
Theorem button_on_unselectable_drops_selection (a : Act) (n : ptr) :
  selectedNode a = Some n -> isSelectable (nodes a n) = false ->
  onLeftMouseButtonPressed a = with_selectedNode a None
  /\ onLeftMouseButtonReleased a = with_selectedNode a None
  /\ onLeftMouseButtonReleased (onLeftMouseButtonPressed a)
     = onLeftMouseButtonPressed a
  /\ onLeftMouseButtonPressed (onLeftMouseButtonReleased a)
     = onLeftMouseButtonReleased a
  /\ trace (onRightMouseButtonReleased (onLeftMouseButtonPressed a))
     = trace a
  /\ (isMouseMovedWithRightButton a = false ->
      selectedNode (onRightMouseButtonReleased a) = None
      /\ trace (onRightMouseButtonReleased a) = trace a).
Proof.
  intros Hsel Hlocked.
  assert (Hpress : onLeftMouseButtonPressed a = with_selectedNode a None).
  { unfold onLeftMouseButtonPressed. now rewrite Hsel, Hlocked. }
  assert (Hrelease : onLeftMouseButtonReleased a = with_selectedNode a None).
  { unfold onLeftMouseButtonReleased. now rewrite Hsel, Hlocked. }
  split; [exact Hpress|]. split; [exact Hrelease|].
  rewrite Hpress, Hrelease. split; [reflexivity|]. split; [reflexivity|].
  split.
  - rewrite onRightMouseButtonReleased_trace. unfold releaseClick. simpl.
    apply app_nil_r.
  - intros Hflag. unfold onRightMouseButtonReleased.
    destruct (Mode_eqb (contentMode a) MOVABLE_BY_MOUSE); simpl;
      rewrite Hflag, Hsel; simpl; rewrite Hlocked; auto.
Qed.

Lemma last_cons (p d : Vector2i) (ps : list Vector2i) :
  last (p :: ps) d = last ps p.
Proof.
  revert p d. induction ps as [|q ps IH]; intros p d; [reflexivity|].
  change (last (p :: q :: ps) d) with (last (q :: ps) d).
  now rewrite !IH.
Qed.

Lemma int_sub_in_range (x y : Z) :
  Z.abs x < 2 ^ 29 -> Z.abs y < 2 ^ 29 -> int_sub x y = x - y.
Proof. intros Hx Hy. unfold int_sub. apply to_int_small. lia. Qed.

Lemma onMouseMoved_drag_nodes (p : Vector2i) (a : Act) (c : ptr) :
  contentMode a = MOVABLE_BY_MOUSE ->
  isRightMouseButtonPressed a = true ->
  content a = Some c ->
  inWindowRange (savedMousePosition a) -> inWindowRange p ->
  exists a',
    onMouseMoved p a = Some a'
    /\ contentMode a' = MOVABLE_BY_MOUSE
    /\ isRightMouseButtonPressed a' = true
    /\ content a' = Some c
    /\ savedMousePosition a' = p
    /\ nodes a' c
       = move (nodes a c)
           (inject_Z (fst p - fst (savedMousePosition a)))
           (inject_Z (snd p - snd (savedMousePosition a)))
    /\ (forall q, q <> c -> nodes a' q = nodes a q).
Proof.
  intros Hmode Hpressed Hcontent [Hs1 Hs2] [Hp1 Hp2].
  destruct (forwardMove_frame p a) as (F1 & F2 & F3 & F4 & F5 & F6 & F7).
  unfold onMouseMoved.
  rewrite F1, Hmode, F3, Hpressed, F2; simpl.
  rewrite !int_sub_in_range by assumption.
  match goal with
  | |- context [movedEnough ?o] => destruct (movedEnough o)
  end; simpl; rewrite F5, Hcontent;
    (eexists; split; [reflexivity|]); simpl;
    rewrite F1, F3, F5, F6, Nat.eqb_refl;
    (repeat (split; [solve [auto]|]));
    intros q Hq; (destruct (Nat.eqb_spec q c); [contradiction|reflexivity]).
Qed.

Lemma inExactRange_last (ps : list Vector2i) (d : Vector2i) :
  inExactRange d -> Forall inExactRange ps -> inExactRange (last ps d).
Proof.
  intros Hd Hps. induction Hps as [|p rest Hp _ IH]; [exact Hd|].
  destruct rest as [|q rest]; [exact Hp|exact IH].
Qed.

Lemma inExactRange_inWindowRange (p : Vector2i) :
  inExactRange p -> inWindowRange p.
Proof. intros [H1 H2]. split; lia. Qed.

Lemma Forall_prefix (P : Vector2i -> Prop) (k : nat) (ps : list Vector2i) :
  Forall P ps -> Forall P (firstn k ps).
Proof.
  intros Hps. revert k.
  induction Hps as [|p rest Hp _ IH]; intros [|k]; cbn [firstn];
    constructor; auto.
Qed.

(** What one run of moves keeps: the content stays where it stood
    relative to the pointer. *)
Lemma drag_keeps_grip (c : ptr) (grip : Vector2i) (ps : list Vector2i) :
  forall a : Act,
    contentMode a = MOVABLE_BY_MOUSE ->
    isRightMouseButtonPressed a = true ->
    content a = Some c ->
    standsAt (nodes a c)
      (fst grip + fst (savedMousePosition a),
       snd grip + snd (savedMousePosition a)) ->
    inExactRange (savedMousePosition a) -> Forall inExactRange ps ->
    exists a',
      mouseMoves ps a = Some a'
      /\ savedMousePosition a' = last ps (savedMousePosition a)
      /\ standsAt (nodes a' c)
           (fst grip + fst (savedMousePosition a'),
            snd grip + snd (savedMousePosition a'))
      /\ (forall q, q <> c -> nodes a' q = nodes a q).
Proof.
  induction ps as [|p rest IH]; intros a Hmode Hpressed Hcontent Hat Hs Hps.
  - exists a. simpl. auto.
  - inversion Hps as [|? ? Hp Hrest]; subst.
    destruct (onMouseMoved_drag_nodes p a c Hmode Hpressed Hcontent
                (inExactRange_inWindowRange _ Hs)
                (inExactRange_inWindowRange _ Hp))
      as (a1 & E1 & M1 & P1 & C1 & S1 & N1 & O1).
    destruct (IH a1 M1 P1 C1) as (a2 & E2 & S2 & At2 & O2);
      [|now rewrite S1|exact Hrest|].
    + rewrite S1, N1. destruct Hat as [Hx Hy]. cbn [fst snd] in Hx, Hy.
      split; cbn [posX posY move setPos fst snd].
      * rewrite Hx, <- inject_Z_plus.
        apply inject_Z_injective. lia.
      * rewrite Hy, <- inject_Z_plus.
        apply inject_Z_injective. lia.
    + exists a2. cbn [mouseMoves]. rewrite E1, last_cons.
      rewrite S1 in S2.
      split; [exact E2|]. split; [exact S2|]. split; [exact At2|].
      intros q Hq. rewrite O2 by assumption. now apply O1.
Qed.

(** X6.  While the right button is held in MOVABLE_BY_MOUSE mode, the
    content follows the pointer.  For content at a position with integer
    coordinates, and with these and the coordinates of the pointer below
    2^22 in magnitude: after a run of pointer moves the content stands
    at its first position displaced as the pointer was, from the position
    saved before the run to the last position of the run; the saved
    position is the last one, and no other node has been written.  After
    every move of the run the content stands at integer coordinates below
    2^24 in magnitude, so that no sum of the run needs rounding in
    [float]. *)
Theorem drag_moves_content_with_pointer
  (a : Act) (c : ptr) (ps : list Vector2i) (first : Vector2i) :
  contentMode a = MOVABLE_BY_MOUSE ->
  isRightMouseButtonPressed a = true ->
  content a = Some c ->
  standsAt (nodes a c) first ->
  inExactRange first ->
  inExactRange (savedMousePosition a) -> Forall inExactRange ps ->
  (exists a',
     mouseMoves ps a = Some a'
     /\ savedMousePosition a' = last ps (savedMousePosition a)
     /\ standsAt (nodes a' c)
          (displaced first (savedMousePosition a)
             (last ps (savedMousePosition a)))
     /\ (forall q, q <> c -> nodes a' q = nodes a q))
  /\ (forall k,
        exists a',
          mouseMoves (firstn k ps) a = Some a'
          /\ standsAt (nodes a' c)
               (displaced first (savedMousePosition a)
                  (savedMousePosition a'))
          /\ heldExactly
               (displaced first (savedMousePosition a)
                  (savedMousePosition a'))).
Proof.
  intros Hmode Hpressed Hcontent Hat Hfirst Hs Hps.
  assert (Hgrip : standsAt (nodes a c)
                    (fst first - fst (savedMousePosition a)
                     + fst (savedMousePosition a),
                     snd first - snd (savedMousePosition a)
                     + snd (savedMousePosition a))).
  { destruct Hat as [Hx Hy]. split; cbn [fst snd].
    - rewrite Hx. apply inject_Z_injective. lia.
    - rewrite Hy. apply inject_Z_injective. lia. }
  assert (Hrun : forall qs,
             Forall inExactRange qs ->
             exists a',
               mouseMoves qs a = Some a'
               /\ savedMousePosition a' = last qs (savedMousePosition a)
               /\ standsAt (nodes a' c)
                    (displaced first (savedMousePosition a)
                       (savedMousePosition a'))
               /\ (forall q, q <> c -> nodes a' q = nodes a q)).
  { intros qs Hqs.
    destruct (drag_keeps_grip c
                (fst first - fst (savedMousePosition a),
                 snd first - snd (savedMousePosition a))
                qs a Hmode Hpressed Hcontent Hgrip Hs Hqs)
      as (a' & E & S & [Hx Hy] & O).
    exists a'. split; [exact E|]. split; [exact S|]. split; [|exact O].
    cbn [fst snd] in Hx, Hy. unfold displaced. split; cbn [fst snd].
    - rewrite Hx. apply inject_Z_injective. lia.
    - rewrite Hy. apply inject_Z_injective. lia. }
  split.
  - destruct (Hrun ps Hps) as (a' & E & S & At & O).
    exists a'. rewrite <- S. auto.
  - intros k.
    destruct (Hrun (firstn k ps) (Forall_prefix _ k ps Hps))
      as (a' & E & S & At & _).
    exists a'. split; [exact E|]. split; [exact At|].
    destruct (inExactRange_last (firstn k ps) (savedMousePosition a) Hs
                (Forall_prefix _ k ps Hps)) as [L1 L2].
    rewrite <- S in L1, L2.
    destruct Hfirst as [F1 F2]. destruct Hs as [S1 S2].
    unfold heldExactly, displaced. cbn [fst snd]. split; lia.
Qed.

Lemma onRightMouseButtonPressed_elsewhere (a : Act) :
  contentMode a <> MOVABLE_BY_MOUSE -> onRightMouseButtonPressed a = a.
Proof.
  intros Hmode. unfold onRightMouseButtonPressed.
  destruct (contentMode a); [reflexivity|contradiction|reflexivity].
Qed.

Lemma mouseMoves_elsewhere (ps : list Vector2i) :
  forall a : Act,
    contentMode a <> MOVABLE_BY_MOUSE ->
    exists a',
      mouseMoves ps a = Some a'
      /\ contentMode a' = contentMode a
      /\ isMouseMovedWithRightButton a' = isMouseMovedWithRightButton a
      /\ isRightMouseButtonPressed a' = isRightMouseButtonPressed a
      /\ savedMousePosition a' = savedMousePosition a
      /\ nodes a' = nodes a.
Proof.
  induction ps as [|p rest IH]; intros a Hmode.
  - exists a. simpl. auto 10.
  - destruct (forwardMove_frame p a) as (F1 & F2 & F3 & F4 & F5 & F6 & F7).
    assert (E1 : onMouseMoved p a = Some (forwardMove p a)).
    { unfold onMouseMoved. rewrite F1.
      destruct (contentMode a); [reflexivity|contradiction|reflexivity]. }
    destruct (IH (forwardMove p a)) as (a' & E & M & G & P & S & N);
      [now rewrite F1|].
    exists a'. cbn [mouseMoves]. rewrite E1.
    split; [exact E|]. repeat split; congruence.
Qed.

(** X7.  Outside MOVABLE_BY_MOUSE mode a right-button press changes
    nothing, and no run of pointer moves after it moves a node, records
    a position or touches the drag flags: with the flag clear, the
    release calls the click hook of the selected node, when that node is
    selectable, however far the pointer went in between. *)
Theorem right_click_outside_movable_mode (a : Act) (ps : list Vector2i) :
  contentMode a <> MOVABLE_BY_MOUSE ->
  onRightMouseButtonPressed a = a
  /\ exists a',
       mouseMoves ps (onRightMouseButtonPressed a) = Some a'
       /\ nodes a' = nodes a
       /\ savedMousePosition a' = savedMousePosition a
       /\ isRightMouseButtonPressed a' = isRightMouseButtonPressed a
       /\ isMouseMovedWithRightButton a' = isMouseMovedWithRightButton a
       /\ (isMouseMovedWithRightButton a = false ->
           trace (onRightMouseButtonReleased a')
           = trace a' ++ clickHook RightMouseButtonReleased a').
Proof.
  intros Hmode.
  rewrite (onRightMouseButtonPressed_elsewhere a Hmode).
  split; [reflexivity|].
  destruct (mouseMoves_elsewhere ps a Hmode) as (a' & E & M & G & P & S & N).
  exists a'. split; [exact E|]. split; [exact N|]. split; [exact S|].
  split; [exact P|]. split; [exact G|].
  intros Hflag. rewrite onRightMouseButtonReleased_trace.
  unfold releaseClick, clickHook. rewrite G, Hflag. reflexivity.
Qed.

(** X8.  The pointer handler and the per-frame update have one
    undefined case each, a null pointer that is dereferenced:
    [onMouseMoved] when the right button is held in MOVABLE_BY_MOUSE mode
    and the act has no content, [update] in CENTERED_ON_NODE mode when no
    centre node is set.  In every other state they return. *)
Theorem act_null_dereferences (a : Act) (p : Vector2i) :
  (onMouseMoved p a = None
   <-> contentMode a = MOVABLE_BY_MOUSE
       /\ isRightMouseButtonPressed a = true /\ content a = None)
  /\ (update a = None
      <-> contentMode (updateNodes a) = CENTERED_ON_NODE
          /\ center (updateNodes a) = None).
Proof.
  destruct (forwardMove_frame p a) as (F1 & F2 & F3 & F4 & F5 & F6 & F7).
  split.
  - unfold onMouseMoved. rewrite F1, F3.
    destruct (contentMode a); simpl;
      try (split; [discriminate|intros (H & _); discriminate H]).
    destruct (isRightMouseButtonPressed a); simpl;
      [|split; [discriminate|intros (_ & H & _); discriminate H]].
    match goal with
    | |- context [movedEnough ?o] => destruct (movedEnough o)
    end; simpl; rewrite F5; destruct (content a); simpl;
      (split; [try discriminate; auto|]);
      try (intros (_ & _ & H); discriminate H); auto.
  - unfold update.
    destruct (contentMode (updateNodes a)); simpl;
      try (split; [discriminate|intros (H & _); discriminate H]).
    destruct (center (updateNodes a)); simpl;
      (split; [try discriminate; auto|]);
      try (intros (_ & H); discriminate H); auto.
Qed.

(** X28.  [Act::onMouseLeft] calls the leave hook of the selected node,
    when there is one, and clears the selection, writing to no node;
    called again it does nothing, a press or a release of the left
    button after it changes nothing, and a release of the right button
    after it calls no hook. *)
Theorem onMouseLeft_ends_selection (a : Act) :
  trace (onMouseLeft a)
  = trace a ++ match selectedNode a with
               | Some n => [MouseLeft n]
               | None => []
               end
  /\ selectedNode (onMouseLeft a) = None
  /\ nodes (onMouseLeft a) = nodes a
  /\ onMouseLeft (onMouseLeft a) = onMouseLeft a
  /\ onLeftMouseButtonPressed (onMouseLeft a) = onMouseLeft a
  /\ onLeftMouseButtonReleased (onMouseLeft a) = onMouseLeft a
  /\ trace (onRightMouseButtonReleased (onMouseLeft a))
     = trace (onMouseLeft a)
  /\ selectedNode (onRightMouseButtonReleased (onMouseLeft a)) = None.
Proof.
  assert (Hnone : selectedNode (onMouseLeft a) = None).
  { unfold onMouseLeft. destruct (selectedNode a) eqn:S; [reflexivity|].
    exact S. }
  split.
  { unfold onMouseLeft. destruct (selectedNode a); simpl;
      [reflexivity|now rewrite app_nil_r]. }
  split; [exact Hnone|]. split.
  { unfold onMouseLeft. destruct (selectedNode a); reflexivity. }
  split; [|split; [|split; [|split]]].
  - unfold onMouseLeft at 1. now rewrite Hnone.
  - unfold onLeftMouseButtonPressed. now rewrite Hnone.
  - unfold onLeftMouseButtonReleased. now rewrite Hnone.
  - rewrite onRightMouseButtonReleased_trace. unfold releaseClick.
    rewrite Hnone. apply app_nil_r.
  - unfold onRightMouseButtonReleased.
    destruct (Mode_eqb (contentMode (onMouseLeft a)) MOVABLE_BY_MOUSE);
      simpl; rewrite Hnone;
      destruct (isMouseMovedWithRightButton (onMouseLeft a)); simpl;
      rewrite ?Hnone; reflexivity.
Qed.

Lemma to_unsigned_small (z : Z) : 0 <= z < 2 ^ 32 -> to_unsigned z = z.
Proof. intros Hz. unfold to_unsigned. now apply Z.mod_small. Qed.

Lemma edgeScroll_zoneStep (saved size : Z) :
  0 <= getIndent parameters < 2 ^ 32 ->
  0 <= saved < 2 ^ 31 -> 0 <= size < 2 ^ 32 ->
  edgeScroll saved size = zoneStep saved size.
Proof.
  intros Hindent Hsaved Hsize.
  pose proof (activeArea_bound Hindent) as Harea.
  unfold edgeScroll, zoneStep, nearLowEdge, nearHighEdge.
  fold lowEdgeStep. fold highEdgeStep.
  rewrite (to_unsigned_small saved) by lia.
  destruct (saved <? activeArea); [reflexivity|].
  destruct (Z.leb_spec activeArea size) as [Hle|Hgt]; cbn [andb].
  - now rewrite to_unsigned_small by lia.
  - unfold to_unsigned at 1.
    replace ((size - activeArea) mod 2 ^ 32)
      with (size - activeArea + 2 ^ 32)
      by (apply Z.mod_unique with (q := -1); lia).
    destruct (Z.ltb_spec (size - activeArea + 2 ^ 32) saved);
      [lia|reflexivity].
Qed.

(** X9.  In MOVABLE_BY_MOUSE mode, with a saved pointer position whose
    coordinates are not negative, [Act::update] moves the content layer,
    and no other node, on each axis by: the low-edge step when the
    coordinate is below the margin (half the indent); the high-edge step
    when it is beyond the window size less the margin; and 0 in between.
    Where the two zones overlap the low edge wins, and a window narrower
    than the margin has no high-edge zone, since the unsigned subtraction
    wraps around. *)
Theorem update_scrolls_by_zone (a : Act) :
  0 <= getIndent parameters < 2 ^ 32 ->
  contentMode (updateNodes a) = MOVABLE_BY_MOUSE ->
  0 <= fst (savedMousePosition (updateNodes a)) < 2 ^ 31 ->
  0 <= snd (savedMousePosition (updateNodes a)) < 2 ^ 31 ->
  0 <= fst (windowSize (updateNodes a)) < 2 ^ 32 ->
  0 <= snd (windowSize (updateNodes a)) < 2 ^ 32 ->
  let u := updateNodes a in
  let cl := contentLayer u in
  exists a',
    update a = Some a'
    /\ nodes a' cl
       = move (nodes u cl)
           (inject_Z (zoneStep (fst (savedMousePosition u))
                        (fst (windowSize u))))
           (inject_Z (zoneStep (snd (savedMousePosition u))
                        (snd (windowSize u))))
    /\ (forall q, q <> cl -> nodes a' q = nodes u q)
    /\ (forall saved size,
          activeArea <= saved <= size - activeArea -> zoneStep saved size = 0)
    /\ (forall saved size,
          size < activeArea ->
          zoneStep saved size = if saved <? activeArea then lowEdgeStep else 0).
Proof.
  intros Hindent Hmode Hx Hy Hw Hh u cl. subst u cl.
  unfold update. rewrite Hmode; simpl.
  eexists; split; [reflexivity|]. split; [|split; [|split]].
  - rewrite nodes_store_same.
    now rewrite !edgeScroll_zoneStep by assumption.
  - intros q Hq. now apply nodes_store_other.
  - intros saved size [Hlow Hhigh]. unfold zoneStep.
    destruct (Z.ltb_spec saved activeArea); [lia|].
    destruct (Z.ltb_spec (size - activeArea) saved); [lia|].
    now rewrite andb_false_r.
  - intros saved size Hnarrow. unfold zoneStep.
    destruct (saved <? activeArea); [reflexivity|].
    destruct (Z.leb_spec activeArea size); [lia|reflexivity].
Qed.

(** X10.  [Act::checkPointOnIt] holds exactly for the points strictly
    inside the window: a point with a coordinate of 0, or with one equal
    to the window size, is outside, and so is every point with a negative
    coordinate, although the comparison with the window size is made on
    unsigned values. *)
Theorem checkPointOnIt_strictly_inside (a : Act) (point : Vector2i) :
  0 <= fst (windowSize a) < 2 ^ 32 -> 0 <= snd (windowSize a) < 2 ^ 32 ->
  - 2 ^ 31 <= fst point < 2 ^ 31 -> - 2 ^ 31 <= snd point < 2 ^ 31 ->
  checkPointOnIt a point = true
  <-> 0 < fst point < fst (windowSize a)
      /\ 0 < snd point < snd (windowSize a).
Proof.
  intros Hw Hh Hx Hy. unfold checkPointOnIt.
  rewrite !andb_true_iff, !Z.ltb_lt.
  rewrite (to_unsigned_small (fst (windowSize a))) by assumption.
  rewrite (to_unsigned_small (snd (windowSize a))) by assumption.
  split.
  - intros (((H1 & H2) & H3) & H4).
    rewrite to_unsigned_small in H2 by lia.
    rewrite to_unsigned_small in H4 by lia. lia.
  - intros [H1 H2]. rewrite !to_unsigned_small by lia. lia.
Qed.

(** *** Properties of the layout *)

(** The size of a node does not depend on where it is placed. *)
Hypothesis getWidth_setPos :
  forall n x y, getWidth (setPos n x y) = getWidth n.
Hypothesis getHeight_setPos :
  forall n x y, getHeight (setPos n x y) = getHeight n.

(** Reading the fields of an act that [store] does not write. *)
Ltac fields :=
  cbn [fst snd store with_nodes rightUi topUi bottomUi contentMode
       contentLayer windowSize].

Lemma layout_blocks (a : Act) :
  layout a
  = (placeContent a (dockedBottom a), freeWidthAfter a, freeHeightAfter a).
Proof.
  unfold layout, placeContent, freeWidthAfter, freeHeightAfter, dockedBottom,
    dockedTop, dockedRight, dockedLeft, dock, windowWidth, windowHeight.
  destruct (leftUi a) as [l|]; fields;
    (destruct (rightUi a) as [r|]; fields);
    (destruct (topUi a) as [t|]; fields);
    (destruct (bottomUi a) as [b|]; fields);
    (destruct (Mode_eqb (contentMode a) STATIC));
    rewrite ?nodes_store_same; reflexivity.
Qed.

Lemma nodes_dock_other (slot : option ptr) (f : Node -> Node) (a : Act)
  (q : ptr) :
  slot <> Some q -> nodes (dock slot f a) q = nodes a q.
Proof.
  intros Hne. destruct slot as [p|]; unfold dock; [|reflexivity].
  apply nodes_store_other. congruence.
Qed.









Lemma nodes_placeContent_other (a d : Act) (q : ptr) :
  contentLayer a <> q -> nodes (placeContent a d) q = nodes d q.
Proof.
  intros Hne. unfold placeContent.
  destruct (Mode_eqb (contentMode a) STATIC);
    rewrite !nodes_store_other by congruence; reflexivity.
Qed.




(** The quotient of two [float]s by a divisor other than 0. *)
Hypothesis fdiv_quotient :
  forall x y : Q, ~ (y == 0)%Q -> (fdiv x y == x / y)%Q.


(** *** What the layout leaves alone *)

Lemma samePlacementApart_refl (n : Node) : samePlacementApart n n.
Proof. repeat split. Qed.

Lemma samePlacementApart_trans (n m k : Node) :
  samePlacementApart n m -> samePlacementApart m k -> samePlacementApart n k.
Proof.
  unfold samePlacementApart.
  intros (A1 & A2 & A3 & A4 & A5) (B1 & B2 & B3 & B4 & B5).
  repeat split; congruence.
Qed.

Lemma dock_samePlacementApart (slot : option ptr) (f : Node -> Node)
  (a : Act) (q : ptr) :
  (forall n, samePlacementApart (f n) n) ->
  samePlacementApart (nodes (dock slot f a) q) (nodes a q).
Proof.
  intros Hf. destruct slot as [p|]; unfold dock;
    [|apply samePlacementApart_refl].
  destruct (Nat.eq_dec q p) as [->|Hne].
  - rewrite nodes_store_same. apply Hf.
  - rewrite nodes_store_other by assumption. apply samePlacementApart_refl.
Qed.

Lemma dockedBottom_samePlacementApart (a : Act) (q : ptr) :
  samePlacementApart (nodes (dockedBottom a) q) (nodes a q).
Proof.
  unfold dockedBottom, dockedTop, dockedRight, dockedLeft.
  repeat (eapply samePlacementApart_trans;
          [apply dock_samePlacementApart; intros n; repeat split|]).
  apply samePlacementApart_refl.
Qed.

Lemma dockedBottom_elsewhere (a : Act) (q : ptr) :
  ~ In q (uiNodes a) -> nodes (dockedBottom a) q = nodes a q.
Proof.
  intros Hq.
  assert (Hslots : leftUi a <> Some q /\ rightUi a <> Some q
                   /\ topUi a <> Some q /\ bottomUi a <> Some q).
  { unfold uiNodes in Hq.
    destruct (leftUi a) as [l|], (rightUi a) as [r|], (topUi a) as [t|],
      (bottomUi a) as [b|]; simpl in Hq; repeat split;
      intros E; inversion E; subst; apply Hq; auto 10. }
  destruct Hslots as (NL & NR & NT & NB).
  unfold dockedBottom, dockedTop, dockedRight, dockedLeft.
  now rewrite !nodes_dock_other by assumption.
Qed.

(** X11.  Outside STATIC mode [setUpNodes] gives the content layer the
    global UI scale and nothing else: over the act as [resizeUi] left
    it, its position and its origin stay as they were. *)
Theorem movable_layout_rescales_content_only (a0 : Act) :
  contentMode (resizeUi a0) <> STATIC ->
  ~ In (contentLayer (resizeUi a0)) (uiNodes (resizeUi a0)) ->
  nodes (setUpNodes a0) (contentLayer (resizeUi a0))
  = setScale (nodes (resizeUi a0) (contentLayer (resizeUi a0)))
      (getK parameters)
  /\ position (nodes (setUpNodes a0) (contentLayer (resizeUi a0)))
     = position (nodes (resizeUi a0) (contentLayer (resizeUi a0)))
  /\ origin (nodes (setUpNodes a0) (contentLayer (resizeUi a0)))
     = origin (nodes (resizeUi a0) (contentLayer (resizeUi a0)))
  /\ scale (nodes (setUpNodes a0) (contentLayer (resizeUi a0)))
     = getK parameters.
Proof.
  intros Hmode Hd. unfold setUpNodes. rewrite layout_blocks. cbn [fst].
  unfold placeContent.
  destruct (contentMode (resizeUi a0)) eqn:Hm; [contradiction| |];
    cbn [Mode_eqb]; rewrite nodes_store_same,
      (dockedBottom_elsewhere _ _ Hd); repeat split.
Qed.

(** X12.  [setUpNodes] writes to the content layer and to the docked
    nodes only, and a docked node is only moved: over the act as
    [resizeUi] left it, a node in no slot is left as it was, and every
    node but the content layer keeps its origin, its scale, its bounds
    and its selectable flag. *)
Theorem layout_moves_docked_nodes_only (a0 : Act) (q : ptr) :
  q <> contentLayer (resizeUi a0) ->
  samePlacementApart (nodes (setUpNodes a0) q) (nodes (resizeUi a0) q)
  /\ (~ In q (uiNodes (resizeUi a0)) ->
      nodes (setUpNodes a0) q = nodes (resizeUi a0) q).
Proof.
  intros Hq. unfold setUpNodes. rewrite layout_blocks. cbn [fst].
  rewrite nodes_placeContent_other by congruence. split.
  - apply dockedBottom_samePlacementApart.
  - apply dockedBottom_elsewhere.
Qed.

End Operations.

(** C4 (as stated) fails: a drag from (0, 0) through (5, 0) and (10, 0)
    to (15, 0) has the cumulative Manhattan offset 15, and ends 15 away
    from its start, yet no move of it is longer than 5: the flag stays
    clear and the release calls the click hook of the selected node. *)
Lemma slow_drag_keeps_click :
  cumulativeOffset (0, 0) [(5, 0); (10, 0); (15, 0)] = 15
  /\ manhattan (0, 0) (15, 0) = 15
  /\ option_map isMouseMovedWithRightButton
       (mouseMoves overNode2 [(5, 0); (10, 0); (15, 0)]
          (onRightMouseButtonPressed (sampleAct MOVABLE_BY_MOUSE)))
     = Some false
  /\ option_map (fun a => trace (onRightMouseButtonReleased a))
       (mouseMoves overNode2 [(5, 0); (10, 0); (15, 0)]
          (onRightMouseButtonPressed (sampleAct MOVABLE_BY_MOUSE)))
     = Some [MouseEntered 2%nat; MouseMoved 2%nat (5, 0);
             MouseMoved 2%nat (10, 0); MouseMoved 2%nat (15, 0);
             RightMouseButtonReleased 2%nat].
Proof. repeat split; vm_compute; reflexivity. Qed.

Lemma drag_flag_set_by_single_move_witness :
  exists a',
    mouseMoves overNode2 [(5, 0); (30, 0)]
      (onRightMouseButtonPressed (sampleAct MOVABLE_BY_MOUSE)) = Some a'
    /\ isMouseMovedWithRightButton a' = true.
Proof.
  destruct (drag_flag_set_by_single_move overNode2
              (sampleAct MOVABLE_BY_MOUSE) [(5, 0); (30, 0)])
    as (a' & E & F & _).
  - reflexivity.
  - discriminate.
  - unfold inWindowRange; simpl; lia.
  - repeat constructor; simpl; lia.
  - exists a'. split; [exact E|]. rewrite F. reflexivity.
Defined.

(** C8 (as stated) fails: in STATIC mode a move to (5, 5) leaves the
    stored position at (0, 0). *)
Lemma static_move_not_recorded :
  option_map savedMousePosition
    (onMouseMoved overNode2 (5, 5) (sampleAct STATIC)) = Some (0, 0)
  /\ option_map savedMousePosition
       (onMouseMoved overNode2 (5, 5) (sampleAct STATIC)) <> Some (5, 5).
Proof. split; [reflexivity|discriminate]. Qed.

Lemma onMouseMoved_saves_position_when_movable_witness :
  exists a',
    onMouseMoved overNode2 (5, 5) (sampleAct MOVABLE_BY_MOUSE) = Some a'
    /\ savedMousePosition a' = (5, 5).
Proof.
  apply (onMouseMoved_saves_position_when_movable overNode2 (5, 5)
           (sampleAct MOVABLE_BY_MOUSE)).
  intros _ _. discriminate.
Defined.

Lemma negative_coordinate_skips_low_edge_witness :
  nearLowEdge sampleParameters (-1) = false.
Proof.
  apply (negative_coordinate_skips_low_edge keepUi (fun _ _ => (0, 0)%Q) 5
           sampleParameters (-1)); simpl; lia.
Defined.




Lemma onMouseMoved_hooks_witness :
  trace (forwardMove overNode2 (5, 5) (sampleAct STATIC))
  = [MouseEntered 2%nat; MouseMoved 2%nat (5, 5)].
Proof.
  exact (proj1 (proj2 (onMouseMoved_hooks overNode2 (5, 5) (sampleAct STATIC)
                         (forwardMove overNode2 (5, 5) (sampleAct STATIC))
                         eq_refl))).
Defined.

Lemma button_on_unselectable_drops_selection_witness :
  selectedNode (onLeftMouseButtonPressed (staleAct STATIC)) = None
  /\ trace (onLeftMouseButtonPressed (staleAct STATIC)) = [].
Proof.
  rewrite (proj1 (button_on_unselectable_drops_selection (staleAct STATIC)
                    2%nat eq_refl eq_refl)).
  split; reflexivity.
Defined.

Lemma drag_moves_content_with_pointer_witness :
  exists a',
    mouseMoves overNode2 [(5, 0); (30, 40); (3, 4)]
      (onRightMouseButtonPressed (sampleAct MOVABLE_BY_MOUSE)) = Some a'
    /\ (posX (nodes a' 3%nat) == 3)%Q /\ (posY (nodes a' 3%nat) == 4)%Q.
Proof.
  destruct (drag_moves_content_with_pointer overNode2
              (onRightMouseButtonPressed (sampleAct MOVABLE_BY_MOUSE))
              3%nat [(5, 0); (30, 40); (3, 4)] (0, 0))
    as ((a' & E & _ & [X Y] & _) & _).
  - reflexivity.
  - reflexivity.
  - reflexivity.
  - split; reflexivity.
  - split; simpl; lia.
  - split; simpl; lia.
  - repeat constructor; simpl; lia.
  - exists a'. split; [exact E|]. split; [rewrite X|rewrite Y]; reflexivity.
Defined.

Lemma right_click_outside_movable_mode_witness :
  exists a',
    mouseMoves overNode2 [(5, 0); (300, 0)]
      (onRightMouseButtonPressed (sampleAct STATIC)) = Some a'
    /\ isMouseMovedWithRightButton a' = false.
Proof.
  destruct (right_click_outside_movable_mode overNode2 (sampleAct STATIC)
              [(5, 0); (300, 0)])
    as (_ & a' & E & _ & _ & _ & F & _).
  - discriminate.
  - exists a'. split; [exact E|exact F].
Defined.

(** A drag on the sample act that has no content: the move has no
    defined result. *)
Example drag_without_content_is_undefined :
  onMouseMoved overNode2 (5, 5) emptyAct = None
  /\ contentMode emptyAct = MOVABLE_BY_MOUSE
  /\ isRightMouseButtonPressed emptyAct = true /\ content emptyAct = None.
Proof. repeat split. Qed.

Lemma update_scrolls_by_zone_witness :
  exists a',
    update keepUi (fun _ _ => (0, 0)%Q) 5 sampleParameters
      (sampleAct MOVABLE_BY_MOUSE) = Some a'
    /\ nodes a' 0%nat = move (sampleNodes 0%nat) (inject_Z 5) (inject_Z 5).
Proof.
  destruct (update_scrolls_by_zone keepUi (fun _ _ => (0, 0)%Q) 5
              sampleParameters (sampleAct MOVABLE_BY_MOUSE))
    as (a' & E & N & _); simpl; try lia; try reflexivity.
  exists a'. split; [exact E|exact N].
Defined.

Lemma checkPointOnIt_strictly_inside_witness :
  checkPointOnIt (sampleAct STATIC) (5, 5) = true.
Proof.
  apply (checkPointOnIt_strictly_inside (sampleAct STATIC) (5, 5));
    simpl; lia.
Defined.

Lemma movable_layout_rescales_content_only_witness :
  nodes (setUpNodes keepUi ownWidth ownHeight halfWidth halfHeight
           sampleParameters Qdiv (sampleAct MOVABLE_BY_MOUSE)) 0%nat
  = setScale (sampleNodes 0%nat) 1.
Proof.
  apply (movable_layout_rescales_content_only keepUi ownWidth ownHeight
           halfWidth halfHeight sampleParameters Qdiv
           (sampleAct MOVABLE_BY_MOUSE)).
  - discriminate.
  - simpl. intros [E|[]]. discriminate E.
Defined.

Lemma layout_moves_docked_nodes_only_witness :
  samePlacementApart
    (nodes (setUpNodes keepUi ownWidth ownHeight halfWidth halfHeight
              sampleParameters Qdiv (sampleAct STATIC)) 1%nat)
    (sampleNodes 1%nat).
Proof.
  apply (layout_moves_docked_nodes_only keepUi ownWidth ownHeight
           halfWidth halfHeight sampleParameters Qdiv (sampleAct STATIC) 1%nat).
  discriminate.
Defined.

End Act.

(** ** AbstractNode: the scene graph *)

Module Node.

Definition ptr := nat.
Definition Vector2i := (Z * Z)%type.

(** [sf::FloatRect]. *)
Record FloatRect := {
  left : Q;
  top : Q;
  width : Q;
  height : Q
}.

(** What a node reads from its [sf::Window]. *)
Record Window := {
  hasFocus : bool;
  getSize : Z * Z
}.

(** The hooks that the selection fires on a node. *)
Inductive Hook :=
| MouseEntered (n : ptr)
| MouseLeft (n : ptr).

Definition ptr_eqb (p q : option ptr) : bool :=
  match p, q with
  | Some x, Some y => Nat.eqb x y
  | None, None => true
  | _, _ => false
  end.

(** The tests of [checkMouseOnIt] on the window and on the rectangle. *)
Definition insideWindow (window : Window) (mousePosition : Vector2i) : bool :=
  hasFocus window
  && (0 <? fst mousePosition)
  && (fst mousePosition <? to_int (fst (getSize window)))
  && (0 <? snd mousePosition)
  && (snd mousePosition <? to_int (snd (getSize window))).

Definition insideRect (combinedRect : FloatRect) (mousePosition : Vector2i)
  : bool :=
  Qltb (left combinedRect) (inject_Z (fst mousePosition))
  && Qltb (inject_Z (fst mousePosition))
          (left combinedRect + width combinedRect)%Q
  && Qltb (top combinedRect) (inject_Z (snd mousePosition))
  && Qltb (inject_Z (snd mousePosition))
          (top combinedRect + height combinedRect)%Q.

(** The pointer is strictly inside the rectangle. *)
Definition strictlyInside (r : FloatRect) (p : Vector2i) : Prop :=
  (left r < inject_Z (fst p))%Q
  /\ (inject_Z (fst p) < left r + width r)%Q
  /\ (top r < inject_Z (snd p))%Q
  /\ (inject_Z (snd p) < top r + height r)%Q.

(** The rectangle has an extent along both axes. *)
Definition hasExtent (r : FloatRect) : Prop :=
  (0 < width r)%Q /\ (0 < height r)%Q.

(** The button hooks that a node passes on to its selected child. *)
Inductive Click :=
| LeftMouseButtonPressed (n : ptr)
| LeftMouseButtonReleased (n : ptr)
| RightMouseButtonReleased (n : ptr).

(** The nodes whose enter hook is among [events], in order. *)
Definition entered (events : list Hook) : list ptr :=
  flat_map
    (fun e => match e with MouseEntered c => [c] | MouseLeft _ => [] end)
    events.

(** [AbstractNode::getRotation], from the rotation in degrees of the
    [sf::Transformable] and the constant [ce::MATH_PI]. *)
Definition getRotation (MATH_PI degrees : Q) : Q :=
  let rotation := (degrees * MATH_PI / 180)%Q in
  if Qltb MATH_PI rotation then (rotation - MATH_PI * 2)%Q else rotation.

Section Tree.

(** [sf::Transform], its product and its action on rectangles. *)
Variable Transform : Type.
Variable compose : Transform -> Transform -> Transform.
Variable transformRect : Transform -> FloatRect -> FloatRect.

(** The dynamic type of a node, for the methods that the act overrides:
    [getWindow] and [getCombinedTransform]. *)
Inductive Kind :=
| Plain
| ActRoot (window : Window) (mockTransform : Transform).

Record AbstractNode := {
  kind : Kind;
  alive : bool;                   (* false once deleted *)
  parent : option ptr;
  children : list ptr;
  selectedChild : option ptr;
  isSelectable : bool;
  isTransformed : bool;
  combinedTransform : Transform;
  transform : Transform;          (* getTransformable().getTransform() *)
  rect : FloatRect                (* getRect() *)
}.

(** The heap of nodes. *)
Definition Heap := ptr -> AbstractNode.

Definition upd (h : Heap) (p : ptr) (n : AbstractNode) : Heap :=
  fun q => if Nat.eqb q p then n else h q.

Definition with_alive (n : AbstractNode) (v : bool) : AbstractNode :=
  {| kind := kind n; alive := v; parent := parent n;
     children := children n; selectedChild := selectedChild n;
     isSelectable := isSelectable n; isTransformed := isTransformed n;
     combinedTransform := combinedTransform n; transform := transform n;
     rect := rect n |}.

Definition with_parent (n : AbstractNode) (v : option ptr) : AbstractNode :=
  {| kind := kind n; alive := alive n; parent := v;
     children := children n; selectedChild := selectedChild n;
     isSelectable := isSelectable n; isTransformed := isTransformed n;
     combinedTransform := combinedTransform n; transform := transform n;
     rect := rect n |}.

Definition with_children (n : AbstractNode) (v : list ptr) : AbstractNode :=
  {| kind := kind n; alive := alive n; parent := parent n;
     children := v; selectedChild := selectedChild n;
     isSelectable := isSelectable n; isTransformed := isTransformed n;
     combinedTransform := combinedTransform n; transform := transform n;
     rect := rect n |}.

Definition with_selectedChild (n : AbstractNode) (v : option ptr)
  : AbstractNode :=
  {| kind := kind n; alive := alive n; parent := parent n;
     children := children n; selectedChild := v;
     isSelectable := isSelectable n; isTransformed := isTransformed n;
     combinedTransform := combinedTransform n; transform := transform n;
     rect := rect n |}.

Definition with_isSelectable (n : AbstractNode) (v : bool) : AbstractNode :=
  {| kind := kind n; alive := alive n; parent := parent n;
     children := children n; selectedChild := selectedChild n;
     isSelectable := v; isTransformed := isTransformed n;
     combinedTransform := combinedTransform n; transform := transform n;
     rect := rect n |}.

Definition with_isTransformed (n : AbstractNode) (v : bool) : AbstractNode :=
  {| kind := kind n; alive := alive n; parent := parent n;
     children := children n; selectedChild := selectedChild n;
     isSelectable := isSelectable n; isTransformed := v;
     combinedTransform := combinedTransform n; transform := transform n;
     rect := rect n |}.

Definition with_combinedTransform (n : AbstractNode) (v : Transform)
  : AbstractNode :=
  {| kind := kind n; alive := alive n; parent := parent n;
     children := children n; selectedChild := selectedChild n;
     isSelectable := isSelectable n; isTransformed := isTransformed n;
     combinedTransform := v; transform := transform n; rect := rect n |}.

Definition with_transform (n : AbstractNode) (v : Transform) : AbstractNode :=
  {| kind := kind n; alive := alive n; parent := parent n;
     children := children n; selectedChild := selectedChild n;
     isSelectable := isSelectable n; isTransformed := isTransformed n;
     combinedTransform := combinedTransform n; transform := v;
     rect := rect n |}.

(** *** Transforms *)

(** [AbstractNode::getCombinedTransform], and [Act::getCombinedTransform]
    for the act.  The fuel bounds the walk up the parents. *)
Fixpoint getCombinedTransform (fuel : nat) (h : Heap) (this : ptr)
  : option (Heap * Transform) :=
  match fuel with
  | O => None
  | S fuel =>
      match kind (h this) with
      | ActRoot _ mockTransform => Some (h, mockTransform)
      | Plain =>
          if isTransformed (h this) then
            let h := upd h this (with_isTransformed (h this) false) in
            match parent (h this) with
            | Some p =>
                match getCombinedTransform fuel h p with
                | Some (h, t) =>
                    let c := compose t (transform (h this)) in
                    Some (upd h this (with_combinedTransform (h this) c), c)
                | None => None
                end
            | None =>
                let c := transform (h this) in
                Some (upd h this (with_combinedTransform (h this) c), c)
            end
          else Some (h, combinedTransform (h this))
      end
  end.

(** A loop over a list of nodes, threading the heap. *)
Fixpoint forEach (f : Heap -> ptr -> option Heap) (l : list ptr) (h : Heap)
  : option Heap :=
  match l with
  | [] => Some h
  | c :: rest =>
      match f h c with
      | Some h => forEach f rest h
      | None => None
      end
  end.

(** [AbstractNode::makeTransformed].  The fuel bounds the depth. *)
Fixpoint makeTransformed (fuel : nat) (h : Heap) (this : ptr)
  : option Heap :=
  match fuel with
  | O => None
  | S fuel =>
      let h := upd h this (with_isTransformed (h this) true) in
      forEach (makeTransformed fuel) (children (h this)) h
  end.

(** Modelled from the spec: the setters of the transformable nodes are
    not part of the sources at hand; they change the local transform of
    the node, and [makeTransformed] is called whenever it changes. *)
Definition setTransform (h : Heap) (this : ptr) (t : Transform) : Heap :=
  upd h this (with_transform (h this) t).

(** [AbstractNode::setParent]. *)
Definition setParent (fuel : nat) (h : Heap) (this : ptr)
  (value : option ptr) : option Heap :=
  match makeTransformed fuel h this with
  | Some h => Some (upd h this (with_parent (h this) value))
  | None => None
  end.

(** [AbstractNode::addChild]. *)
Definition addChild (fuel : nat) (h : Heap) (this child : ptr)
  : option Heap :=
  match setParent fuel h child (Some this) with
  | Some h =>
      Some (upd h this (with_children (h this) (children (h this) ++ [child])))
  | None => None
  end.

(** [AbstractNode::getWindow], and [Act::getWindow] for the act.
    [None]: out of fuel, or a null parent is dereferenced. *)
Fixpoint getWindow (fuel : nat) (h : Heap) (this : ptr) : option Window :=
  match fuel with
  | O => None
  | S fuel =>
      match kind (h this) with
      | ActRoot window _ => Some window
      | Plain =>
          match parent (h this) with
          | Some p => getWindow fuel h p
          | None => None
          end
      end
  end.

(** *** Removal *)

(** [delete child]: the destructor deletes the children first. *)
Fixpoint destroy (fuel : nat) (h : Heap) (this : ptr) : option Heap :=
  match fuel with
  | O => None
  | S fuel =>
      match forEach (destroy fuel) (children (h this)) h with
      | Some h => Some (upd h this (with_alive (h this) false))
      | None => None
      end
  end.

(** What [removeChild] and [removeChildren] do to a child they remove. *)
Definition release (fuel : nat) (toDelete : bool) (h : Heap) (child : ptr)
  : option Heap :=
  if toDelete then destroy fuel h child else setParent fuel h child None.

(** [std::find] followed by [erase]: the list without the first
    occurrence of [child]. *)
Fixpoint eraseFirst (child : ptr) (l : list ptr) : list ptr :=
  match l with
  | [] => []
  | c :: rest => if Nat.eqb c child then rest else c :: eraseFirst child rest
  end.

(** [AbstractNode::removeChild]. *)
Definition removeChild (fuel : nat) (h : Heap) (this child : ptr)
  (toDelete : bool) : option Heap :=
  if existsb (Nat.eqb child) (children (h this)) then
    match release fuel toDelete h child with
    | Some h =>
        Some (upd h this
                (with_children (h this) (eraseFirst child (children (h this)))))
    | None => None
    end
  else Some h.

(** The index that the iterator [end] of [removeChildren] stands at. *)
Definition endIndex (size lastIndex : Z) : Z :=
  if (lastIndex =? -1) || (size <? lastIndex) then size else lastIndex.

(** [AbstractNode::removeChildren], with [firstIndex] an [unsigned long]
    and [lastIndex] a [long].  [None]: out of fuel, or the iterators
    [begin] and [end] are not a valid range of the vector (one of them is
    outside it, or [begin] is after [end]), which is undefined behaviour
    in [std::for_each] and [erase]. *)
Definition removeChildren (fuel : nat) (h : Heap) (this : ptr)
  (toDelete : bool) (firstIndex lastIndex : Z) : option Heap :=
  let size := Z.of_nat (length (children (h this))) in
  let last := endIndex size lastIndex in
  if (0 <=? firstIndex) && (firstIndex <=? last) then
    let removed :=
      firstn (Z.to_nat (last - firstIndex))
        (skipn (Z.to_nat firstIndex) (children (h this))) in
    match forEach (release fuel toDelete) removed h with
    | Some h =>
        Some (upd h this
                (with_children (h this)
                   (firstn (Z.to_nat firstIndex) (children (h this))
                    ++ skipn (Z.to_nat last) (children (h this)))))
    | None => None
    end
  else None.

(** *** Selection *)

(** [AbstractNode::checkChildSelected]. *)
Definition checkChildSelected (h : Heap) (this child : ptr) : bool :=
  ptr_eqb (selectedChild (h this)) (Some child).

(** [AbstractNode::deselectChild], with [AbstractNode::onMouseLeft] of the
    selected child.  The events are those fired, oldest first. *)
Fixpoint deselectChild (fuel : nat) (h : Heap) (this : ptr)
  : option (Heap * list Hook) :=
  match fuel with
  | O => None
  | S fuel =>
      match selectedChild (h this) with
      | Some c =>
          match deselectChild fuel h c with
          | Some (h, events) =>
              Some (upd h this (with_selectedChild (h this) None),
                    MouseLeft c :: events)
          | None => None
          end
      | None => Some (h, [])
      end
  end.

(** [AbstractNode::onMouseLeft], called as a hook on [this]. *)
Definition onMouseLeft (fuel : nat) (h : Heap) (this : ptr)
  : option (Heap * list Hook) :=
  match deselectChild fuel h this with
  | Some (h, events) => Some (h, MouseLeft this :: events)
  | None => None
  end.

(** [AbstractNode::checkMouseOnIt]. *)
Definition checkMouseOnIt (fuel : nat) (h : Heap) (this : ptr)
  (mousePosition : Vector2i) : option (Heap * bool) :=
  match getWindow fuel h this with
  | Some window =>
      match parent (h this) with
      | Some p =>
          match getCombinedTransform fuel h p with
          | Some (h', t) =>
              Some (h', insideWindow window mousePosition
                        && insideRect (transformRect t (rect (h this)))
                             mousePosition)
          | None => None
          end
      | None =>
          Some (h, insideWindow window mousePosition
                   && insideRect (rect (h this)) mousePosition)
      end
  | None => None
  end.

(** [std::find_if] with the predicate of [getSelectedChild], over the
    children in the order they are visited. *)
Fixpoint findHit (fuel : nat) (h : Heap) (visited : list ptr)
  (mousePosition : Vector2i) : option (Heap * option ptr) :=
  match visited with
  | [] => Some (h, None)
  | child :: rest =>
      if isSelectable (h child) then
        match checkMouseOnIt fuel h child mousePosition with
        | Some (h, true) => Some (h, Some child)
        | Some (h, false) => findHit fuel h rest mousePosition
        | None => None
        end
      else findHit fuel h rest mousePosition
  end.

(** [AbstractNode::getSelectedChild]: from [rbegin] to [rend]. *)
Definition getSelectedChild (fuel : nat) (h : Heap) (this : ptr)
  (mousePosition : Vector2i) : option (Heap * option ptr) :=
  findHit fuel h (rev (children (h this))) mousePosition.

(** The middle block of [select]: the hit test of a selectable node. *)
Definition hitTest (fuel : nat) (h : Heap) (this : ptr)
  (mousePosition : Vector2i) : option (Heap * list Hook) :=
  if isSelectable (h this) then
    match getSelectedChild fuel h this mousePosition with
    | Some (h, found) =>
        Some (upd h this (with_selectedChild (h this) found),
              match found with
              | Some c => [MouseEntered c]
              | None => []
              end)
    | None => None
    end
  else Some (h, []).

(** [AbstractNode::select]. *)
Fixpoint select (fuel : nat) (h : Heap) (this : ptr)
  (mousePosition : Vector2i) : option (Heap * list Hook) :=
  match fuel with
  | O => None
  | S fuel =>
      match deselectChild fuel h this with
      | Some (h, left) =>
          match hitTest fuel h this mousePosition with
          | Some (h, entered) =>
              match selectedChild (h this) with
              | Some c =>
                  match select fuel h c mousePosition with
                  | Some (h, below) => Some (h, left ++ entered ++ below)
                  | None => None
                  end
              | None => Some (h, left ++ entered)
              end
          | None => None
          end
      | None => None
      end
  end.

(** [AbstractNode::setSelectable].  [None]: out of fuel, or a null
    [parent] is dereferenced. *)
Definition setSelectable (fuel : nat) (h : Heap) (this : ptr) (value : bool)
  : option (Heap * list Hook) :=
  if negb (Bool.eqb (isSelectable (h this)) value) then
    let h := upd h this (with_isSelectable (h this) value) in
    if isSelectable (h this) then
      match parent (h this) with
      | Some p =>
          if checkChildSelected h p this then Some (h, [MouseEntered this])
          else onMouseLeft fuel h this
      | None => None
      end
    else onMouseLeft fuel h this
  else Some (h, []).

(** [AbstractNode::removeFromParent].  [None] also when the null
    [parent] is dereferenced. *)
Definition removeFromParent (fuel : nat) (h : Heap) (this : ptr)
  (toDelete : bool) : option Heap :=
  match parent (h this) with
  | Some p => removeChild fuel h p this toDelete
  | None => None
  end.


(** *** Clicks and updates *)

(** The body that [AbstractNode::onLeftMouseButtonPressed],
    [onLeftMouseButtonReleased] and [onRightMouseButtonReleased] share:
    the hook [hook] of the selected child, when there is one and it is
    selectable, which in the base class passes the click further down.
    The result lists the hooks called, oldest first. *)
Fixpoint passDown (hook : ptr -> Click) (fuel : nat) (h : Heap) (this : ptr)
  : option (list Click) :=
  match fuel with
  | O => None
  | S fuel =>
      match selectedChild (h this) with
      | Some c =>
          if isSelectable (h c) then
            match passDown hook fuel h c with
            | Some clicks => Some (hook c :: clicks)
            | None => None
            end
          else Some []
      | None => Some []
      end
  end.

(** [AbstractNode::onLeftMouseButtonPressed]. *)
Definition onLeftMouseButtonPressed
  : nat -> Heap -> ptr -> option (list Click) :=
  passDown LeftMouseButtonPressed.

(** [AbstractNode::onLeftMouseButtonReleased]. *)
Definition onLeftMouseButtonReleased
  : nat -> Heap -> ptr -> option (list Click) :=
  passDown LeftMouseButtonReleased.

(** [AbstractNode::onRightMouseButtonReleased]. *)
Definition onRightMouseButtonReleased
  : nat -> Heap -> ptr -> option (list Click) :=
  passDown RightMouseButtonReleased.

(** A loop over a list of nodes that collects what each call reports. *)
Fixpoint collect (f : ptr -> option (list ptr)) (l : list ptr)
  : option (list ptr) :=
  match l with
  | [] => Some []
  | c :: rest =>
      match f c, collect f rest with
      | Some first, Some others => Some (first ++ others)
      | _, _ => None
      end
  end.

(** [AbstractNode::update]: the nodes whose [onUpdated] is called, in the
    order of the calls.  The flag [isUpdatable] of a node, which no
    method changes, is read from [updatable]. *)
Fixpoint update (updatable : ptr -> bool) (fuel : nat) (h : Heap) (this : ptr)
  : option (list ptr) :=
  match fuel with
  | O => None
  | S fuel =>
      if updatable this then
        match collect (update updatable fuel h) (children (h this)) with
        | Some below => Some (below ++ [this])
        | None => None
        end
      else Some []
  end.

(** *** The shape of the tree *)

(** A level for every node, smaller at the parent, and its bound. *)
Variable lvl : ptr -> nat.
Variable height : nat.

(** The nodes form a forest: the parent of a node is above it and lists
    it among its children, the children of a node have it as parent, and
    a selected child is a child. *)
Record WellFormed (h : Heap) : Prop := {
  wf_parent : forall n p, parent (h n) = Some p -> (lvl p < lvl n)%nat;
  wf_child : forall n c, In c (children (h n)) -> parent (h c) = Some n;
  wf_listed : forall n p, parent (h n) = Some p -> In n (children (h p));
  wf_selected :
    forall n c, selectedChild (h n) = Some c -> In c (children (h n));
  wf_height : forall n, (lvl n <= height)%nat
}.

(** [a] is [m] or an ancestor of [m]. *)
Inductive Anc (h : Heap) (a : ptr) : ptr -> Prop :=
| Anc_self : Anc h a a
| Anc_parent m p : parent (h m) = Some p -> Anc h a p -> Anc h a m.

(** The node hangs below an act, whose window is [w]. *)
Inductive Attached (h : Heap) : ptr -> Window -> Prop :=
| Attached_act n w t : kind (h n) = ActRoot w t -> Attached h n w
| Attached_child n p w :
    kind (h n) = Plain -> parent (h n) = Some p -> Attached h p w ->
    Attached h n w.

(** The combined transform that a node should report: the transforms of
    its ancestors and its own, composed from the root down. *)
Inductive World (h : Heap) : ptr -> Transform -> Prop :=
| World_act n w t : kind (h n) = ActRoot w t -> World h n t
| World_root n :
    kind (h n) = Plain -> parent (h n) = None ->
    World h n (transform (h n))
| World_child n p t :
    kind (h n) = Plain -> parent (h n) = Some p -> World h p t ->
    World h n (compose t (transform (h n))).

(** The cache of a node is valid: when the flag is clear, the cached
    transform is the one the node should report. *)
Definition validAt (h : Heap) (n : ptr) : Prop :=
  kind (h n) = Plain -> isTransformed (h n) = false ->
  World h n (combinedTransform (h n)).

Definition CacheValid (h : Heap) : Prop := forall n, validAt h n.

(** Two nodes that differ at most in the selection and in the cache. *)
Definition sameNode (x y : AbstractNode) : Prop :=
  kind x = kind y /\ alive x = alive y /\ parent x = parent y
  /\ children x = children y /\ isSelectable x = isSelectable y
  /\ transform x = transform y /\ rect x = rect y.

Definition SameTree (h h' : Heap) : Prop := forall n, sameNode (h n) (h' n).

(** Two heaps with the same caches. *)
Definition SameCache (h h' : Heap) : Prop :=
  forall n, isTransformed (h' n) = isTransformed (h n)
            /\ combinedTransform (h' n) = combinedTransform (h n).

(** Two heaps with the same selection. *)
Definition SameSelection (h h' : Heap) : Prop :=
  forall n, selectedChild (h' n) = selectedChild (h n).

(** The parent of a node is above it: what the walks up the parents need
    to end. *)
Definition ParentsAbove (h : Heap) : Prop :=
  forall m p, parent (h m) = Some p -> (lvl p < lvl m)%nat.

(** [h'] is [h] with the dirty flag set on some more nodes. *)
Definition Marked (h h' : Heap) : Prop :=
  forall m, h' m = h m \/ h' m = with_isTransformed (h m) true.

(** Two heaps with the same parents, children and selection. *)
Definition SameLinks (h h' : Heap) : Prop :=
  forall n, parent (h' n) = parent (h n)
            /\ children (h' n) = children (h n)
            /\ selectedChild (h' n) = selectedChild (h n).

(** [h'] is [h] with the selection cleared on some nodes. *)
Definition Deselected (h h' : Heap) : Prop :=
  forall m, h' m = h m \/ h' m = with_selectedChild (h m) None.

(** The hook is a leave hook. *)
Definition isLeave (e : Hook) : Prop := exists c, e = MouseLeft c.

(** Only a root is an act: an act is never the child of a node. *)
Definition ActsAreRoots (h : Heap) : Prop :=
  forall m p, parent (h m) = Some p -> kind (h m) = Plain.

(** The predicate of [getSelectedChild] on a child, with the window [w]
    of the tree and the combined transform [t] of the parent. *)
Definition hits (h : Heap) (w : Window) (t : Transform)
  (mousePosition : Vector2i) (c : ptr) : bool :=
  isSelectable (h c)
  && (insideWindow w mousePosition
      && insideRect (transformRect t (rect (h c))) mousePosition).

(** Two heaps with the same lists of children. *)
Definition SameChildren (h h' : Heap) : Prop :=
  forall m, children (h' m) = children (h m).

(** Children are below their parent: what the loops over the children
    need to end. *)
Definition ChildrenBelow (h : Heap) : Prop :=
  (forall n c, In c (children (h n)) -> (lvl n < lvl c)%nat)
  /\ (forall n, (lvl n <= height)%nat).

(** The selected child of [n], the selected child of that child, and so
    on down to a node without a selected child. *)
Inductive SelectionPath (h : Heap) : ptr -> list ptr -> Prop :=
| SelectionPath_end n : selectedChild (h n) = None -> SelectionPath h n []
| SelectionPath_step n c path :
    selectedChild (h n) = Some c -> SelectionPath h c path ->
    SelectionPath h n (c :: path).

(** [m] is reached from [n] through updatable nodes only, both ends
    included. *)
Inductive Updated (updatable : ptr -> bool) (h : Heap) : ptr -> ptr -> Prop :=
| Updated_self n : updatable n = true -> Updated updatable h n n
| Updated_below n c m :
    updatable n = true -> In c (children (h n)) ->
    Updated updatable h c m -> Updated updatable h n m.

(** The node hangs below no act: the walk up its parents ends at a plain
    node without a parent. *)
Inductive Detached (h : Heap) : ptr -> Prop :=
| Detached_root n : kind (h n) = Plain -> parent (h n) = None -> Detached h n
| Detached_child n p :
    kind (h n) = Plain -> parent (h n) = Some p -> Detached h p ->
    Detached h n.

(** [h'] is [h] with some more nodes deleted. *)
Definition Killed (h h' : Heap) : Prop :=
  forall m, h' m = h m \/ h' m = with_alive (h m) false.

(** The dirty flags that are set in [h] are set in [h']. *)
Definition FlagsKept (h h' : Heap) : Prop :=
  forall m, isTransformed (h m) = true -> isTransformed (h' m) = true.

(** The children that [removeChildren] removes. *)
Definition removedRange (h : Heap) (this : ptr) (firstIndex lastIndex : Z)
  : list ptr :=
  let last := endIndex (Z.of_nat (length (children (h this)))) lastIndex in
  firstn (Z.to_nat (last - firstIndex))
    (skipn (Z.to_nat firstIndex) (children (h this))).

(** Two nodes that differ at most in their parent, their children and
    their dirty flag. *)
Definition sameApartFromLinks (x y : AbstractNode) : Prop :=
  kind x = kind y /\ alive x = alive y
  /\ selectedChild x = selectedChild y /\ isSelectable x = isSelectable y
  /\ combinedTransform x = combinedTransform y
  /\ transform x = transform y /\ rect x = rect y.

(** Splitting the conjunctions of a goal, and nothing else. *)
Ltac splits := repeat match goal with |- _ /\ _ => split end.

(** *** Heaps *)

Lemma upd_same (h : Heap) (p : ptr) (x : AbstractNode) : upd h p x p = x.
Proof. unfold upd. now rewrite Nat.eqb_refl. Qed.

Lemma upd_other (h : Heap) (p q : ptr) (x : AbstractNode) :
  q <> p -> upd h p x q = h q.
Proof.
  intros Hne. unfold upd.
  destruct (Nat.eqb_spec q p); [contradiction|reflexivity].
Qed.

Lemma sameNode_refl (x : AbstractNode) : sameNode x x.
Proof. repeat split. Qed.

Lemma sameNode_trans (x y z : AbstractNode) :
  sameNode x y -> sameNode y z -> sameNode x z.
Proof.
  unfold sameNode. intros (A1 & A2 & A3 & A4 & A5 & A6 & A7)
    (B1 & B2 & B3 & B4 & B5 & B6 & B7).
  repeat split; congruence.
Qed.

Lemma SameTree_refl (h : Heap) : SameTree h h.
Proof. intros n. apply sameNode_refl. Qed.

Lemma SameTree_trans (h1 h2 h3 : Heap) :
  SameTree h1 h2 -> SameTree h2 h3 -> SameTree h1 h3.
Proof. intros A B n. eapply sameNode_trans; [apply A|apply B]. Qed.

Lemma SameTree_upd (h : Heap) (p : ptr) (x : AbstractNode) :
  sameNode (h p) x -> SameTree h (upd h p x).
Proof.
  intros Hx n. unfold upd.
  destruct (Nat.eqb_spec n p) as [->|]; [exact Hx|apply sameNode_refl].
Qed.

Lemma SameSelection_refl (h : Heap) : SameSelection h h.
Proof. intros n. reflexivity. Qed.

Lemma SameSelection_trans (h1 h2 h3 : Heap) :
  SameSelection h1 h2 -> SameSelection h2 h3 -> SameSelection h1 h3.
Proof. intros A B n. now rewrite B, A. Qed.

Lemma SameSelection_upd (h : Heap) (p : ptr) (x : AbstractNode) :
  selectedChild x = selectedChild (h p) -> SameSelection h (upd h p x).
Proof.
  intros Hx n. unfold upd.
  destruct (Nat.eqb_spec n p) as [->|]; [exact Hx|reflexivity].
Qed.

Lemma SameCache_refl (h : Heap) : SameCache h h.
Proof. intros n. split; reflexivity. Qed.

Lemma SameCache_trans (h1 h2 h3 : Heap) :
  SameCache h1 h2 -> SameCache h2 h3 -> SameCache h1 h3.
Proof.
  intros A B n. destruct (A n) as [A1 A2], (B n) as [B1 B2].
  split; congruence.
Qed.

Lemma SameCache_upd (h : Heap) (p : ptr) (x : AbstractNode) :
  isTransformed x = isTransformed (h p) ->
  combinedTransform x = combinedTransform (h p) ->
  SameCache h (upd h p x).
Proof.
  intros H1 H2 n. unfold upd.
  destruct (Nat.eqb_spec n p) as [->|]; split; auto.
Qed.

(** The shape of the tree is read from fields that [SameTree] keeps. *)
Lemma World_SameTree (h h' : Heap) (n : ptr) (t : Transform) :
  SameTree h h' -> World h n t -> World h' n t.
Proof.
  intros Hs Hw. induction Hw as [n w t Hk|n Hk Hp|n p t Hk Hp Hw IH].
  - destruct (Hs n) as (K & _). eapply World_act. rewrite <- K. exact Hk.
  - destruct (Hs n) as (K & _ & P & _ & _ & T & _).
    rewrite T. apply World_root; congruence.
  - destruct (Hs n) as (K & _ & P & _ & _ & T & _).
    rewrite T. eapply World_child; try eassumption; congruence.
Qed.

Lemma World_functional (h : Heap) (n : ptr) (t1 t2 : Transform) :
  World h n t1 -> World h n t2 -> t1 = t2.
Proof.
  intros H1. revert t2.
  induction H1 as [n w t Hk|n Hk Hp|n p t Hk Hp Hw IH]; intros t2 H2;
    inversion H2; subst; try congruence.
  assert (p0 = p) by congruence. subst.
  f_equal. now apply IH.
Qed.

Lemma Attached_SameTree (h h' : Heap) (n : ptr) (w : Window) :
  SameTree h h' -> Attached h n w -> Attached h' n w.
Proof.
  intros Hs Ha. induction Ha as [n w t Hk|n p w Hk Hp Ha IH].
  - destruct (Hs n) as (K & _). eapply Attached_act. rewrite <- K.
    exact Hk.
  - destruct (Hs n) as (K & _ & P & _).
    eapply Attached_child; try eassumption; congruence.
Qed.

Lemma WellFormed_SameTree (h h' : Heap) :
  SameTree h h' -> WellFormed h ->
  (forall n c, selectedChild (h' n) = Some c -> In c (children (h' n))) ->
  WellFormed h'.
Proof.
  intros Hs [W1 W2 W3 W4 W5] Hsel. split; auto.
  - intros n p Hp. destruct (Hs n) as (_ & _ & P & _).
    apply W1. congruence.
  - intros n c Hc. destruct (Hs n) as (_ & _ & _ & C & _).
    destruct (Hs c) as (_ & _ & P & _). rewrite <- P. apply W2.
    now rewrite C.
  - intros n p Hp. destruct (Hs n) as (_ & _ & P & _).
    destruct (Hs p) as (_ & _ & _ & C & _). rewrite <- C. apply W3.
    congruence.
Qed.

(** *** The transform cache *)

Lemma ParentsAbove_SameTree (h h' : Heap) :
  SameTree h h' -> ParentsAbove h -> ParentsAbove h'.
Proof.
  intros Hs Hp m p E. destruct (Hs m) as (_ & _ & P & _).
  apply Hp. congruence.
Qed.

Lemma validAt_transfer (h h' : Heap) (m : ptr) :
  SameTree h h' ->
  isTransformed (h' m) = isTransformed (h m) ->
  combinedTransform (h' m) = combinedTransform (h m) ->
  validAt h m -> validAt h' m.
Proof.
  intros Hs Hf Hc Hv Hk Hclean. destruct (Hs m) as (K & _).
  rewrite Hc. apply World_SameTree with (h := h); [exact Hs|].
  apply Hv; congruence.
Qed.

Lemma getCombinedTransform_spec (fuel : nat) :
  forall h n,
    ParentsAbove h -> (lvl n < fuel)%nat ->
    (forall m, (lvl m <= lvl n)%nat -> validAt h m) ->
    exists h' t,
      getCombinedTransform fuel h n = Some (h', t)
      /\ World h n t
      /\ SameTree h h' /\ SameSelection h h'
      /\ (forall m, (lvl m <= lvl n)%nat -> validAt h' m)
      /\ (forall m, (lvl n < lvl m)%nat -> h' m = h m)
      /\ (kind (h n) = Plain ->
          isTransformed (h' n) = false /\ combinedTransform (h' n) = t)
      /\ getCombinedTransform fuel h' n = Some (h', t).
Proof.
  induction fuel as [|fuel IH]; intros h n Hpar Hfuel Hvalid; [lia|].
  cbn [getCombinedTransform].
  destruct (kind (h n)) as [|w mock] eqn:Hk.
  2:{ exists h, mock. rewrite Hk.
      splits; auto using SameTree_refl, SameSelection_refl;
        try (intros; discriminate).
      eapply World_act; eassumption. }
  destruct (isTransformed (h n)) eqn:Hdirty.
  2:{ exists h, (combinedTransform (h n)). rewrite Hk, Hdirty.
      splits; auto using SameTree_refl, SameSelection_refl.
      apply Hvalid; auto. }
  set (h1 := upd h n (with_isTransformed (h n) false)).
  assert (S1 : SameTree h h1).
  { apply SameTree_upd. repeat split. }
  assert (Hn1 : h1 n = with_isTransformed (h n) false) by apply upd_same.
  rewrite Hn1. cbn [parent with_isTransformed].
  destruct (parent (h n)) as [p|] eqn:Hp.
  - assert (Hlt : (lvl p < lvl n)%nat) by (apply Hpar; exact Hp).
    destruct (IH h1 p) as (h2 & tp & E & Hw & S2 & Sel2 & V2 & F2 & C2 & I2).
    + eapply ParentsAbove_SameTree; eassumption.
    + lia.
    + intros m Hm. assert (m <> n) by (intros ->; lia).
      apply validAt_transfer with (h := h); auto;
        try (unfold h1; rewrite upd_other by assumption; reflexivity).
      apply Hvalid. lia.
    + rewrite E.
      assert (Hn2 : h2 n = with_isTransformed (h n) false).
      { rewrite F2 by lia. exact Hn1. }
      rewrite Hn2. cbn [transform with_isTransformed].
      set (c := compose tp (transform (h n))).
      set (h3 := upd h2 n
                   (with_combinedTransform (with_isTransformed (h n) false) c)).
      assert (S3 : SameTree h2 h3).
      { apply SameTree_upd. rewrite Hn2. repeat split. }
      assert (S03 : SameTree h h3).
      { eapply SameTree_trans; [|exact S3].
        eapply SameTree_trans; eassumption. }
      assert (Hn3 : h3 n
                    = with_combinedTransform
                        (with_isTransformed (h n) false) c)
        by apply upd_same.
      assert (Hwn : World h n c).
      { eapply World_child; try eassumption.
        apply World_SameTree with (h := h1); [|exact Hw].
        intros m. destruct (S1 m) as (A1 & A2 & A3 & A4 & A5 & A6 & A7).
        repeat split; congruence. }
      exists h3, c. splits.
      * reflexivity.
      * exact Hwn.
      * exact S03.
      * intros m. unfold h3, upd.
        destruct (Nat.eqb_spec m n) as [->|Hne]; cbn.
        -- reflexivity.
        -- rewrite Sel2. unfold h1. now rewrite upd_other.
      * intros m Hm. destruct (Nat.eq_dec m n) as [->|Hne].
        -- intros _ _. rewrite Hn3. cbn.
           apply World_SameTree with (h := h); assumption.
        -- destruct (Nat.le_gt_cases (lvl m) (lvl p)) as [Hle|Hgt].
           ++ apply validAt_transfer with (h := h2); auto;
                unfold h3; rewrite upd_other by assumption; reflexivity.
           ++ apply validAt_transfer with (h := h); auto;
                unfold h3; rewrite upd_other by assumption;
                rewrite F2 by assumption;
                unfold h1; rewrite upd_other by assumption; reflexivity.
      * intros m Hm. assert (m <> n) by (intros ->; lia).
        unfold h3. rewrite upd_other by assumption.
        rewrite F2 by lia. unfold h1. now rewrite upd_other.
      * intros _. rewrite Hn3. split; reflexivity.
      * rewrite Hn3. cbn. now rewrite Hk.
  - set (c := transform (h n)).
    set (h3 := upd h1 n
                 (with_combinedTransform (with_isTransformed (h n) false) c)).
    assert (S3 : SameTree h1 h3).
    { apply SameTree_upd. rewrite Hn1. repeat split. }
    assert (S03 : SameTree h h3) by (eapply SameTree_trans; eassumption).
    assert (Hn3 : h3 n
                  = with_combinedTransform
                      (with_isTransformed (h n) false) c)
      by apply upd_same.
    assert (Hwn : World h n c) by (apply World_root; assumption).
    exists h3, c. splits.
    + reflexivity.
    + exact Hwn.
    + exact S03.
    + intros m. unfold h3, h1, upd.
      destruct (Nat.eqb_spec m n) as [->|Hne]; cbn; reflexivity.
    + intros m Hm. destruct (Nat.eq_dec m n) as [->|Hne].
      * intros _ _. rewrite Hn3. cbn.
        apply World_SameTree with (h := h); assumption.
      * apply validAt_transfer with (h := h); auto;
          unfold h3; rewrite upd_other by assumption;
          unfold h1; rewrite upd_other by assumption; reflexivity.
    + intros m Hm. assert (m <> n) by (intros ->; lia).
      unfold h3. rewrite upd_other by assumption.
      unfold h1. now rewrite upd_other.
    + intros _. rewrite Hn3. split; reflexivity.
    + rewrite Hn3. cbn. now rewrite Hk.
Qed.

(** *** Invalidation *)

Lemma Marked_refl (h : Heap) : Marked h h.
Proof. intros m. now left. Qed.

Lemma Marked_trans (h1 h2 h3 : Heap) :
  Marked h1 h2 -> Marked h2 h3 -> Marked h1 h3.
Proof.
  intros A B m. destruct (A m) as [E1|E1], (B m) as [E2|E2];
    rewrite E2, E1; auto.
Qed.

Lemma Marked_SameTree (h h' : Heap) : Marked h h' -> SameTree h h'.
Proof.
  intros A m. destruct (A m) as [E|E]; rewrite E; repeat split.
Qed.

Lemma Marked_SameSelection (h h' : Heap) :
  Marked h h' -> SameSelection h h'.
Proof. intros A m. destruct (A m) as [E|E]; rewrite E; reflexivity. Qed.

Lemma Marked_keeps (h h' : Heap) (m : ptr) :
  Marked h h' -> isTransformed (h m) = true -> isTransformed (h' m) = true.
Proof. intros A Hm. destruct (A m) as [E|E]; rewrite E; auto. Qed.

Lemma sameNode_sym (x y : AbstractNode) : sameNode x y -> sameNode y x.
Proof.
  unfold sameNode. intros (A1 & A2 & A3 & A4 & A5 & A6 & A7).
  repeat split; congruence.
Qed.

Lemma SameTree_sym (h h' : Heap) : SameTree h h' -> SameTree h' h.
Proof. intros A m. apply sameNode_sym, A. Qed.

Lemma WellFormed_preserved (h h' : Heap) :
  SameTree h h' -> SameSelection h h' -> WellFormed h -> WellFormed h'.
Proof.
  intros Hs Hsel Hwf. apply WellFormed_SameTree with (h := h); auto.
  intros n c Hc. rewrite Hsel in Hc.
  destruct (Hs n) as (_ & _ & _ & C & _). rewrite <- C.
  now apply (wf_selected h Hwf).
Qed.

Lemma Anc_SameTree (h h' : Heap) (a m : ptr) :
  SameTree h h' -> Anc h a m -> Anc h' a m.
Proof.
  intros Hs Ha. induction Ha as [|m p Hp Ha IH]; [apply Anc_self|].
  destruct (Hs m) as (_ & _ & P & _).
  apply Anc_parent with (p := p); [congruence|exact IH].
Qed.

Lemma Anc_below_child (h : Heap) (n c m : ptr) :
  parent (h c) = Some n -> Anc h c m -> Anc h n m.
Proof.
  intros Hc Ha. induction Ha as [|m p Hp Ha IH].
  - apply Anc_parent with (p := n); [exact Hc|apply Anc_self].
  - apply Anc_parent with (p := p); assumption.
Qed.

Lemma Anc_inv (h : Heap) (n m : ptr) :
  WellFormed h -> Anc h n m ->
  m = n \/ exists c, In c (children (h n)) /\ Anc h c m.
Proof.
  intros Hwf Ha. induction Ha as [|m p Hp Ha IH]; [now left|].
  right. destruct IH as [->|(c & Hc & Hcm)].
  - exists m. split; [now apply (wf_listed h Hwf)|apply Anc_self].
  - exists c. split; [exact Hc|].
    apply Anc_parent with (p := p); assumption.
Qed.

Lemma makeTransformed_spec (fuel : nat) :
  forall h n,
    WellFormed h -> (height - lvl n < fuel)%nat ->
    exists h',
      makeTransformed fuel h n = Some h'
      /\ Marked h h'
      /\ (forall m, Anc h n m -> isTransformed (h' m) = true)
      /\ (forall m, ~ Anc h n m -> h' m = h m).
Proof.
  induction fuel as [|fuel IH]; intros h n Hwf Hfuel; [lia|].
  cbn [makeTransformed].
  set (h1 := upd h n (with_isTransformed (h n) true)).
  assert (M1 : Marked h h1).
  { intros m. unfold h1, upd.
    destruct (Nat.eqb_spec m n) as [->|]; auto. }
  assert (Hn1 : h1 n = with_isTransformed (h n) true) by apply upd_same.
  rewrite Hn1. cbn [children with_isTransformed].
  assert (Hloop : forall cs g,
             Marked h g ->
             (forall c, In c cs -> In c (children (h n))) ->
             exists g',
               forEach (makeTransformed fuel) cs g = Some g'
               /\ Marked g g'
               /\ (forall c m, In c cs -> Anc h c m ->
                               isTransformed (g' m) = true)
               /\ (forall m, (forall c, In c cs -> ~ Anc h c m) ->
                             g' m = g m)).
  { induction cs as [|c cs IHcs]; intros g Mg Hcs.
    - exists g. cbn. splits; auto using Marked_refl; intros c m [].
    - cbn [forEach].
      assert (Hc : parent (h c) = Some n).
      { apply (wf_child h Hwf). apply Hcs. now left. }
      assert (Hlt : (lvl n < lvl c)%nat) by now apply (wf_parent h Hwf).
      assert (Wg : WellFormed g).
      { apply WellFormed_preserved with (h := h);
          auto using Marked_SameTree, Marked_SameSelection. }
      destruct (IH g c Wg) as (g1 & E1 & M1' & A1 & F1);
        [pose proof (wf_height h Hwf c); lia|].
      rewrite E1.
      destruct (IHcs g1) as (g' & E' & M' & A' & F').
      { eapply Marked_trans; eassumption. }
      { intros c' Hc'. apply Hcs. now right. }
      exists g'. splits.
      + exact E'.
      + eapply Marked_trans; eassumption.
      + intros c' m [<-|Hc'] Ha.
        * apply Marked_keeps with (h := g1); [exact M'|].
          apply A1. apply Anc_SameTree with (h := h); auto.
          now apply Marked_SameTree.
        * eapply A'; eassumption.
      + intros m Hm. rewrite F'.
        * apply F1. intros Ha. apply (Hm c); [now left|].
          apply Anc_SameTree with (h := g); auto.
          apply SameTree_sym. now apply Marked_SameTree.
        * intros c' Hc'. apply Hm. now right. }
  destruct (Hloop (children (h n)) h1 M1) as (h' & E & M & A & F); auto.
  exists h'. splits.
  - exact E.
  - eapply Marked_trans; eassumption.
  - intros m Ha. destruct (Anc_inv h n m Hwf Ha) as [->|(c & Hc & Hcm)].
    + apply Marked_keeps with (h := h1); [exact M|]. now rewrite Hn1.
    + eapply A; eassumption.
  - intros m Hm. rewrite F.
    + unfold h1. apply upd_other. intros ->. apply Hm, Anc_self.
    + intros c Hc Ha. apply Hm.
      apply Anc_below_child with (c := c); [|exact Ha].
      now apply (wf_child h Hwf).
Qed.

Lemma WellFormed_SameLinks (h h' : Heap) :
  SameLinks h h' -> WellFormed h -> WellFormed h'.
Proof.
  intros Hf [W1 W2 W3 W4 W5].
  split; auto.
  - intros n p Hp. apply W1. now rewrite <- (proj1 (Hf n)).
  - intros n c Hc. rewrite (proj1 (Hf c)). apply W2.
    now rewrite <- (proj1 (proj2 (Hf n))).
  - intros n p Hp. rewrite (proj1 (proj2 (Hf p))). apply W3.
    now rewrite <- (proj1 (Hf n)).
  - intros n c Hc. rewrite (proj1 (proj2 (Hf n))). apply W4.
    now rewrite <- (proj2 (proj2 (Hf n))).
Qed.

Lemma WellFormed_setTransform (h : Heap) (a : ptr) (t : Transform) :
  WellFormed h -> WellFormed (setTransform h a t).
Proof.
  apply WellFormed_SameLinks. intros n. unfold setTransform, upd.
  destruct (Nat.eqb_spec n a) as [->|]; repeat split.
Qed.

Lemma Anc_setTransform (h : Heap) (a b m : ptr) (t : Transform) :
  Anc h b m <-> Anc (setTransform h a t) b m.
Proof.
  assert (Hf : forall n, parent (setTransform h a t n) = parent (h n)).
  { intros n. unfold setTransform, upd.
    destruct (Nat.eqb_spec n a) as [->|]; reflexivity. }
  split; intros Ha; induction Ha as [|m p Hp Ha IH];
    try apply Anc_self; apply Anc_parent with (p := p); auto;
    rewrite Hf in *; assumption.
Qed.

(** Outside the subtree of [a], the transform to report does not depend
    on the local transform of [a]. *)
Lemma World_outside (h : Heap) (a m : ptr) (t t' : Transform) :
  ~ Anc h a m -> World h m t -> World (setTransform h a t') m t.
Proof.
  intros Hout Hw.
  assert (Hk : forall n, kind (setTransform h a t' n) = kind (h n)).
  { intros n. unfold setTransform, upd.
    destruct (Nat.eqb_spec n a) as [->|]; reflexivity. }
  assert (Hp : forall n, parent (setTransform h a t' n) = parent (h n)).
  { intros n. unfold setTransform, upd.
    destruct (Nat.eqb_spec n a) as [->|]; reflexivity. }
  assert (Ht : forall n, n <> a ->
                         transform (setTransform h a t' n) = transform (h n)).
  { intros n Hn. unfold setTransform. now rewrite upd_other. }
  induction Hw as [n w t Hkn|n Hkn Hpn|n p t Hkn Hpn Hw IH].
  - eapply World_act. rewrite Hk. exact Hkn.
  - rewrite <- Ht by (intros ->; apply Hout, Anc_self).
    apply World_root; [now rewrite Hk|now rewrite Hp].
  - rewrite <- Ht by (intros ->; apply Hout, Anc_self).
    apply World_child with (p := p); [now rewrite Hk|now rewrite Hp|].
    apply IH. intros Ha. apply Hout.
    apply Anc_parent with (p := p); assumption.
Qed.

Lemma getCombinedTransform_valid (fuel : nat) (h : Heap) (n : ptr) :
  WellFormed h -> CacheValid h -> (height < fuel)%nat ->
  exists h' t,
    getCombinedTransform fuel h n = Some (h', t)
    /\ World h n t
    /\ SameTree h h' /\ SameSelection h h'
    /\ CacheValid h'
    /\ (kind (h n) = Plain ->
        isTransformed (h' n) = false /\ combinedTransform (h' n) = t)
    /\ getCombinedTransform fuel h' n = Some (h', t).
Proof.
  intros Hwf Hvalid Hfuel.
  destruct (getCombinedTransform_spec fuel h n)
    as (h' & t & E & Hw & Hs & Hsel & V & F & C & I).
  - exact (wf_parent h Hwf).
  - pose proof (wf_height h Hwf n). lia.
  - intros m _. apply Hvalid.
  - exists h', t. splits; auto.
    intros m. destruct (Nat.le_gt_cases (lvl m) (lvl n)) as [Hle|Hgt].
    + now apply V.
    + apply validAt_transfer with (h := h); auto; now rewrite F.
Qed.

(** C3.  After the local transform of a node [a] has changed and [a]
    has been marked transformed, the dirty flag is set on [a] and on every
    descendant of [a]; the next [getCombinedTransform] of a descendant [d]
    returns the transform recomputed from the new state (the combined
    transform of the parent composed with the local transform, or the
    local transform alone without a parent), clears the flag of [d] and
    caches the result; a second call returns the cached value and leaves
    the heap as it is; and every cache whose flag is clear is again the
    transform to report. *)
Theorem invalidated_transform_recomputed
  (h : Heap) (a d : ptr) (t' : Transform) :
  WellFormed h -> CacheValid h -> Anc h a d ->
  exists h1 h2 t,
    makeTransformed (S height) (setTransform h a t') a = Some h1
    /\ transform (h1 a) = t'
    /\ (forall m, Anc h a m -> isTransformed (h1 m) = true)
    /\ getCombinedTransform (S height) h1 d = Some (h2, t)
    /\ World h1 d t
    /\ (kind (h1 d) = Plain ->
        isTransformed (h2 d) = false
        /\ combinedTransform (h2 d) = t
        /\ match parent (h1 d) with
           | Some p =>
               exists tp, World h1 p tp
                          /\ t = compose tp (transform (h1 d))
           | None => t = transform (h1 d)
           end)
    /\ getCombinedTransform (S height) h2 d = Some (h2, t)
    /\ CacheValid h2 /\ WellFormed h2.
Proof.
  intros Hwf Hvalid Had.
  set (h0 := setTransform h a t').
  assert (W0 : WellFormed h0) by now apply WellFormed_setTransform.
  destruct (makeTransformed_spec (S height) h0 a W0)
    as (h1 & E1 & M1 & A1 & F1); [lia|].
  assert (S1 : SameTree h0 h1) by now apply Marked_SameTree.
  assert (W1 : WellFormed h1).
  { apply WellFormed_preserved with (h := h0);
      auto using Marked_SameSelection. }
  assert (V1 : CacheValid h1).
  { intros m Hk Hclean.
    assert (Hout : ~ Anc h a m).
    { intros Ha. apply Anc_setTransform with (a := a) (t := t') in Ha.
      rewrite (A1 m Ha) in Hclean. discriminate. }
    assert (Hm1 : h1 m = h0 m).
    { apply F1. intros Ha. apply Hout.
      now apply Anc_setTransform in Ha. }
    assert (Hma : m <> a) by (intros ->; apply Hout, Anc_self).
    assert (Hm0 : h0 m = h m) by (unfold h0, setTransform; now apply upd_other).
    apply World_SameTree with (h := h0); [exact S1|].
    rewrite Hm1, Hm0. apply World_outside; [exact Hout|].
    apply Hvalid; congruence. }
  destruct (getCombinedTransform_valid (S height) h1 d W1 V1)
    as (h2 & t & E2 & Hw & S2 & Sel2 & V2 & C2 & I2); [lia|].
  assert (W2 : WellFormed h2)
    by now apply WellFormed_preserved with (h := h1).
  exists h1, h2, t. splits; auto.
  - destruct (S1 a) as (_ & _ & _ & _ & _ & T & _). rewrite <- T.
    unfold h0, setTransform. now rewrite upd_same.
  - intros m Ha. apply A1. now apply Anc_setTransform.
  - intros Hk. destruct (C2 Hk) as [C21 C22]. splits; auto.
    inversion Hw as [n w t0 Hk0|n Hk0 Hp0|n p t0 Hk0 Hp0 Hw0]; subst.
    + congruence.
    + now rewrite Hp0.
    + rewrite Hp0. now exists t0.
Qed.

(** *** Deselection *)

Lemma Deselected_refl (h : Heap) : Deselected h h.
Proof. intros m. now left. Qed.

Lemma Deselected_trans (h1 h2 h3 : Heap) :
  Deselected h1 h2 -> Deselected h2 h3 -> Deselected h1 h3.
Proof.
  intros A B m. destruct (A m) as [E1|E1], (B m) as [E2|E2];
    rewrite E2, E1; auto.
Qed.

Lemma Deselected_SameTree (h h' : Heap) : Deselected h h' -> SameTree h h'.
Proof.
  intros A m. destruct (A m) as [E|E]; rewrite E; repeat split.
Qed.

Lemma Deselected_SameCache (h h' : Heap) :
  Deselected h h' -> SameCache h h'.
Proof.
  intros A m. destruct (A m) as [E|E]; rewrite E; split; reflexivity.
Qed.

Lemma Deselected_selection (h h' : Heap) (m : ptr) :
  Deselected h h' ->
  selectedChild (h' m) = None \/ selectedChild (h' m) = selectedChild (h m).
Proof. intros A. destruct (A m) as [E|E]; rewrite E; auto. Qed.

Lemma WellFormed_Deselected (h h' : Heap) :
  Deselected h h' -> WellFormed h -> WellFormed h'.
Proof.
  intros Hd Hwf.
  apply WellFormed_SameTree with (h := h); auto using Deselected_SameTree.
  intros n c Hc.
  destruct (Deselected_SameTree h h' Hd n) as (_ & _ & _ & C & _).
  rewrite <- C.
  destruct (Deselected_selection h h' n Hd) as [E|E]; [congruence|].
  apply (wf_selected h Hwf). congruence.
Qed.

Lemma deselectChild_spec (fuel : nat) :
  forall h n,
    WellFormed h -> (height - lvl n < fuel)%nat ->
    exists h' events,
      deselectChild fuel h n = Some (h', events)
      /\ Deselected h h'
      /\ selectedChild (h' n) = None
      /\ (forall m, (lvl m < lvl n)%nat -> h' m = h m)
      /\ Forall isLeave events
      /\ match selectedChild (h n) with
         | Some c => exists rest, events = MouseLeft c :: rest
         | None => events = [] /\ h' = h
         end.
Proof.
  induction fuel as [|fuel IH]; intros h n Hwf Hfuel; [lia|].
  cbn [deselectChild].
  destruct (selectedChild (h n)) as [c|] eqn:Hsel.
  2:{ exists h, []. splits; auto using Deselected_refl. }
  assert (Hc : parent (h c) = Some n).
  { apply (wf_child h Hwf). now apply (wf_selected h Hwf). }
  assert (Hlt : (lvl n < lvl c)%nat) by now apply (wf_parent h Hwf).
  destruct (IH h c Hwf) as (h1 & ev & E & D1 & N1 & F1 & L1 & _);
    [pose proof (wf_height h Hwf c); lia|].
  rewrite E.
  set (h2 := upd h1 n (with_selectedChild (h1 n) None)).
  assert (D2 : Deselected h1 h2).
  { intros m. unfold h2, upd.
    destruct (Nat.eqb_spec m n) as [->|]; auto. }
  exists h2, (MouseLeft c :: ev). splits.
  - reflexivity.
  - eapply Deselected_trans; eassumption.
  - unfold h2. now rewrite upd_same.
  - intros m Hm. unfold h2. rewrite upd_other by (intros ->; lia).
    apply F1. lia.
  - constructor; [now exists c|exact L1].
  - now exists ev.
Qed.

(** C9 (as amended).  [setSelectable] with the value the flag already
    has fires no hook and changes nothing.  With a different value, on a
    node that has a parent when it is turned on: the flag takes the value;
    turning it on calls the enter hook, and only it, when the parent
    reports the node as its selected child, and calls the leave hook of
    the node when the parent does not; turning it off calls the leave hook
    of the node.  The leave hook is followed by those of the selected
    descendants that it deselects. *)
Theorem setSelectable_hooks (h : Heap) (n : ptr) (value : bool) :
  WellFormed h ->
  (value = true -> parent (h n) <> None) ->
  exists h' events,
    setSelectable (S height) h n value = Some (h', events)
    /\ isSelectable (h' n) = value
    /\ (isSelectable (h n) = value -> events = [] /\ h' = h)
    /\ (isSelectable (h n) <> value -> value = true ->
        forall p, parent (h n) = Some p ->
          (checkChildSelected h p n = true -> events = [MouseEntered n])
          /\ (checkChildSelected h p n = false ->
              exists rest, events = MouseLeft n :: rest
                           /\ Forall isLeave rest))
    /\ (isSelectable (h n) <> value -> value = false ->
        exists rest, events = MouseLeft n :: rest /\ Forall isLeave rest).
Proof.
  intros Hwf Hparent. unfold setSelectable.
  destruct (Bool.eqb (isSelectable (h n)) value) eqn:Heq; cbn [negb].
  { apply Bool.eqb_prop in Heq. exists h, []. splits; auto; congruence. }
  apply Bool.eqb_false_iff in Heq.
  set (h1 := upd h n (with_isSelectable (h n) value)).
  assert (Hn1 : h1 n = with_isSelectable (h n) value) by apply upd_same.
  assert (S1 : SameSelection h h1).
  { apply SameSelection_upd. reflexivity. }
  assert (W1 : WellFormed h1).
  { apply WellFormed_SameLinks with (h := h); [|exact Hwf].
    intros m. unfold h1, upd.
    destruct (Nat.eqb_spec m n) as [->|]; repeat split. }
  destruct (deselectChild_spec (S height) h1 n W1)
    as (h2 & ev & E & D & N & F & L & _); [lia|].
  assert (Hn2 : isSelectable (h2 n) = value).
  { destruct (Deselected_SameTree h1 h2 D n) as (_ & _ & _ & _ & I & _).
    rewrite <- I, Hn1. reflexivity. }
  assert (Hleft : onMouseLeft (S height) h1 n
                  = Some (h2, MouseLeft n :: ev)).
  { unfold onMouseLeft. now rewrite E. }
  rewrite Hn1. cbn [isSelectable parent with_isSelectable].
  destruct value.
  - destruct (parent (h n)) as [p|] eqn:Hp;
      [|exfalso; now apply Hparent].
    replace (checkChildSelected h1 p n) with (checkChildSelected h p n)
      by (unfold checkChildSelected; now rewrite S1).
    destruct (checkChildSelected h p n) eqn:Hsel.
    + exists h1, [MouseEntered n]. splits; try congruence.
      * now rewrite Hn1.
      * intros _ _ q [= <-].
        split; [intros _; reflexivity|intros Hf; congruence].
    + exists h2, (MouseLeft n :: ev). splits; try congruence.
      intros _ _ q [= <-]. split; [intros Hf; congruence|].
      intros _. now exists ev.
  - exists h2, (MouseLeft n :: ev). splits; try congruence.
    intros _ _. now exists ev.
Qed.

(** *** The hit test *)

Lemma ActsAreRoots_SameTree (h h' : Heap) :
  SameTree h h' -> ActsAreRoots h -> ActsAreRoots h'.
Proof.
  intros Hs Ha m p Hp. destruct (Hs m) as (K & _ & P & _).
  rewrite <- K. apply (Ha m p). congruence.
Qed.

Lemma hits_SameTree (h h' : Heap) (w : Window) (t : Transform)
  (pos : Vector2i) (c : ptr) :
  SameTree h h' -> hits h' w t pos c = hits h w t pos c.
Proof.
  intros Hs. destruct (Hs c) as (_ & _ & _ & _ & I & _ & R).
  unfold hits. now rewrite I, R.
Qed.

Lemma find_ext (f g : ptr -> bool) (l : list ptr) :
  (forall x, f x = g x) -> find f l = find g l.
Proof.
  intros Hfg. induction l as [|x l IH]; [reflexivity|].
  cbn. now rewrite Hfg, IH.
Qed.

Lemma getWindow_spec (h : Heap) (n : ptr) (w : Window) :
  ParentsAbove h -> Attached h n w ->
  forall fuel, (lvl n < fuel)%nat -> getWindow fuel h n = Some w.
Proof.
  intros Hpar Ha. induction Ha as [n w t Hk|n p w Hk Hp Ha IH];
    intros [|fuel] Hfuel; try lia; cbn [getWindow]; rewrite Hk.
  - reflexivity.
  - rewrite Hp. apply IH. pose proof (Hpar n p Hp). lia.
Qed.

Lemma checkMouseOnIt_child (fuel : nat) (h h' : Heap) (n c : ptr)
  (w : Window) (t : Transform) (pos : Vector2i) :
  getWindow fuel h c = Some w ->
  parent (h c) = Some n ->
  getCombinedTransform fuel h n = Some (h', t) ->
  checkMouseOnIt fuel h c pos
  = Some (h', insideWindow w pos
              && insideRect (transformRect t (rect (h c))) pos).
Proof.
  intros Hw Hp Hg. unfold checkMouseOnIt. now rewrite Hw, Hp, Hg.
Qed.

Lemma findHit_spec (fuel : nat) (n : ptr) (w : Window) (t : Transform)
  (pos : Vector2i) (h1 : Heap) :
  ParentsAbove h1 ->
  getCombinedTransform fuel h1 n = Some (h1, t) ->
  forall cs h,
    SameTree h h1 ->
    getCombinedTransform fuel h n = Some (h1, t) ->
    (forall c, In c cs ->
               parent (h c) = Some n /\ Attached h c w
               /\ (lvl c < fuel)%nat) ->
    exists h',
      findHit fuel h cs pos = Some (h', find (hits h w t pos) cs)
      /\ (h' = h \/ h' = h1).
Proof.
  intros Hpar1 Hidem.
  induction cs as [|c cs IH]; intros h Hs Hg Hcs.
  - exists h. cbn. auto.
  - cbn [findHit find]. unfold hits at 1.
    destruct (Hcs c (or_introl eq_refl)) as (Hp & Ha & Hlt).
    assert (Hpar : ParentsAbove h).
    { apply ParentsAbove_SameTree with (h := h1); auto using SameTree_sym. }
    destruct (isSelectable (h c)) eqn:Hsel; cbn [andb].
    + rewrite checkMouseOnIt_child with (h' := h1) (n := n) (w := w) (t := t);
        auto using getWindow_spec.
      destruct (insideWindow w pos
                && insideRect (transformRect t (rect (h c))) pos).
      * exists h1. auto.
      * destruct (IH h1) as (h' & E & Hh'); auto using SameTree_refl.
        { intros c' Hc'. destruct (Hcs c' (or_intror Hc')) as (P & A & L).
          destruct (Hs c') as (_ & _ & P' & _).
          splits; [congruence| |exact L].
          apply Attached_SameTree with (h := h); assumption. }
        exists h'. split; [|destruct Hh'; auto].
        rewrite E. f_equal. f_equal. apply find_ext.
        intros x. now apply hits_SameTree.
    + destruct (IH h) as (h' & E & Hh'); auto.
      intros c' Hc'. apply Hcs. now right.
      exists h'. auto.
Qed.

(** *** The selection walk *)

Lemma CacheValid_transfer (h h' : Heap) :
  SameTree h h' -> SameCache h h' -> CacheValid h -> CacheValid h'.
Proof.
  intros Hs Hc Hv m. destruct (Hc m) as [C1 C2].
  apply validAt_transfer with (h := h); auto.
Qed.

Lemma select_spec (pos : Vector2i) (w : Window) (fuel : nat) :
  forall h n,
    WellFormed h -> CacheValid h -> ActsAreRoots h -> Attached h n w ->
    (2 * height + 2 - lvl n <= fuel)%nat ->
    exists h' events,
      select fuel h n pos = Some (h', events)
      /\ WellFormed h' /\ CacheValid h' /\ SameTree h h'
      /\ (forall m, (lvl m < lvl n)%nat ->
                    selectedChild (h' m) = selectedChild (h m))
      /\ exists left,
           Forall isLeave left
           /\ match selectedChild (h n) with
              | Some c => exists rest, left = MouseLeft c :: rest
              | None => left = []
              end
           /\ if isSelectable (h n) then
                exists t,
                  World h n t
                  /\ selectedChild (h' n)
                     = find (hits h w t pos) (rev (children (h n)))
                  /\ match selectedChild (h' n) with
                     | Some c =>
                         exists hm below,
                           events = left ++ MouseEntered c :: below
                           /\ select (pred fuel) hm c pos = Some (h', below)
                     | None => events = left
                     end
              else selectedChild (h' n) = None /\ events = left.
Proof.
  induction fuel as [|f IH]; intros h n Hwf Hv Hroots Ha Hfuel.
  { pose proof (wf_height h Hwf n). lia. }
  pose proof (wf_height h Hwf n) as Hn.
  cbn [select].
  destruct (deselectChild_spec f h n Hwf)
    as (h1 & left & E1 & D1 & N1 & F1 & L1 & Hd1); [lia|].
  rewrite E1.
  assert (S1 : SameTree h h1) by now apply Deselected_SameTree.
  assert (W1 : WellFormed h1) by now apply WellFormed_Deselected with (h := h).
  assert (V1 : CacheValid h1).
  { apply CacheValid_transfer with (h := h);
      auto using Deselected_SameCache. }
  assert (R1 : ActsAreRoots h1)
    by now apply ActsAreRoots_SameTree with (h := h).
  assert (A1 : Attached h1 n w) by now apply Attached_SameTree with (h := h).
  assert (Hleft : match selectedChild (h n) with
                  | Some c => exists rest, left = MouseLeft c :: rest
                  | None => left = []
                  end).
  { destruct (selectedChild (h n)); [exact Hd1|apply Hd1]. }
  destruct (S1 n) as (_ & _ & _ & Hch1 & Hsel1 & _).
  unfold hitTest. rewrite <- Hsel1.
  destruct (isSelectable (h n)) eqn:Hsel.
  2:{ rewrite N1. exists h1, (left ++ []). rewrite app_nil_r.
      splits; auto.
      - intros m Hm. now rewrite F1.
      - exists left. splits; auto. }
  destruct (getCombinedTransform_valid f h1 n W1 V1)
    as (hg & t & Eg & Hw & Sg & Selg & Vg & Cg & Ig); [lia|].
  unfold getSelectedChild.
  destruct (findHit_spec f n w t pos hg) with (cs := rev (children (h1 n)))
                                              (h := h1)
    as (h2 & E2 & Hh2); auto.
  { apply ParentsAbove_SameTree with (h := h1); auto.
    exact (wf_parent h1 W1). }
  { intros c Hc. apply in_rev in Hc.
    assert (Hp : parent (h1 c) = Some n) by now apply (wf_child h1 W1).
    splits; auto.
    - apply Attached_child with (p := n); auto. now apply (R1 c n).
    - pose proof (wf_height h1 W1 c). lia. }
  rewrite E2.
  set (found := find (hits h1 w t pos) (rev (children (h1 n)))) in *.
  set (h3 := upd h2 n (with_selectedChild (h2 n) found)).
  assert (S12 : SameTree h1 h2)
    by (destruct Hh2 as [->| ->]; auto using SameTree_refl).
  assert (Sel12 : SameSelection h1 h2)
    by (destruct Hh2 as [->| ->]; auto using SameSelection_refl).
  assert (V2 : CacheValid h2) by (destruct Hh2 as [->| ->]; auto).
  assert (S23 : SameTree h2 h3) by (apply SameTree_upd; repeat split).
  assert (S3 : SameTree h h3).
  { eapply SameTree_trans; [exact S1|].
    eapply SameTree_trans; eassumption. }
  assert (Hn3 : selectedChild (h3 n) = found)
    by (unfold h3; now rewrite upd_same).
  assert (Hfound : found = find (hits h w t pos) (rev (children (h n)))).
  { unfold found. rewrite <- Hch1. apply find_ext.
    intros x. now apply hits_SameTree. }
  assert (W3 : WellFormed h3).
  { apply WellFormed_SameTree with (h := h); auto.
    intros m c Hc. destruct (S3 m) as (_ & _ & _ & C & _). rewrite <- C.
    destruct (Nat.eq_dec m n) as [->|Hne].
    - rewrite Hn3 in Hc. apply find_some in Hc. destruct Hc as [Hc _].
      apply in_rev in Hc. now rewrite Hch1.
    - unfold h3 in Hc. rewrite upd_other in Hc by assumption.
      rewrite Sel12 in Hc. destruct (S1 m) as (_ & _ & _ & C1 & _).
      rewrite C1. now apply (wf_selected h1 W1). }
  assert (V3 : CacheValid h3).
  { apply CacheValid_transfer with (h := h2); auto.
    apply SameCache_upd; reflexivity. }
  assert (R3 : ActsAreRoots h3)
    by now apply ActsAreRoots_SameTree with (h := h).
  assert (A3 : Attached h3 n w) by now apply Attached_SameTree with (h := h).
  assert (Hworld : World h n t).
  { apply World_SameTree with (h := h1); auto using SameTree_sym. }
  fold h3. rewrite Hn3.
  destruct found as [c|] eqn:Hf.
  - assert (Hc : In c (children (h3 n))) by now apply (wf_selected h3 W3).
    assert (Hp : parent (h3 c) = Some n) by now apply (wf_child h3 W3).
    assert (Hlt : (lvl n < lvl c)%nat) by now apply (wf_parent h3 W3).
    assert (A3c : Attached h3 c w).
    { apply Attached_child with (p := n); auto. now apply (R3 c n). }
    destruct (IH h3 c W3 V3 R3 A3c)
      as (h' & below & E' & W' & V' & S' & F' & _);
      [pose proof (wf_height h3 W3 c); lia|].
    rewrite E'. exists h', (left ++ [MouseEntered c] ++ below).
    assert (Hn' : selectedChild (h' n) = Some c).
    { rewrite F' by assumption. exact Hn3. }
    splits; auto.
    + eapply SameTree_trans; eassumption.
    + intros m Hm. rewrite F' by lia.
      unfold h3. rewrite upd_other by (intros ->; lia).
      rewrite Sel12. now rewrite F1.
    + exists left. splits; auto.
      exists t. splits; auto.
      * now rewrite Hn', <- Hfound.
      * rewrite Hn'. exists h3, below. split; [reflexivity|exact E'].
  - exists h3, (left ++ []). rewrite app_nil_r. splits; auto.
    + intros m Hm. unfold h3. rewrite upd_other by (intros ->; lia).
      rewrite Sel12. now rewrite F1.
    + exists left. splits; auto.
      exists t. splits; auto.
      * now rewrite Hn3, <- Hfound.
      * now rewrite Hn3.
Qed.

Lemma find_skip (f : ptr -> bool) (l1 l2 : list ptr) :
  (forall x, In x l1 -> f x = false) -> find f (l1 ++ l2) = find f l2.
Proof.
  intros Hl. induction l1 as [|x l1 IH]; [reflexivity|].
  cbn. rewrite (Hl x) by now left. apply IH.
  intros y Hy. apply Hl. now right.
Qed.

(** C2 (as amended).  [select] first deselects the selected child, firing
    its leave hook; then, only if the node is selectable, it scans the
    children from the last added to the first added and selects the first
    selectable child for which [checkMouseOnIt] holds (the window has the
    focus, the pointer is strictly inside the window, and strictly inside
    the rectangle of the child transformed by the combined transform of
    the node), fires its enter hook and recurses into it.  Of two
    selectable siblings that both pass this test, the one added later is
    selected when no sibling added after it passes; and a node has at
    most one selected child. *)
Theorem select_takes_topmost_hit
  (h : Heap) (n : ptr) (w : Window) (pos : Vector2i) :
  WellFormed h -> CacheValid h -> ActsAreRoots h -> Attached h n w ->
  exists h' events left t,
    select (2 * height + 2) h n pos = Some (h', events)
    /\ World h n t
    /\ Forall isLeave left
    /\ match selectedChild (h n) with
       | Some c => exists rest, left = MouseLeft c :: rest
       | None => left = []
       end
    /\ (isSelectable (h n) = false ->
        selectedChild (h' n) = None /\ events = left)
    /\ (isSelectable (h n) = true ->
        selectedChild (h' n)
        = find (hits h w t pos) (rev (children (h n)))
        /\ match selectedChild (h' n) with
           | Some c =>
               exists hm below,
                 events = left ++ MouseEntered c :: below
                 /\ select (2 * height + 1) hm c pos = Some (h', below)
           | None => events = left
           end)
    /\ (isSelectable (h n) = true ->
        forall A B front after,
          children (h n) = front ++ B :: after -> In A front ->
          hits h w t pos A = true -> hits h w t pos B = true ->
          (forall c, In c after -> hits h w t pos c = false) ->
          selectedChild (h' n) = Some B)
    /\ (forall c1 c2,
          checkChildSelected h' n c1 = true ->
          checkChildSelected h' n c2 = true -> c1 = c2).
Proof.
  intros Hwf Hv Hroots Ha.
  destruct (select_spec pos w (2 * height + 2) h n Hwf Hv Hroots Ha)
    as (h' & events & E & W' & V' & S' & F' & left & L & Hd & Hs); [lia|].
  destruct (getCombinedTransform_valid (S height) h n Hwf Hv)
    as (hg & t & _ & Hw & _); [lia|].
  replace (Init.Nat.pred (2 * height + 2)) with (2 * height + 1)%nat in Hs
    by lia.
  assert (Hfind : isSelectable (h n) = true ->
                  selectedChild (h' n)
                  = find (hits h w t pos) (rev (children (h n)))
                  /\ match selectedChild (h' n) with
                     | Some c =>
                         exists hm below,
                           events = left ++ MouseEntered c :: below
                           /\ select (2 * height + 1) hm c pos
                              = Some (h', below)
                     | None => events = left
                     end).
  { intros Hsel. rewrite Hsel in Hs. destruct Hs as (t0 & Hw0 & Hf & Hm).
    assert (t0 = t) by (eapply World_functional; eassumption). subst t0.
    now split. }
  exists h', events, left, t. splits; auto.
  - intros Hsel. now rewrite Hsel in Hs.
  - intros Hsel A B front after Hch HA HhA HhB Hafter.
    destruct (Hfind Hsel) as [Hf _]. rewrite Hf, Hch.
    rewrite rev_app_distr. cbn [rev]. rewrite <- !app_assoc.
    rewrite find_skip by (intros x Hx; apply Hafter; now apply in_rev).
    cbn. now rewrite HhB.
  - unfold checkChildSelected. intros c1 c2 H1 H2.
    destruct (selectedChild (h' n)) as [c|]; cbn in *; try discriminate.
    apply Nat.eqb_eq in H1, H2. congruence.
Qed.

(** *** Bulk removal *)

Lemma forEach_SameChildren (f : Heap -> ptr -> option Heap) :
  (forall h c h', f h c = Some h' -> SameChildren h h') ->
  forall l h h', forEach f l h = Some h' -> SameChildren h h'.
Proof.
  intros Hf. induction l as [|c l IH]; intros h h' E; cbn in E.
  - injection E as <-. intros m. reflexivity.
  - destruct (f h c) as [g|] eqn:Eg; [|discriminate].
    intros m. rewrite (IH g h' E m). now apply (Hf h c g).
Qed.

Lemma SameChildren_upd (h : Heap) (p : ptr) (x : AbstractNode) :
  children x = children (h p) -> SameChildren h (upd h p x).
Proof.
  intros Hx m. unfold upd.
  destruct (Nat.eqb_spec m p) as [->|]; auto.
Qed.

Lemma makeTransformed_SameChildren (fuel : nat) :
  forall h n h', makeTransformed fuel h n = Some h' -> SameChildren h h'.
Proof.
  induction fuel as [|fuel IH]; intros h n h' E; [discriminate|].
  cbn [makeTransformed] in E.
  apply forEach_SameChildren in E; [|exact IH].
  intros m. rewrite (E m). now apply SameChildren_upd.
Qed.

Lemma destroy_SameChildren (fuel : nat) :
  forall h n h', destroy fuel h n = Some h' -> SameChildren h h'.
Proof.
  induction fuel as [|fuel IH]; intros h n h' E; [discriminate|].
  cbn [destroy] in E.
  destruct (forEach (destroy fuel) (children (h n)) h) as [g|] eqn:Eg;
    [|discriminate].
  injection E as <-. apply forEach_SameChildren in Eg; [|exact IH].
  intros m. rewrite <- (Eg m). now apply SameChildren_upd.
Qed.

Lemma release_SameChildren (fuel : nat) (toDelete : bool) :
  forall h c h', release fuel toDelete h c = Some h' -> SameChildren h h'.
Proof.
  intros h c h' E. unfold release, setParent in E. destruct toDelete.
  - now apply destroy_SameChildren in E.
  - destruct (makeTransformed fuel h c) as [g|] eqn:Eg; [|discriminate].
    injection E as <-. apply makeTransformed_SameChildren in Eg.
    intros m. rewrite <- (Eg m). now apply SameChildren_upd.
Qed.

Lemma removeChildren_erases (fuel : nat) (h h' : Heap) (this : ptr)
  (toDelete : bool) (firstIndex lastIndex : Z) :
  removeChildren fuel h this toDelete firstIndex lastIndex = Some h' ->
  0 <= firstIndex
  /\ firstIndex
     <= endIndex (Z.of_nat (length (children (h this)))) lastIndex
  /\ children (h' this)
     = firstn (Z.to_nat firstIndex) (children (h this))
       ++ skipn (Z.to_nat (endIndex (Z.of_nat (length (children (h this))))
                             lastIndex))
            (children (h this)).
Proof.
  unfold removeChildren.
  destruct ((0 <=? firstIndex)
            && (firstIndex
                <=? endIndex (Z.of_nat (length (children (h this))))
                      lastIndex)) eqn:Hrange; [|discriminate].
  apply andb_true_iff in Hrange. destruct Hrange as [H0 H1].
  apply Z.leb_le in H0, H1.
  destruct (forEach _ _ h) as [g|] eqn:Eg; [|discriminate].
  apply forEach_SameChildren in Eg; [|apply release_SameChildren].
  intros [= <-]. rewrite upd_same. splits; auto.
  cbn. now rewrite (Eg this).
Qed.

Lemma ChildrenBelow_SameChildren (h h' : Heap) :
  SameChildren h h' -> ChildrenBelow h -> ChildrenBelow h'.
Proof.
  intros Hs [Hb Hh]. split; [|exact Hh].
  intros n c Hc. apply Hb. now rewrite <- (Hs n).
Qed.

Lemma WellFormed_ChildrenBelow (h : Heap) :
  WellFormed h -> ChildrenBelow h.
Proof.
  intros Hwf. split; [|exact (wf_height h Hwf)].
  intros n c Hc. apply (wf_parent h Hwf). now apply (wf_child h Hwf).
Qed.

Lemma forEach_total (f : Heap -> ptr -> option Heap) (P : ptr -> Prop) :
  (forall h c h', f h c = Some h' -> SameChildren h h') ->
  (forall h c, ChildrenBelow h -> P c -> exists h', f h c = Some h') ->
  forall l h,
    ChildrenBelow h -> (forall c, In c l -> P c) ->
    exists h', forEach f l h = Some h'.
Proof.
  intros Hframe Htotal.
  induction l as [|c l IH]; intros h Hb Hl; cbn [forEach].
  - now exists h.
  - destruct (Htotal h c Hb) as (g & Eg); [apply Hl; now left|].
    rewrite Eg. apply IH.
    + apply ChildrenBelow_SameChildren with (h := h); auto.
      now apply (Hframe h c g).
    + intros c' Hc'. apply Hl. now right.
Qed.

Lemma makeTransformed_total (fuel : nat) :
  forall h n,
    ChildrenBelow h -> (height - lvl n < fuel)%nat ->
    exists h', makeTransformed fuel h n = Some h'.
Proof.
  induction fuel as [|fuel IH]; intros h n Hb Hfuel; [lia|].
  cbn [makeTransformed].
  set (h1 := upd h n (with_isTransformed (h n) true)).
  assert (S1 : SameChildren h h1) by now apply SameChildren_upd.
  assert (B1 : ChildrenBelow h1)
    by now apply ChildrenBelow_SameChildren with (h := h).
  apply forEach_total with (P := fun c => (lvl n < lvl c)%nat); auto.
  - apply makeTransformed_SameChildren.
  - intros g c Hg Hc. apply IH; [exact Hg|].
    destruct Hg as [_ Hh]. pose proof (Hh c). lia.
  - intros c Hc. now apply (proj1 B1).
Qed.

Lemma destroy_total (fuel : nat) :
  forall h n,
    ChildrenBelow h -> (height - lvl n < fuel)%nat ->
    exists h', destroy fuel h n = Some h'.
Proof.
  induction fuel as [|fuel IH]; intros h n Hb Hfuel; [lia|].
  cbn [destroy].
  destruct (forEach_total (destroy fuel) (fun c => (lvl n < lvl c)%nat))
    with (l := children (h n)) (h := h) as (g & Eg); auto.
  - apply destroy_SameChildren.
  - intros g c Hg Hc. apply IH; [exact Hg|].
    destruct Hg as [_ Hh]. pose proof (Hh c). lia.
  - intros c Hc. now apply (proj1 Hb).
  - rewrite Eg. eauto.
Qed.

Lemma release_total (toDelete : bool) (h : Heap) (c : ptr) :
  ChildrenBelow h -> exists h', release (S height) toDelete h c = Some h'.
Proof.
  intros Hb. unfold release, setParent. destruct toDelete.
  - apply destroy_total; [exact Hb|lia].
  - destruct (makeTransformed_total (S height) h c Hb) as (g & Eg); [lia|].
    rewrite Eg. eauto.
Qed.

(** Inside the bounds, [removeChildren] erases the children from
    [firstIndex] up to, and without, the index of [end]: [lastIndex], or
    the number of children when [lastIndex] is -1 or greater. *)
Lemma removeChildren_in_range
  (h : Heap) (this : ptr) (toDelete : bool) (firstIndex lastIndex : Z) :
  ChildrenBelow h ->
  0 <= firstIndex
  <= endIndex (Z.of_nat (length (children (h this)))) lastIndex ->
  exists h',
    removeChildren (S height) h this toDelete firstIndex lastIndex = Some h'
    /\ children (h' this)
       = firstn (Z.to_nat firstIndex) (children (h this))
         ++ skipn (Z.to_nat (endIndex (Z.of_nat (length (children (h this))))
                               lastIndex))
              (children (h this)).
Proof.
  intros Hb [H0 H1].
  destruct (removeChildren (S height) h this toDelete firstIndex lastIndex)
    as [h'|] eqn:E.
  - exists h'. split; [reflexivity|].
    now apply removeChildren_erases in E.
  - exfalso. unfold removeChildren in E.
    apply Z.leb_le in H0, H1. rewrite H0, H1 in E. cbn [andb] in E.
    destruct (forEach_total (release (S height) toDelete) (fun _ => True))
      with (l := firstn
                   (Z.to_nat
                      (endIndex (Z.of_nat (length (children (h this))))
                         lastIndex - firstIndex))
                   (skipn (Z.to_nat firstIndex) (children (h this))))
           (h := h) as (g & Eg); auto.
    + apply release_SameChildren.
    + intros g c Hg _. now apply release_total.
    + rewrite Eg in E. discriminate.
Qed.

(** With [firstIndex] beyond the number of children, [removeChildren]
    does not clamp: the iterator [begin] is past [end], whatever
    [lastIndex] is, and the call has no defined result. *)
Lemma removeChildren_beyond_end
  (fuel : nat) (h : Heap) (this : ptr) (toDelete : bool)
  (firstIndex lastIndex : Z) :
  Z.of_nat (length (children (h this))) < firstIndex ->
  removeChildren fuel h this toDelete firstIndex lastIndex = None.
Proof.
  intros Hbeyond. unfold removeChildren, endIndex.
  set (size := Z.of_nat (length (children (h this)))) in *.
  destruct ((lastIndex =? -1) || (size <? lastIndex)) eqn:Hclamp.
  - replace (firstIndex <=? size) with false
      by (symmetry; apply Z.leb_gt; lia).
    now rewrite andb_false_r.
  - apply orb_false_iff in Hclamp. destruct Hclamp as [_ Hle].
    apply Z.ltb_ge in Hle.
    replace (firstIndex <=? lastIndex) with false
      by (symmetry; apply Z.leb_gt; lia).
    now rewrite andb_false_r.
Qed.

(** *** Attaching and detaching *)

Lemma upd_proj {X : Type} (proj : AbstractNode -> X) (h : Heap) (p : ptr)
  (x : AbstractNode) (m : ptr) :
  proj x = proj (h p) -> proj (upd h p x m) = proj (h m).
Proof.
  intros Hx. unfold upd. destruct (Nat.eqb_spec m p) as [->|]; auto.
Qed.

Lemma forEach_rel (R : Heap -> Heap -> Prop)
  (f : Heap -> ptr -> option Heap) :
  (forall h, R h h) ->
  (forall h1 h2 h3, R h1 h2 -> R h2 h3 -> R h1 h3) ->
  (forall h c h', f h c = Some h' -> R h h') ->
  forall l h h', forEach f l h = Some h' -> R h h'.
Proof.
  intros Hrefl Htrans Hf. induction l as [|c l IH]; intros h h' E; cbn in E.
  - injection E as <-. apply Hrefl.
  - destruct (f h c) as [g|] eqn:Eg; [|discriminate].
    apply Htrans with (h2 := g); [now apply (Hf h c)|now apply IH].
Qed.

Lemma makeTransformed_Marked (fuel : nat) :
  forall h n h', makeTransformed fuel h n = Some h' -> Marked h h'.
Proof.
  induction fuel as [|fuel IH]; intros h n h' E; [discriminate|].
  cbn [makeTransformed] in E.
  apply (forEach_rel Marked) in E;
    [|exact Marked_refl|exact Marked_trans|exact IH].
  apply Marked_trans with (h2 := upd h n (with_isTransformed (h n) true));
    [|exact E].
  intros m. unfold upd. destruct (Nat.eqb_spec m n) as [->|]; auto.
Qed.

Lemma makeTransformed_marks_root (fuel : nat) (h : Heap) (n : ptr)
  (h' : Heap) :
  makeTransformed fuel h n = Some h' -> isTransformed (h' n) = true.
Proof.
  destruct fuel as [|fuel]; [discriminate|].
  cbn [makeTransformed]. intros E.
  apply (forEach_rel Marked) in E;
    [|exact Marked_refl|exact Marked_trans|apply makeTransformed_Marked].
  apply Marked_keeps with (m := n) in E; [exact E|].
  now rewrite upd_same.
Qed.

Lemma Marked_sameApartFromLinks (h h' : Heap) (m : ptr) :
  Marked h h' ->
  sameApartFromLinks (h' m) (h m)
  /\ parent (h' m) = parent (h m) /\ children (h' m) = children (h m).
Proof.
  intros M. destruct (M m) as [E|E]; rewrite E; repeat split.
Qed.

Lemma Marked_FlagsKept (h h' : Heap) : Marked h h' -> FlagsKept h h'.
Proof. intros M m. now apply Marked_keeps. Qed.

Lemma In_existsb (child : ptr) (l : list ptr) :
  existsb (Nat.eqb child) l = true <-> In child l.
Proof.
  rewrite existsb_exists. split.
  - intros (x & Hx & E). apply Nat.eqb_eq in E. now subst.
  - intros Hin. exists child. split; [exact Hin|apply Nat.eqb_refl].
Qed.

Lemma eraseFirst_last (child : ptr) (l : list ptr) :
  ~ In child l -> eraseFirst child (l ++ [child]) = l.
Proof.
  induction l as [|c l IH]; intros Hout; cbn.
  - now rewrite Nat.eqb_refl.
  - destruct (Nat.eqb_spec c child) as [->|Hne].
    + exfalso. apply Hout. now left.
    + rewrite IH; [reflexivity|]. intros Hin. apply Hout. now right.
Qed.

(** What [addChild] does, whenever the marking of the child returns. *)
Lemma addChild_inv (fuel : nat) (h : Heap) (this child : ptr) (h1 : Heap) :
  makeTransformed fuel h child = Some h1 ->
  exists h',
    addChild fuel h this child = Some h'
    /\ children (h' this) = children (h this) ++ [child]
    /\ parent (h' child) = Some this
    /\ (forall m, m <> this -> children (h' m) = children (h m))
    /\ (forall m, m <> child -> parent (h' m) = parent (h m))
    /\ (forall m, sameApartFromLinks (h' m) (h m))
    /\ (forall m, isTransformed (h' m) = isTransformed (h1 m)).
Proof.
  intros E1. unfold addChild, setParent. rewrite E1.
  eexists. split; [reflexivity|].
  pose proof (makeTransformed_Marked _ _ _ _ E1) as M1.
  set (h2 := upd h1 child (with_parent (h1 child) (Some this))).
  assert (C2 : forall m, children (h2 m) = children (h m)).
  { intros m. unfold h2. rewrite (upd_proj children) by reflexivity.
    apply (Marked_sameApartFromLinks h h1 m M1). }
  splits.
  - rewrite upd_same. cbn [children with_children]. now rewrite C2.
  - rewrite (upd_proj parent) by reflexivity. unfold h2. now rewrite upd_same.
  - intros m Hm. rewrite upd_other by assumption. apply C2.
  - intros m Hm. rewrite (upd_proj parent) by reflexivity.
    unfold h2. rewrite upd_other by assumption.
    apply (Marked_sameApartFromLinks h h1 m M1).
  - intros m.
    destruct (Marked_sameApartFromLinks h h1 m M1)
      as ((K & A & S & I & C & T & R) & _).
    unfold sameApartFromLinks.
    rewrite (upd_proj kind), (upd_proj alive), (upd_proj selectedChild),
      (upd_proj isSelectable), (upd_proj combinedTransform),
      (upd_proj transform), (upd_proj rect) by reflexivity.
    unfold h2.
    rewrite (upd_proj kind), (upd_proj alive), (upd_proj selectedChild),
      (upd_proj isSelectable), (upd_proj combinedTransform),
      (upd_proj transform), (upd_proj rect) by reflexivity.
    repeat split; assumption.
  - intros m. rewrite (upd_proj isTransformed) by reflexivity.
    unfold h2. now rewrite (upd_proj isTransformed) by reflexivity.
Qed.

(** X13.  [addChild] appends the child to the children of the node,
    sets the parent of the child, and marks the child and all its
    descendants as transformed.  It changes nothing else: the other
    lists of children stay as they were, so that a previous parent of the
    child still lists it, and no selection changes. *)
Theorem addChild_appends_and_invalidates (h : Heap) (this child : ptr) :
  WellFormed h ->
  exists h',
    addChild (S height) h this child = Some h'
    /\ children (h' this) = children (h this) ++ [child]
    /\ parent (h' child) = Some this
    /\ (forall m, Anc h child m -> isTransformed (h' m) = true)
    /\ (forall m, ~ Anc h child m -> isTransformed (h' m) = isTransformed (h m))
    /\ (forall m, m <> this -> children (h' m) = children (h m))
    /\ (forall m, m <> child -> parent (h' m) = parent (h m))
    /\ (forall m, sameApartFromLinks (h' m) (h m)).
Proof.
  intros Hwf.
  destruct (makeTransformed_spec (S height) h child Hwf)
    as (h1 & E1 & M1 & A1 & F1); [lia|].
  destruct (addChild_inv (S height) h this child h1 E1)
    as (h' & E & C & P & FC & FP & Same & Flags).
  exists h'. splits; auto.
  - intros m Ha. rewrite Flags. now apply A1.
  - intros m Ha. rewrite Flags. now rewrite F1.
Qed.

(** What [removeChild] does to a child that it only detaches, whenever
    the marking of the child returns. *)
Lemma removeChild_inv (fuel : nat) (h : Heap) (this child : ptr)
  (h1 : Heap) :
  In child (children (h this)) ->
  makeTransformed fuel h child = Some h1 ->
  exists h',
    removeChild fuel h this child false = Some h'
    /\ children (h' this) = eraseFirst child (children (h this))
    /\ parent (h' child) = None
    /\ (forall m, m <> this -> children (h' m) = children (h m))
    /\ (forall m, m <> child -> parent (h' m) = parent (h m))
    /\ (forall m, sameApartFromLinks (h' m) (h m))
    /\ (forall m, isTransformed (h' m) = isTransformed (h1 m)).
Proof.
  intros Hin E1. unfold removeChild, release, setParent.
  rewrite (proj2 (In_existsb child _) Hin), E1.
  eexists. split; [reflexivity|].
  pose proof (makeTransformed_Marked _ _ _ _ E1) as M1.
  set (h2 := upd h1 child (with_parent (h1 child) None)).
  assert (C2 : forall m, children (h2 m) = children (h m)).
  { intros m. unfold h2. rewrite (upd_proj children) by reflexivity.
    apply (Marked_sameApartFromLinks h h1 m M1). }
  splits.
  - rewrite upd_same. cbn [children with_children]. now rewrite C2.
  - rewrite (upd_proj parent) by reflexivity. unfold h2. now rewrite upd_same.
  - intros m Hm. rewrite upd_other by assumption. apply C2.
  - intros m Hm. rewrite (upd_proj parent) by reflexivity.
    unfold h2. rewrite upd_other by assumption.
    apply (Marked_sameApartFromLinks h h1 m M1).
  - intros m.
    destruct (Marked_sameApartFromLinks h h1 m M1)
      as ((K & A & S & I & C & T & R) & _).
    unfold sameApartFromLinks.
    rewrite (upd_proj kind), (upd_proj alive), (upd_proj selectedChild),
      (upd_proj isSelectable), (upd_proj combinedTransform),
      (upd_proj transform), (upd_proj rect) by reflexivity.
    unfold h2.
    rewrite (upd_proj kind), (upd_proj alive), (upd_proj selectedChild),
      (upd_proj isSelectable), (upd_proj combinedTransform),
      (upd_proj transform), (upd_proj rect) by reflexivity.
    repeat split; assumption.
  - intros m. rewrite (upd_proj isTransformed) by reflexivity.
    unfold h2. now rewrite (upd_proj isTransformed) by reflexivity.
Qed.

(** X14.  [removeChild] of a node that is not among the children does
    nothing, whatever [toDelete] is.  Of a child, without deleting it, it
    erases the first occurrence of the child from the children, clears
    the parent of the child, and marks the child and its descendants as
    transformed; the selection is not touched, so that a removed child
    that was the selected child is still reported as selected. *)
Theorem removeChild_detaches_child (h : Heap) (this child : ptr) :
  WellFormed h ->
  (~ In child (children (h this)) ->
   forall fuel toDelete, removeChild fuel h this child toDelete = Some h)
  /\ (In child (children (h this)) ->
      exists h',
        removeChild (S height) h this child false = Some h'
        /\ children (h' this) = eraseFirst child (children (h this))
        /\ parent (h' child) = None
        /\ (forall m, Anc h child m -> isTransformed (h' m) = true)
        /\ (forall m, m <> this -> children (h' m) = children (h m))
        /\ (forall m, m <> child -> parent (h' m) = parent (h m))
        /\ (forall m, sameApartFromLinks (h' m) (h m))
        /\ checkChildSelected h' this child
           = checkChildSelected h this child).
Proof.
  intros Hwf. split.
  - intros Hout fuel toDelete. unfold removeChild.
    destruct (existsb (Nat.eqb child) (children (h this))) eqn:Ex;
      [|reflexivity].
    apply In_existsb in Ex. contradiction.
  - intros Hin.
    destruct (makeTransformed_spec (S height) h child Hwf)
      as (h1 & E1 & M1 & A1 & F1); [lia|].
    destruct (removeChild_inv (S height) h this child h1 Hin E1)
      as (h' & E & C & P & FC & FP & Same & Flags).
    exists h'. splits; auto.
    + intros m Ha. rewrite Flags. now apply A1.
    + unfold checkChildSelected.
      destruct (Same this) as (_ & _ & S & _). now rewrite S.
Qed.

(** X15.  Adding a node that is not yet among the children and removing
    it again, without deleting it, gives back the lists of children as
    they were; the node is left without a parent, whatever parent it had
    before, and no other parent changes. *)
Theorem addChild_removeChild_round_trip (h : Heap) (this child : ptr) :
  ChildrenBelow h -> (lvl this < lvl child)%nat ->
  ~ In child (children (h this)) ->
  exists h1 h2,
    addChild (S height) h this child = Some h1
    /\ removeChild (S height) h1 this child false = Some h2
    /\ (forall m, children (h2 m) = children (h m))
    /\ parent (h2 child) = None
    /\ (forall m, m <> child -> parent (h2 m) = parent (h m))
    /\ (forall m, sameApartFromLinks (h2 m) (h m)).
Proof.
  intros Hb Hlvl Hout.
  destruct (makeTransformed_total (S height) h child Hb) as (g1 & G1); [lia|].
  destruct (addChild_inv (S height) h this child g1 G1)
    as (h1 & E1 & C1 & P1 & FC1 & FP1 & Same1 & _).
  assert (Hb1 : ChildrenBelow h1).
  { destruct Hb as [Hbelow Hh]. split; [|exact Hh].
    intros n c Hc. destruct (Nat.eq_dec n this) as [->|Hn].
    - rewrite C1 in Hc. apply in_app_or in Hc.
      destruct Hc as [Hc|[<-|[]]]; [now apply Hbelow|exact Hlvl].
    - rewrite FC1 in Hc by assumption. now apply Hbelow. }
  destruct (makeTransformed_total (S height) h1 child Hb1) as (g2 & G2);
    [lia|].
  assert (Hin : In child (children (h1 this))).
  { rewrite C1. apply in_or_app. right. now left. }
  destruct (removeChild_inv (S height) h1 this child g2 Hin G2)
    as (h2 & E2 & C2 & P2 & FC2 & FP2 & Same2 & _).
  exists h1, h2. splits; auto.
  - intros m. destruct (Nat.eq_dec m this) as [->|Hm].
    + rewrite C2, C1. now apply eraseFirst_last.
    + now rewrite FC2, FC1.
  - intros m Hm. now rewrite FP2, FP1.
  - intros m. destruct (Same2 m) as (K2 & A2 & S2 & I2 & T2 & L2 & R2).
    destruct (Same1 m) as (K1 & A1 & S1 & I1 & T1 & L1 & R1).
    repeat split; congruence.
Qed.

(** *** Deletion *)

Lemma Killed_refl (h : Heap) : Killed h h.
Proof. intros m. now left. Qed.

Lemma Killed_trans (h1 h2 h3 : Heap) :
  Killed h1 h2 -> Killed h2 h3 -> Killed h1 h3.
Proof.
  intros A B m. destruct (A m) as [E1|E1], (B m) as [E2|E2];
    rewrite E2, E1; auto.
Qed.

Lemma Killed_SameLinks (h h' : Heap) : Killed h h' -> SameLinks h h'.
Proof. intros A m. destruct (A m) as [E|E]; rewrite E; repeat split. Qed.

Lemma Killed_keeps (h h' : Heap) (m : ptr) :
  Killed h h' -> alive (h m) = false -> alive (h' m) = false.
Proof. intros A Hm. destruct (A m) as [E|E]; rewrite E; auto. Qed.

Lemma Killed_upd (h : Heap) (n : ptr) :
  Killed h (upd h n (with_alive (h n) false)).
Proof.
  intros m. unfold upd. destruct (Nat.eqb_spec m n) as [->|]; auto.
Qed.

Lemma Anc_SameLinks (h h' : Heap) (a m : ptr) :
  SameLinks h h' -> Anc h a m <-> Anc h' a m.
Proof.
  intros Hs. split; intros Ha; induction Ha as [|m p Hp Ha IH];
    try apply Anc_self; apply Anc_parent with (p := p); auto.
  - now rewrite (proj1 (Hs m)).
  - now rewrite <- (proj1 (Hs m)).
Qed.

Lemma destroy_spec (fuel : nat) :
  forall h n,
    WellFormed h -> (height - lvl n < fuel)%nat ->
    exists h',
      destroy fuel h n = Some h'
      /\ Killed h h'
      /\ (forall m, Anc h n m -> alive (h' m) = false)
      /\ (forall m, ~ Anc h n m -> h' m = h m).
Proof.
  induction fuel as [|fuel IH]; intros h n Hwf Hfuel; [lia|].
  cbn [destroy].
  assert (Hloop : forall cs g,
             Killed h g ->
             (forall c, In c cs -> In c (children (h n))) ->
             exists g',
               forEach (destroy fuel) cs g = Some g'
               /\ Killed g g'
               /\ (forall c m, In c cs -> Anc h c m -> alive (g' m) = false)
               /\ (forall m, (forall c, In c cs -> ~ Anc h c m) ->
                             g' m = g m)).
  { induction cs as [|c cs IHcs]; intros g Kg Hcs.
    - exists g. cbn. splits; auto using Killed_refl; intros c m [].
    - cbn [forEach].
      assert (Hc : parent (h c) = Some n).
      { apply (wf_child h Hwf). apply Hcs. now left. }
      assert (Hlt : (lvl n < lvl c)%nat) by now apply (wf_parent h Hwf).
      assert (Lg : SameLinks h g) by now apply Killed_SameLinks.
      assert (Wg : WellFormed g)
        by now apply WellFormed_SameLinks with (h := h).
      destruct (IH g c Wg) as (g1 & E1 & K1 & A1 & F1);
        [pose proof (wf_height h Hwf c); lia|].
      rewrite E1.
      destruct (IHcs g1) as (g' & E' & K' & A' & F').
      { eapply Killed_trans; eassumption. }
      { intros c' Hc'. apply Hcs. now right. }
      exists g'. splits.
      + exact E'.
      + eapply Killed_trans; eassumption.
      + intros c' m [<-|Hc'] Ha.
        * apply Killed_keeps with (h := g1); [exact K'|].
          apply A1. now apply (Anc_SameLinks h g).
        * eapply A'; eassumption.
      + intros m Hm. rewrite F'.
        * apply F1. intros Ha. apply (Hm c); [now left|].
          now apply (Anc_SameLinks h g).
        * intros c' Hc'. apply Hm. now right. }
  destruct (Hloop (children (h n)) h (Killed_refl h))
    as (g & E & K & A & F); auto.
  rewrite E. exists (upd g n (with_alive (g n) false)). splits.
  - reflexivity.
  - eapply Killed_trans; [exact K|apply Killed_upd].
  - intros m Ha. destruct (Nat.eq_dec m n) as [->|Hne].
    + now rewrite upd_same.
    + rewrite upd_other by assumption.
      destruct (Anc_inv h n m Hwf Ha) as [->|(c & Hc & Hcm)];
        [contradiction|].
      eapply A; eassumption.
  - intros m Hm. rewrite upd_other by (intros ->; apply Hm, Anc_self).
    apply F. intros c Hc Ha. apply Hm.
    apply Anc_below_child with (c := c); [|exact Ha].
    now apply (wf_child h Hwf).
Qed.

(** X16.  [removeChild] with [toDelete] deletes the child and with it
    every descendant of the child, and no other node, and erases the
    first occurrence of the child from the children.  The links and the
    selection stay as they were: a deleted child that was the selected
    child is still reported as selected. *)
Theorem removeChild_deletes_subtree (h : Heap) (this child : ptr) :
  WellFormed h -> In child (children (h this)) ->
  exists h',
    removeChild (S height) h this child true = Some h'
    /\ children (h' this) = eraseFirst child (children (h this))
    /\ (forall m, Anc h child m -> alive (h' m) = false)
    /\ (forall m, ~ Anc h child m -> alive (h' m) = alive (h m))
    /\ (forall m, m <> this -> children (h' m) = children (h m))
    /\ (forall m, parent (h' m) = parent (h m))
    /\ (forall m, selectedChild (h' m) = selectedChild (h m))
    /\ checkChildSelected h' this child = checkChildSelected h this child.
Proof.
  intros Hwf Hin.
  destruct (destroy_spec (S height) h child Hwf) as (h1 & E1 & K1 & A1 & F1);
    [lia|].
  pose proof (Killed_SameLinks h h1 K1) as L1.
  unfold removeChild, release.
  rewrite (proj2 (In_existsb child _) Hin), E1.
  eexists. split; [reflexivity|]. splits.
  - rewrite upd_same. cbn [children with_children].
    now rewrite (proj1 (proj2 (L1 this))).
  - intros m Ha. rewrite (upd_proj alive) by reflexivity. now apply A1.
  - intros m Ha. rewrite (upd_proj alive) by reflexivity. now rewrite F1.
  - intros m Hm. rewrite upd_other by assumption. apply (L1 m).
  - intros m. rewrite (upd_proj parent) by reflexivity. apply (L1 m).
  - intros m. rewrite (upd_proj selectedChild) by reflexivity. apply (L1 m).
  - unfold checkChildSelected.
    rewrite (upd_proj selectedChild) by reflexivity.
    now rewrite (proj2 (proj2 (L1 this))).
Qed.

(** *** Releasing a range of children *)

Lemma FlagsKept_refl (h : Heap) : FlagsKept h h.
Proof. intros m Hm. exact Hm. Qed.

Lemma FlagsKept_trans (h1 h2 h3 : Heap) :
  FlagsKept h1 h2 -> FlagsKept h2 h3 -> FlagsKept h1 h3.
Proof. intros A B m Hm. apply B, A, Hm. Qed.

Lemma setParent_spec (fuel : nat) (h : Heap) (c : ptr) (value : option ptr)
  (h' : Heap) :
  setParent fuel h c value = Some h' ->
  parent (h' c) = value
  /\ isTransformed (h' c) = true
  /\ (forall m, m <> c -> parent (h' m) = parent (h m))
  /\ FlagsKept h h'.
Proof.
  unfold setParent.
  destruct (makeTransformed fuel h c) as [h1|] eqn:E1; [|discriminate].
  intros [= <-].
  pose proof (makeTransformed_Marked _ _ _ _ E1) as M1. splits.
  - now rewrite upd_same.
  - rewrite (upd_proj isTransformed) by reflexivity.
    now apply makeTransformed_marks_root in E1.
  - intros m Hm. rewrite upd_other by assumption.
    apply (Marked_sameApartFromLinks h h1 m M1).
  - intros m Hm. rewrite (upd_proj isTransformed) by reflexivity.
    now apply (Marked_keeps h h1).
Qed.

Lemma forEach_setParent (fuel : nat) (l : list ptr) :
  forall h h',
    forEach (release fuel false) l h = Some h' ->
    (forall c, In c l -> parent (h' c) = None /\ isTransformed (h' c) = true)
    /\ (forall m, ~ In m l -> parent (h' m) = parent (h m))
    /\ FlagsKept h h'.
Proof.
  induction l as [|c l IH]; intros h h' E; cbn in E.
  - injection E as <-. splits; auto using FlagsKept_refl. intros c [].
  - destruct (setParent fuel h c None) as [g|] eqn:Eg; [|discriminate].
    destruct (setParent_spec _ _ _ _ _ Eg) as (P & T & FP & K).
    destruct (IH g h' E) as (R' & FP' & K'). splits.
    + intros x [<-|Hx].
      * destruct (in_dec Nat.eq_dec c l) as [Hin|Hout]; [now apply R'|].
        rewrite FP' by assumption. split; [exact P|now apply K'].
      * now apply R'.
    + intros m Hm. rewrite FP' by (intros Hin; apply Hm; now right).
      apply FP. intros ->. apply Hm. now left.
    + eapply FlagsKept_trans; eassumption.
Qed.

(** X17.  Within the bounds, [removeChildren] without [toDelete]
    removes the children from [firstIndex] up to, not including, the
    index of [end] ([lastIndex], or the number of children when
    [lastIndex] is -1 or greater): every removed child is left without a
    parent and marked as transformed, no other parent changes, and the
    children that stay keep their order.  From 0 with [lastIndex] -1 it
    removes every child. *)
Theorem removeChildren_releases_range
  (h : Heap) (this : ptr) (firstIndex lastIndex : Z) :
  ChildrenBelow h ->
  0 <= firstIndex
  <= endIndex (Z.of_nat (length (children (h this)))) lastIndex ->
  exists h',
    removeChildren (S height) h this false firstIndex lastIndex = Some h'
    /\ children (h' this)
       = firstn (Z.to_nat firstIndex) (children (h this))
         ++ skipn (Z.to_nat (endIndex (Z.of_nat (length (children (h this))))
                               lastIndex))
              (children (h this))
    /\ (forall c, In c (removedRange h this firstIndex lastIndex) ->
                  parent (h' c) = None /\ isTransformed (h' c) = true)
    /\ (forall m, ~ In m (removedRange h this firstIndex lastIndex) ->
                  parent (h' m) = parent (h m))
    /\ (forall m, m <> this -> children (h' m) = children (h m))
    /\ (firstIndex = 0 -> lastIndex = -1 -> children (h' this) = []).
Proof.
  intros Hb Hrange.
  destruct (removeChildren_in_range h this false firstIndex lastIndex
              Hb Hrange) as (h' & E & C).
  exists h'. split; [exact E|]. split; [exact C|].
  unfold removeChildren in E.
  fold (removedRange h this firstIndex lastIndex) in E.
  destruct ((0 <=? firstIndex)
            && (firstIndex
                <=? endIndex (Z.of_nat (length (children (h this))))
                      lastIndex)); [|discriminate].
  destruct (forEach (release (S height) false)
              (removedRange h this firstIndex lastIndex) h)
    as [g|] eqn:Eg; [|discriminate].
  injection E as <-.
  destruct (forEach_setParent _ _ _ _ Eg) as (R & FP & K).
  pose proof (forEach_SameChildren _ (release_SameChildren (S height) false)
                _ _ _ Eg) as SC.
  splits.
  - intros c Hc. rewrite (upd_proj parent), (upd_proj isTransformed)
      by reflexivity. now apply R.
  - intros m Hm. rewrite (upd_proj parent) by reflexivity. now apply FP.
  - intros m Hm. rewrite upd_other by assumption. apply SC.
  - intros -> ->. rewrite C. unfold endIndex. cbn.
    apply skipn_all2. rewrite Nat2Z.id. apply Nat.le_refl.
Qed.

(** *** The selection path *)

Lemma deselectChild_path (fuel : nat) :
  forall h n,
    WellFormed h -> (height - lvl n < fuel)%nat ->
    exists path h',
      SelectionPath h n path
      /\ deselectChild fuel h n = Some (h', map MouseLeft path)
      /\ (forall m, In m path -> (lvl n < lvl m)%nat)
      /\ (forall m, In m (n :: path) -> selectedChild (h' m) = None)
      /\ (forall m, ~ In m (n :: path) -> h' m = h m)
      /\ Deselected h h'.
Proof.
  induction fuel as [|fuel IH]; intros h n Hwf Hfuel; [lia|].
  cbn [deselectChild].
  destruct (selectedChild (h n)) as [c|] eqn:Hsel.
  2:{ exists [], h. splits; auto using Deselected_refl.
      - now apply SelectionPath_end.
      - intros m [].
      - intros m [<-|[]]. exact Hsel. }
  assert (Hc : parent (h c) = Some n).
  { apply (wf_child h Hwf). now apply (wf_selected h Hwf). }
  assert (Hlt : (lvl n < lvl c)%nat) by now apply (wf_parent h Hwf).
  destruct (IH h c Hwf) as (path & h1 & P1 & E1 & L1 & N1 & F1 & D1);
    [pose proof (wf_height h Hwf c); lia|].
  rewrite E1.
  exists (c :: path), (upd h1 n (with_selectedChild (h1 n) None)). splits.
  - now apply SelectionPath_step.
  - reflexivity.
  - intros m [<-|Hm]; [exact Hlt|]. specialize (L1 m Hm). lia.
  - intros m [<-|Hm]; [now rewrite upd_same|].
    assert (Hlvl : (lvl n < lvl m)%nat).
    { destruct Hm as [<-|Hm]; [exact Hlt|]. specialize (L1 m Hm). lia. }
    rewrite upd_other by (intros ->; lia). now apply N1.
  - intros m Hm. rewrite upd_other by (intros ->; apply Hm; now left).
    apply F1. intros Hin. apply Hm. now right.
  - eapply Deselected_trans; [exact D1|].
    intros m. unfold upd. destruct (Nat.eqb_spec m n) as [->|]; auto.
Qed.

(** X18.  [deselectChild] clears the selection all the way down: it
    calls the leave hooks of the selected child, of the selected child of
    that child, and so on, from the top down, and afterwards neither the
    node nor any node of this path has a selected child.  The nodes off
    the path are left as they were, and nothing but the selection
    changes. *)
Theorem deselectChild_clears_selection_path (h : Heap) (n : ptr) :
  WellFormed h ->
  exists path h',
    SelectionPath h n path
    /\ deselectChild (S height) h n = Some (h', map MouseLeft path)
    /\ (forall m, In m (n :: path) -> selectedChild (h' m) = None)
    /\ (forall m, ~ In m (n :: path) -> h' m = h m)
    /\ SameTree h h' /\ SameCache h h'
    /\ SelectionPath h' n [].
Proof.
  intros Hwf.
  destruct (deselectChild_path (S height) h n Hwf)
    as (path & h' & P & E & L & N & F & D); [lia|].
  exists path, h'. splits; auto.
  - now apply Deselected_SameTree.
  - now apply Deselected_SameCache.
  - apply SelectionPath_end. apply N. now left.
Qed.

(** *** Hit tests without a window *)

Lemma getWindow_Detached (h : Heap) (n : ptr) :
  Detached h n -> forall fuel, getWindow fuel h n = None.
Proof.
  intros Hd. induction Hd as [n Hk Hp|n p Hk Hp Hd IH];
    intros [|fuel]; try reflexivity; cbn [getWindow]; rewrite Hk, Hp;
    [reflexivity|apply IH].
Qed.

Lemma Detached_SameTree (h h' : Heap) (n : ptr) :
  SameTree h h' -> Detached h n -> Detached h' n.
Proof.
  intros Hs Hd. induction Hd as [n Hk Hp|n p Hk Hp Hd IH];
    destruct (Hs n) as (K & _ & P & _).
  - apply Detached_root; congruence.
  - apply Detached_child with (p := p); congruence.
Qed.

Lemma deselectChild_Deselected (fuel : nat) :
  forall h n h' events,
    deselectChild fuel h n = Some (h', events) -> Deselected h h'.
Proof.
  induction fuel as [|fuel IH]; intros h n h' events E; [discriminate|].
  cbn [deselectChild] in E.
  destruct (selectedChild (h n)) as [c|].
  - destruct (deselectChild fuel h c) as [[h1 ev]|] eqn:E1; [|discriminate].
    injection E as <- <-.
    apply Deselected_trans with (h2 := h1); [now apply (IH h c h1 ev)|].
    intros m. unfold upd. destruct (Nat.eqb_spec m n) as [->|]; auto.
  - injection E as <- <-. apply Deselected_refl.
Qed.

Lemma findHit_Detached (fuel : nat) (h : Heap) (pos : Vector2i) :
  forall visited,
    (forall x, In x visited -> Detached h x) ->
    (exists c, In c visited /\ isSelectable (h c) = true) ->
    findHit fuel h visited pos = None.
Proof.
  induction visited as [|x visited IH]; intros Hd (c & Hin & Hsel);
    [destruct Hin|].
  cbn [findHit]. destruct (isSelectable (h x)) eqn:Hx.
  - unfold checkMouseOnIt.
    rewrite getWindow_Detached; [reflexivity|]. apply Hd. now left.
  - apply IH.
    + intros y Hy. apply Hd. now right.
    + exists c. split; [|exact Hsel].
      destruct Hin as [->|Hin]; [congruence|exact Hin].
Qed.

(** X19.  A node that hangs below no act has no window: [getWindow]
    ends in the dereference of a null parent, and so does the hit test
    [checkMouseOnIt].  [select] on such a node, when it is selectable
    and has a selectable child, has no defined result either. *)
Theorem detached_node_has_no_window (h : Heap) (n : ptr) (pos : Vector2i) :
  Detached h n ->
  (forall fuel, getWindow fuel h n = None)
  /\ (forall fuel, checkMouseOnIt fuel h n pos = None)
  /\ (isSelectable (h n) = true ->
      (forall x, In x (children (h n)) ->
                 kind (h x) = Plain /\ parent (h x) = Some n) ->
      (exists c, In c (children (h n)) /\ isSelectable (h c) = true) ->
      forall fuel, select fuel h n pos = None).
Proof.
  intros Hd. splits.
  - now apply getWindow_Detached.
  - intros fuel. unfold checkMouseOnIt. now rewrite getWindow_Detached.
  - intros Hsel Hchildren (c & Hin & Hc) [|fuel]; [reflexivity|].
    cbn [select].
    destruct (deselectChild fuel h n) as [[h1 left]|] eqn:E1; [|reflexivity].
    apply deselectChild_Deselected in E1.
    pose proof (Deselected_SameTree h h1 E1) as S1.
    destruct (S1 n) as (_ & _ & _ & Hch & Hs & _).
    unfold hitTest, getSelectedChild. rewrite <- Hs, Hsel, <- Hch.
    rewrite findHit_Detached; [reflexivity| |].
    + intros x Hx. apply in_rev in Hx.
      destruct (Hchildren x Hx) as [Hk Hp].
      apply Detached_SameTree with (h := h); [exact S1|].
      now apply Detached_child with (p := n).
    + exists c. split; [now apply in_rev in Hin|].
      destruct (S1 c) as (_ & _ & _ & _ & I & _). now rewrite <- I.
Qed.

(** X20.  A node without a parent cannot be removed from its parent,
    and cannot be made selectable: both calls dereference the null
    parent.  Making it unselectable is defined, since the parent is only
    asked when the flag is turned on: it calls the leave hook of the
    node. *)
Theorem parentless_node_dereferences_null (h : Heap) (n : ptr) :
  WellFormed h -> parent (h n) = None ->
  (forall fuel toDelete, removeFromParent fuel h n toDelete = None)
  /\ (isSelectable (h n) = false ->
      forall fuel, setSelectable fuel h n true = None)
  /\ (isSelectable (h n) = true ->
      exists h' rest,
        setSelectable (S height) h n false
        = Some (h', MouseLeft n :: rest)
        /\ isSelectable (h' n) = false).
Proof.
  intros Hwf Hp. splits.
  - intros fuel toDelete. unfold removeFromParent. now rewrite Hp.
  - intros Hsel fuel. unfold setSelectable. rewrite Hsel. cbn [Bool.eqb negb].
    rewrite upd_same. cbn [isSelectable parent with_isSelectable].
    now rewrite Hp.
  - intros Hsel. unfold setSelectable. rewrite Hsel. cbn [Bool.eqb negb].
    rewrite upd_same. cbn [isSelectable with_isSelectable].
    set (h1 := upd h n (with_isSelectable (h n) false)).
    assert (W1 : WellFormed h1).
    { apply WellFormed_SameLinks with (h := h); [|exact Hwf].
      intros m. unfold h1, upd.
      destruct (Nat.eqb_spec m n) as [->|]; repeat split. }
    destruct (deselectChild_spec (S height) h1 n W1)
      as (h2 & ev & E & D & _); [lia|].
    unfold onMouseLeft. rewrite E. exists h2, ev. split; [reflexivity|].
    destruct (Deselected_SameTree h1 h2 D n) as (_ & _ & _ & _ & I & _).
    rewrite <- I. unfold h1. now rewrite upd_same.
Qed.

(** *** Selecting, then clicking *)

Lemma entered_app (l1 l2 : list Hook) :
  entered (l1 ++ l2) = entered l1 ++ entered l2.
Proof. unfold entered. apply flat_map_app. Qed.

Lemma entered_leaves (l : list Hook) : Forall isLeave l -> entered l = [].
Proof.
  induction 1 as [|e l (c & ->) _ IH]; [reflexivity|exact IH].
Qed.

Lemma find_none_all (f : ptr -> bool) (l : list ptr) :
  (forall x, f x = false) -> find f l = None.
Proof.
  intros Hf. induction l as [|x l IH]; [reflexivity|].
  cbn. now rewrite Hf.
Qed.

(** One level of [select]: the heap [h3] after the hit test of the node,
    and the recursion into the child that was hit. *)
Lemma select_step (pos : Vector2i) (w : Window) (f : nat) (h : Heap)
  (n : ptr) :
  WellFormed h -> CacheValid h -> ActsAreRoots h -> Attached h n w ->
  (2 * height + 2 - lvl n <= S f)%nat ->
  exists h3 left,
    Forall isLeave left
    /\ WellFormed h3 /\ CacheValid h3 /\ ActsAreRoots h3 /\ SameTree h h3
    /\ (forall m, (lvl m < lvl n)%nat ->
                  selectedChild (h3 m) = selectedChild (h m))
    /\ (forall c, selectedChild (h3 n) = Some c ->
                  isSelectable (h c) = true /\ In c (children (h n)))
    /\ select (S f) h n pos
       = match selectedChild (h3 n) with
         | Some c =>
             match select f h3 c pos with
             | Some (h', below) =>
                 Some (h', left ++ [MouseEntered c] ++ below)
             | None => None
             end
         | None => Some (h3, left)
         end.
Proof.
  intros Hwf Hv Hroots Ha Hfuel.
  pose proof (wf_height h Hwf n) as Hn.
  cbn [select].
  destruct (deselectChild_spec f h n Hwf)
    as (h1 & left & E1 & D1 & N1 & F1 & L1 & _); [lia|].
  rewrite E1.
  assert (S1 : SameTree h h1) by now apply Deselected_SameTree.
  assert (W1 : WellFormed h1) by now apply WellFormed_Deselected with (h := h).
  assert (V1 : CacheValid h1).
  { apply CacheValid_transfer with (h := h);
      auto using Deselected_SameCache. }
  assert (R1 : ActsAreRoots h1)
    by now apply ActsAreRoots_SameTree with (h := h).
  destruct (S1 n) as (_ & _ & _ & Hch1 & Hsel1 & _).
  unfold hitTest. rewrite <- Hsel1.
  destruct (isSelectable (h n)) eqn:Hsel.
  2:{ exists h1, left. rewrite N1, app_nil_r. splits; auto.
      - intros m Hm. now rewrite F1.
      - intros c Hc. discriminate Hc. }
  destruct (getCombinedTransform_valid f h1 n W1 V1)
    as (hg & t & Eg & Hw & Sg & Selg & Vg & Cg & Ig); [lia|].
  unfold getSelectedChild.
  destruct (findHit_spec f n w t pos hg) with (cs := rev (children (h1 n)))
                                              (h := h1)
    as (h2 & E2 & Hh2); auto.
  { apply ParentsAbove_SameTree with (h := h1); auto.
    exact (wf_parent h1 W1). }
  { intros c Hc. apply in_rev in Hc.
    assert (Hp : parent (h1 c) = Some n) by now apply (wf_child h1 W1).
    splits; auto.
    - apply Attached_child with (p := n); auto.
      + now apply (R1 c n).
      + now apply Attached_SameTree with (h := h).
    - pose proof (wf_height h1 W1 c). lia. }
  rewrite E2.
  set (found := find (hits h1 w t pos) (rev (children (h1 n)))) in *.
  set (h3 := upd h2 n (with_selectedChild (h2 n) found)).
  assert (S12 : SameTree h1 h2)
    by (destruct Hh2 as [->| ->]; auto using SameTree_refl).
  assert (Sel12 : SameSelection h1 h2)
    by (destruct Hh2 as [->| ->]; auto using SameSelection_refl).
  assert (V2 : CacheValid h2) by (destruct Hh2 as [->| ->]; auto).
  assert (S23 : SameTree h2 h3) by (apply SameTree_upd; repeat split).
  assert (S3 : SameTree h h3).
  { eapply SameTree_trans; [exact S1|].
    eapply SameTree_trans; eassumption. }
  assert (Hn3 : selectedChild (h3 n) = found)
    by (unfold h3; now rewrite upd_same).
  assert (Hhit : forall c, found = Some c ->
                           isSelectable (h c) = true
                           /\ In c (children (h n))).
  { intros c Hc. apply find_some in Hc. destruct Hc as [Hin Hhits].
    apply in_rev in Hin. rewrite <- Hch1 in Hin. split; [|exact Hin].
    unfold hits in Hhits. apply andb_true_iff in Hhits.
    destruct (S1 c) as (_ & _ & _ & _ & I & _). rewrite I. apply Hhits. }
  assert (W3 : WellFormed h3).
  { apply WellFormed_SameTree with (h := h); auto.
    intros m c Hc. destruct (S3 m) as (_ & _ & _ & C & _). rewrite <- C.
    destruct (Nat.eq_dec m n) as [->|Hne].
    - rewrite Hn3 in Hc. now apply Hhit.
    - unfold h3 in Hc. rewrite upd_other in Hc by assumption.
      rewrite Sel12 in Hc. destruct (S1 m) as (_ & _ & _ & C1 & _).
      rewrite C1. now apply (wf_selected h1 W1). }
  assert (V3 : CacheValid h3).
  { apply CacheValid_transfer with (h := h2); auto.
    apply SameCache_upd; reflexivity. }
  exists h3, left. fold h3. rewrite Hn3. splits; auto.
  - now apply ActsAreRoots_SameTree with (h := h).
  - intros m Hm. unfold h3. rewrite upd_other by (intros ->; lia).
    rewrite Sel12. now rewrite F1.
  - destruct found as [c|]; [reflexivity|now rewrite app_nil_r].
Qed.

Lemma select_clicks (pos : Vector2i) (w : Window) (fuel : nat) :
  forall h n,
    WellFormed h -> CacheValid h -> ActsAreRoots h -> Attached h n w ->
    (2 * height + 2 - lvl n <= fuel)%nat ->
    exists h' events,
      select fuel h n pos = Some (h', events)
      /\ SameTree h h'
      /\ (forall m, (lvl m < lvl n)%nat ->
                    selectedChild (h' m) = selectedChild (h m))
      /\ SelectionPath h' n (entered events)
      /\ Forall (fun c => isSelectable (h' c) = true) (entered events)
      /\ (forall hook k,
            (height - lvl n < k)%nat ->
            passDown hook k h' n = Some (map hook (entered events))).
Proof.
  induction fuel as [|f IH]; intros h n Hwf Hv Hroots Ha Hfuel.
  { pose proof (wf_height h Hwf n). lia. }
  destruct (select_step pos w f h n Hwf Hv Hroots Ha Hfuel)
    as (h3 & left & L & W3 & V3 & R3 & S3 & F3 & Hhit & Estep).
  rewrite Estep.
  destruct (selectedChild (h3 n)) as [c|] eqn:Hc.
  - destruct (Hhit c eq_refl) as [Hsel Hin].
    assert (Hin3 : In c (children (h3 n))).
    { destruct (S3 n) as (_ & _ & _ & C & _). now rewrite <- C. }
    assert (Hp : parent (h3 c) = Some n) by now apply (wf_child h3 W3).
    assert (Hlt : (lvl n < lvl c)%nat) by now apply (wf_parent h3 W3).
    assert (A3c : Attached h3 c w).
    { apply Attached_child with (p := n); auto.
      - now apply (R3 c n).
      - now apply Attached_SameTree with (h := h). }
    destruct (IH h3 c W3 V3 R3 A3c)
      as (h' & below & E' & S' & F' & P' & Sel' & Click');
      [pose proof (wf_height h3 W3 c); lia|].
    rewrite E'. exists h', (left ++ [MouseEntered c] ++ below).
    assert (Hent : entered (left ++ [MouseEntered c] ++ below)
                   = c :: entered below).
    { rewrite !entered_app, (entered_leaves left L). reflexivity. }
    assert (Hn' : selectedChild (h' n) = Some c).
    { rewrite F' by assumption. exact Hc. }
    assert (Hsel' : isSelectable (h' c) = true).
    { destruct (S' c) as (_ & _ & _ & _ & I' & _).
      destruct (S3 c) as (_ & _ & _ & _ & I3 & _). congruence. }
    rewrite Hent. splits.
    + reflexivity.
    + eapply SameTree_trans; eassumption.
    + intros m Hm. rewrite F' by lia. now apply F3.
    + now apply SelectionPath_step.
    + now constructor.
    + intros hook [|k] Hk; [lia|].
      cbn [passDown map]. rewrite Hn', Hsel'.
      rewrite Click' by (pose proof (wf_height h Hwf c); lia).
      reflexivity.
  - exists h3, left. rewrite (entered_leaves left L). splits; auto.
    + now apply SelectionPath_end.
    + intros hook [|k] Hk; [lia|]. cbn [passDown map]. now rewrite Hc.
Qed.

(** X21.  After [select], a click goes to the nodes that were entered:
    the nodes whose enter hook [select] called are, in this order, the
    selected child of the node, the selected child of that child, and so
    on; each of them is selectable; and a press or a release of the left
    button, or a release of the right button, on the node calls the
    matching hook of exactly these nodes, from the top down. *)
Theorem click_reaches_entered_nodes
  (h : Heap) (n : ptr) (w : Window) (pos : Vector2i) :
  WellFormed h -> CacheValid h -> ActsAreRoots h -> Attached h n w ->
  exists h' events,
    select (2 * height + 2) h n pos = Some (h', events)
    /\ SelectionPath h' n (entered events)
    /\ Forall (fun c => isSelectable (h' c) = true) (entered events)
    /\ onLeftMouseButtonPressed (S height) h' n
       = Some (map LeftMouseButtonPressed (entered events))
    /\ onLeftMouseButtonReleased (S height) h' n
       = Some (map LeftMouseButtonReleased (entered events))
    /\ onRightMouseButtonReleased (S height) h' n
       = Some (map RightMouseButtonReleased (entered events)).
Proof.
  intros Hwf Hv Hroots Ha.
  destruct (select_clicks pos w (2 * height + 2) h n Hwf Hv Hroots Ha)
    as (h' & events & E & _ & _ & P & Sel & Click); [lia|].
  exists h', events.
  unfold onLeftMouseButtonPressed, onLeftMouseButtonReleased,
    onRightMouseButtonReleased.
  splits; auto; apply Click; lia.
Qed.

(** X22.  [select] does not compare the new hit with the old selection:
    when the child that is already selected is hit again, its leave hook
    is called first, then those of the selection below it, and then its
    enter hook again. *)
Theorem select_refires_hooks
  (h : Heap) (n c : ptr) (w : Window) (t : Transform) (pos : Vector2i) :
  WellFormed h -> CacheValid h -> ActsAreRoots h -> Attached h n w ->
  isSelectable (h n) = true -> selectedChild (h n) = Some c ->
  World h n t ->
  find (hits h w t pos) (rev (children (h n))) = Some c ->
  exists h' rest below,
    select (2 * height + 2) h n pos
    = Some (h', MouseLeft c :: rest ++ MouseEntered c :: below)
    /\ Forall isLeave rest
    /\ selectedChild (h' n) = Some c.
Proof.
  intros Hwf Hv Hroots Ha Hsel Hold Hw Hhit.
  destruct (select_spec pos w (2 * height + 2) h n Hwf Hv Hroots Ha)
    as (h' & events & E & _ & _ & _ & _ & left & L & Hd & Hs); [lia|].
  rewrite Hold in Hd. destruct Hd as (rest & ->).
  rewrite Hsel in Hs. destruct Hs as (t0 & Hw0 & Hf & Hm).
  assert (t0 = t) by (eapply World_functional; eassumption). subst t0.
  rewrite Hhit in Hf. rewrite Hf in Hm.
  destruct Hm as (hm & below & -> & _).
  exists h', rest, below. splits; auto.
  now inversion L.
Qed.

(** X23.  With the pointer outside the window, on its border, or with
    the window out of focus, [select] only deselects: it calls the leave
    hooks of the old selection and no enter hook, and leaves the node
    without a selected child. *)
Theorem select_outside_window_deselects
  (h : Heap) (n : ptr) (w : Window) (pos : Vector2i) :
  WellFormed h -> CacheValid h -> ActsAreRoots h -> Attached h n w ->
  insideWindow w pos = false ->
  exists h' events,
    select (2 * height + 2) h n pos = Some (h', events)
    /\ selectedChild (h' n) = None
    /\ Forall isLeave events
    /\ entered events = []
    /\ match selectedChild (h n) with
       | Some c => exists rest, events = MouseLeft c :: rest
       | None => events = []
       end.
Proof.
  intros Hwf Hv Hroots Ha Hout.
  destruct (select_spec pos w (2 * height + 2) h n Hwf Hv Hroots Ha)
    as (h' & events & E & _ & _ & _ & _ & left & L & Hd & Hs); [lia|].
  assert (Hnone : selectedChild (h' n) = None /\ events = left).
  { destruct (isSelectable (h n)); [|exact Hs].
    destruct Hs as (t & _ & Hf & Hm).
    rewrite find_none_all in Hf.
    - rewrite Hf in Hm. auto.
    - intros x. unfold hits. rewrite Hout. apply andb_false_r. }
  destruct Hnone as [Hn ->].
  exists h', left. splits; auto using entered_leaves.
Qed.

(** *** The per-frame update *)

Lemma collect_spec (f : ptr -> option (list ptr))
  (Q : ptr -> ptr -> Prop) :
  forall l,
    (forall c, In c l ->
               exists evs, f c = Some evs /\ forall m, In m evs <-> Q c m) ->
    exists evs,
      collect f l = Some evs
      /\ forall m, In m evs <-> exists c, In c l /\ Q c m.
Proof.
  induction l as [|c l IH]; intros Hl.
  - exists []. split; [reflexivity|].
    intros m. split; [intros []|intros (c & [] & _)].
  - destruct (Hl c (or_introl eq_refl)) as (first & Ef & Hf).
    destruct IH as (others & Eo & Ho).
    { intros c' Hc'. apply Hl. now right. }
    exists (first ++ others). cbn [collect]. rewrite Ef, Eo.
    split; [reflexivity|].
    intros m. rewrite in_app_iff, Hf, Ho. split.
    + intros [Hq|(c' & Hc' & Hq)]; [exists c|exists c']; simpl; auto.
    + intros (c' & [<-|Hc'] & Hq); [now left|right; now exists c'].
Qed.

Lemma update_spec (updatable : ptr -> bool) (h : Heap) (fuel : nat) :
  forall n,
    ChildrenBelow h -> (height - lvl n < fuel)%nat ->
    exists events,
      update updatable fuel h n = Some events
      /\ (forall m, In m events <-> Updated updatable h n m)
      /\ (updatable n = true -> exists below, events = below ++ [n])
      /\ (updatable n = false -> events = []).
Proof.
  induction fuel as [|fuel IH]; intros n Hb Hfuel; [lia|].
  cbn [update]. destruct (updatable n) eqn:Hu.
  - destruct (collect_spec (update updatable fuel h) (Updated updatable h)
                (children (h n))) as (below & Eb & Hbelow).
    { intros c Hc.
      destruct (IH c Hb) as (evs & E & Hin & _).
      - pose proof (proj1 Hb n c Hc). pose proof (proj2 Hb c). lia.
      - now exists evs. }
    rewrite Eb. exists (below ++ [n]). splits.
    + reflexivity.
    + intros m. rewrite in_app_iff, Hbelow. split.
      * intros [(c & Hc & Hq)|[<-|[]]].
        -- now apply Updated_below with (c := c).
        -- now apply Updated_self.
      * intros Hq. inversion Hq as [x Hx|x c y Hx Hc Hy]; subst.
        -- right. now left.
        -- left. now exists c.
    + intros _. now exists below.
    + discriminate.
  - exists []. splits; auto.
    + intros m. split; [intros []|].
      intros Hq. inversion Hq; subst; congruence.
    + discriminate.
Qed.

(** X24.  [update] calls [onUpdated] on exactly the nodes that are
    reached from the node through updatable nodes only: a node that is
    not updatable is skipped together with everything below it.  The
    hook of an updatable node is called last, after those of the nodes
    below it. *)
Theorem update_visits_updatable_nodes
  (updatable : ptr -> bool) (h : Heap) (n : ptr) :
  ChildrenBelow h ->
  exists events,
    update updatable (S height) h n = Some events
    /\ (forall m, In m events <-> Updated updatable h n m)
    /\ (updatable n = true -> exists below, events = below ++ [n])
    /\ (updatable n = false -> events = []).
Proof.
  intros Hb. apply update_spec; [exact Hb|lia].
Qed.

(** *** Transforms after attaching *)

Lemma Anc_lvl (h : Heap) (a m : ptr) :
  WellFormed h -> Anc h a m -> (lvl a <= lvl m)%nat.
Proof.
  intros Hwf Ha. induction Ha as [|m p Hp Ha IH]; [lia|].
  pose proof (wf_parent h Hwf m p Hp). lia.
Qed.

Lemma World_elsewhere (h h' : Heap) (a m : ptr) (t : Transform) :
  (forall x, x <> a ->
             kind (h' x) = kind (h x) /\ parent (h' x) = parent (h x)
             /\ transform (h' x) = transform (h x)) ->
  ~ Anc h a m -> World h m t -> World h' m t.
Proof.
  intros Hsame Hout Hw.
  induction Hw as [n w t Hk|n Hk Hp|n p t Hk Hp Hw IH];
    assert (Hn : n <> a) by (intros ->; apply Hout, Anc_self);
    destruct (Hsame n Hn) as (K & P & T).
  - eapply World_act. rewrite K. exact Hk.
  - rewrite <- T. apply World_root; congruence.
  - rewrite <- T. apply World_child with (p := p); try congruence.
    apply IH. intros Ha. apply Hout.
    apply Anc_parent with (p := p); assumption.
Qed.

(** X25.  A node without a parent that is added as a child below a
    node reports, on the next [getCombinedTransform], the combined
    transform of its new parent composed with its own transform,
    whatever its cache held before; the tree is well formed and every
    clean cache is valid after the call of [addChild]. *)
Theorem reparented_child_follows_new_parent
  (h : Heap) (this child : ptr) (tp : Transform) :
  WellFormed h -> CacheValid h ->
  kind (h child) = Plain -> parent (h child) = None ->
  (lvl this < lvl child)%nat ->
  World h this tp ->
  exists h1 h2,
    addChild (S height) h this child = Some h1
    /\ WellFormed h1 /\ CacheValid h1
    /\ getCombinedTransform (S height) h1 child
       = Some (h2, compose tp (transform (h child)))
    /\ isTransformed (h2 child) = false
    /\ combinedTransform (h2 child) = compose tp (transform (h child)).
Proof.
  intros Hwf Hvalid Hkind Hroot Hlvl Hworld.
  destruct (makeTransformed_spec (S height) h child Hwf)
    as (g & G & M & A & F); [lia|].
  destruct (addChild_inv (S height) h this child g G)
    as (h1 & E & C & P & FC & FP & Same & Flags).
  assert (W1 : WellFormed h1).
  { split.
    - intros n p Hp. destruct (Nat.eq_dec n child) as [->|Hn].
      + rewrite P in Hp. injection Hp as <-. exact Hlvl.
      + rewrite FP in Hp by assumption. now apply (wf_parent h Hwf).
    - intros n c Hc.
      assert (Hold : In c (children (h n)) -> parent (h1 c) = Some n).
      { intros Hin. pose proof (wf_child h Hwf n c Hin) as Hp.
        rewrite FP; [exact Hp|]. intros ->. congruence. }
      destruct (Nat.eq_dec n this) as [->|Hn].
      + rewrite C in Hc. apply in_app_or in Hc.
        destruct Hc as [Hc|[<-|[]]]; [now apply Hold|exact P].
      + rewrite FC in Hc by assumption. now apply Hold.
    - intros n p Hp.
      assert (Hold : In n (children (h p)) -> In n (children (h1 p))).
      { intros Hin. destruct (Nat.eq_dec p this) as [->|Hne].
        - rewrite C. apply in_or_app. now left.
        - now rewrite FC. }
      destruct (Nat.eq_dec n child) as [->|Hn].
      + rewrite P in Hp. injection Hp as <-. rewrite C.
        apply in_or_app. right. now left.
      + rewrite FP in Hp by assumption.
        apply Hold. now apply (wf_listed h Hwf).
    - intros n c Hc. destruct (Same n) as (_ & _ & S & _).
      rewrite S in Hc. pose proof (wf_selected h Hwf n c Hc) as Hin.
      destruct (Nat.eq_dec n this) as [->|Hne].
      + rewrite C. apply in_or_app. now left.
      + now rewrite FC.
    - exact (wf_height h Hwf). }
  assert (Hout : forall m t, ~ Anc h child m -> World h m t -> World h1 m t).
  { intros m t. apply World_elsewhere. intros x Hx.
    destruct (Same x) as (K & _ & _ & _ & _ & T & _).
    splits; auto. }
  assert (V1 : CacheValid h1).
  { intros m Hk Hclean. rewrite Flags in Hclean.
    assert (Hm : ~ Anc h child m).
    { intros Ha. rewrite (A m Ha) in Hclean. discriminate. }
    rewrite (F m Hm) in Hclean.
    destruct (Same m) as (K & _ & _ & _ & CT & _).
    rewrite CT. apply Hout; [exact Hm|].
    apply Hvalid; congruence. }
  destruct (getCombinedTransform_valid (S height) h1 child W1 V1)
    as (h2 & t & E2 & Hw & _ & _ & _ & C2 & _); [lia|].
  assert (K1 : kind (h1 child) = Plain).
  { destruct (Same child) as (K & _). congruence. }
  assert (Ht : t = compose tp (transform (h child))).
  { inversion Hw as [n w t0 Hk0|n Hk0 Hp0|n p t0 Hk0 Hp0 Hw0]; subst.
    - congruence.
    - congruence.
    - assert (p = this) by congruence. subst p.
      assert (Hthis : World h1 this tp).
      { apply Hout; [|exact Hworld].
        intros Ha. pose proof (Anc_lvl h child this Hwf Ha). lia. }
      rewrite (World_functional h1 this t0 tp Hw0 Hthis).
      destruct (Same child) as (_ & _ & _ & _ & _ & T & _).
      now rewrite T. }
  subst t. destruct (C2 K1) as [C21 C22].
  exists h1, h2. splits; auto.
Qed.

(** *** The hit test, in closed form *)

Lemma Qltb_lt (a b : Q) : Qltb a b = true <-> (a < b)%Q.
Proof.
  unfold Qltb. rewrite negb_true_iff. split.
  - intros E. apply Qnot_le_lt. intros H. apply Qle_bool_iff in H.
    congruence.
  - intros H. destruct (Qle_bool b a) eqn:E; [|reflexivity].
    apply Qle_bool_iff in E. exfalso. eapply Qlt_not_le; eassumption.
Qed.

(** X29.  The hit test of a node below an act, with a parent: the
    pointer is on the node exactly when the window has the focus, the
    pointer is strictly inside the window, and it is strictly inside the
    rectangle of the node transformed by the combined transform that the
    parent reports.  A pointer on the border of the rectangle is not on
    the node, and a rectangle without extent is never hit.  The call
    changes nothing but the transform caches. *)
Theorem hit_test_is_strict
  (h : Heap) (c n : ptr) (w : Window) (pos : Vector2i) :
  WellFormed h -> CacheValid h -> Attached h c w ->
  parent (h c) = Some n ->
  exists h' t b,
    checkMouseOnIt (S height) h c pos = Some (h', b)
    /\ World h n t /\ SameTree h h' /\ SameSelection h h'
    /\ (b = true <->
        hasFocus w = true
        /\ 0 < fst pos < to_int (fst (getSize w))
        /\ 0 < snd pos < to_int (snd (getSize w))
        /\ strictlyInside (transformRect t (rect (h c))) pos)
    /\ (b = true -> hasExtent (transformRect t (rect (h c)))).
Proof.
  intros Hwf Hvalid Ha Hp.
  destruct (getCombinedTransform_valid (S height) h n Hwf Hvalid)
    as (h' & t & E & Hw & S' & Sel' & _); [lia|].
  assert (Hwin : getWindow (S height) h c = Some w).
  { apply getWindow_spec; [exact (wf_parent h Hwf)|exact Ha|].
    pose proof (wf_height h Hwf c). lia. }
  rewrite (checkMouseOnIt_child (S height) h h' n c w t pos Hwin Hp E).
  set (r := transformRect t (rect (h c))).
  assert (Hiff : insideWindow w pos && insideRect r pos = true <->
                 hasFocus w = true
                 /\ 0 < fst pos < to_int (fst (getSize w))
                 /\ 0 < snd pos < to_int (snd (getSize w))
                 /\ strictlyInside r pos).
  { unfold insideWindow, insideRect, strictlyInside.
    rewrite !andb_true_iff, !Z.ltb_lt, !Qltb_lt. split.
    - intros [[[[[HF HA] HB] HC] HD] [[[HP HQ] HR] HS]].
      repeat split; assumption.
    - intros (HF & [HA HB] & [HC HD] & HP & HQ & HR & HS).
      repeat split; assumption. }
  eexists h', t, _. split; [reflexivity|]. splits; auto.
  intros Hb. apply Hiff in Hb.
  destruct Hb as (_ & _ & _ & HP & HQ & HR & HS).
  unfold hasExtent. fold r. split; lra.
Qed.

(** *** The position of the pointer in a node *)


End Tree.

(** *** A concrete tree *)

(** Transforms as translations along x. *)
Definition shiftRect (t : Z) (r : FloatRect) : FloatRect :=
  {| left := (left r + inject_Z t)%Q; top := top r;
     width := width r; height := height r |}.

Definition blank : AbstractNode Z :=
  {| kind := Plain Z; alive := true; parent := None; children := [];
     selectedChild := None; isSelectable := false; isTransformed := true;
     combinedTransform := 0; transform := 0;
     rect := {| left := 0; top := 0; width := 0; height := 0 |} |}.

(** An act (node 0) with the children A (node 1) and B (node 2), added in
    this order, whose rectangles overlap around (50, 50); A has the
    unselectable child 3.  All caches are valid. *)
Definition sampleHeap (focus : bool) : Heap Z :=
  fun p =>
    match p with
    | 0%nat =>
        {| kind := ActRoot Z {| hasFocus := focus; getSize := (800, 600) |} 0;
           alive := true; parent := None; children := [1%nat; 2%nat];
           selectedChild := None; isSelectable := true;
           isTransformed := false; combinedTransform := 0; transform := 0;
           rect := {| left := 0; top := 0; width := 800; height := 600 |} |}
    | 1%nat =>
        {| kind := Plain Z; alive := true; parent := Some 0%nat;
           children := [3%nat]; selectedChild := None; isSelectable := true;
           isTransformed := false; combinedTransform := 5; transform := 5;
           rect := {| left := 10; top := 10; width := 100; height := 100 |} |}
    | 2%nat =>
        {| kind := Plain Z; alive := true; parent := Some 0%nat;
           children := []; selectedChild := None; isSelectable := true;
           isTransformed := false; combinedTransform := 0; transform := 0;
           rect := {| left := 20; top := 20; width := 100; height := 100 |} |}
    | 3%nat =>
        {| kind := Plain Z; alive := true; parent := Some 1%nat;
           children := []; selectedChild := None; isSelectable := false;
           isTransformed := false; combinedTransform := 12; transform := 7;
           rect := {| left := 0; top := 0; width := 10; height := 10 |} |}
    | _ => blank
    end.

Definition sampleLvl (p : ptr) : nat :=
  match p with
  | 1%nat | 2%nat => 1
  | 3%nat => 2
  | _ => 0
  end.

(** Levels that also put the nodes outside the sample tree below B. *)
Definition spareLvl (p : ptr) : nat :=
  match p with
  | 0%nat => 0
  | 1%nat | 2%nat => 1
  | _ => 2
  end.

(** The sample tree with B as the selected child of the act. *)
Definition selectedHeap : Heap Z :=
  upd Z (sampleHeap true) 0%nat
    (with_selectedChild Z (sampleHeap true 0%nat) (Some 2%nat)).

(** Nodes without links. *)
Definition looseHeap : Heap Z := fun _ => blank.

(** Every node but A is updatable. *)
Definition allButA (p : ptr) : bool := negb (Nat.eqb p 1).


Lemma sampleHeap_WellFormed (focus : bool) :
  WellFormed Z sampleLvl 2 (sampleHeap focus).
Proof.
  split.
  - intros [|[|[|[|n]]]] p; cbn; intros [= <-]; cbn; lia.
  - intros [|[|[|[|n]]]] c; cbn; intuition (subst; reflexivity).
  - intros [|[|[|[|n]]]] p; cbn; intros [= <-]; cbn; auto.
  - intros [|[|[|[|n]]]] c; cbn; discriminate.
  - intros [|[|[|[|n]]]]; cbn; lia.
Qed.

Lemma sampleHeap_CacheValid (focus : bool) :
  CacheValid Z Z.add (sampleHeap focus).
Proof.
  assert (W0 : World Z Z.add (sampleHeap focus) 0%nat 0).
  { eapply World_act. reflexivity. }
  assert (W1 : World Z Z.add (sampleHeap focus) 1%nat 5).
  { exact (World_child Z Z.add (sampleHeap focus) 1%nat 0%nat 0
             eq_refl eq_refl W0). }
  intros [|[|[|[|n]]]] Hk Hclean; cbn in *; try discriminate.
  - exact W1.
  - exact (World_child Z Z.add (sampleHeap focus) 2%nat 0%nat 0
             eq_refl eq_refl W0).
  - exact (World_child Z Z.add (sampleHeap focus) 3%nat 1%nat 5
             eq_refl eq_refl W1).
Qed.

Lemma sampleHeap_ActsAreRoots (focus : bool) :
  ActsAreRoots Z (sampleHeap focus).
Proof. intros [|[|[|[|n]]]] p; cbn; intros [= <-]; reflexivity. Qed.

Lemma sampleHeap_Attached (focus : bool) :
  Attached Z (sampleHeap focus) 0%nat
    {| hasFocus := focus; getSize := (800, 600) |}.
Proof. eapply Attached_act. reflexivity. Qed.

(** C2 (as stated) fails: with the pointer at (50, 50) inside the
    rectangles of the selectable siblings A and B, [select] on their
    selectable parent selects no child and fires no hook when the window
    does not have the focus (with the focus it selects B). *)
Lemma unfocused_window_selects_no_child :
  insideRect (rect Z (sampleHeap false 1%nat)) (50, 50) = true
  /\ insideRect (rect Z (sampleHeap false 2%nat)) (50, 50) = true
  /\ option_map (fun r => (selectedChild Z (fst r 0%nat), snd r))
       (select Z Z.add shiftRect 6 (sampleHeap false) 0%nat (50, 50))
     = Some (None, [])
  /\ option_map (fun r => (selectedChild Z (fst r 0%nat), snd r))
       (select Z Z.add shiftRect 6 (sampleHeap true) 0%nat (50, 50))
     = Some (Some 2%nat, [MouseEntered 2%nat]).
Proof. repeat split; vm_compute; reflexivity. Qed.

Lemma select_takes_topmost_hit_witness :
  exists h' events,
    select Z Z.add shiftRect 6 (sampleHeap true) 0%nat (50, 50)
    = Some (h', events)
    /\ selectedChild Z (h' 0%nat) = Some 2%nat.
Proof.
  destruct (select_takes_topmost_hit Z Z.add shiftRect sampleLvl 2
              (sampleHeap true) 0%nat
              {| hasFocus := true; getSize := (800, 600) |} (50, 50)
              (sampleHeap_WellFormed true) (sampleHeap_CacheValid true)
              (sampleHeap_ActsAreRoots true) (sampleHeap_Attached true))
    as (h' & events & left & t & E & Hw & _ & _ & _ & _ & Htop & _).
  exists h', events. split; [exact E|].
  assert (Ht : t = 0).
  { eapply World_functional; [exact Hw|].
    eapply World_act. reflexivity. }
  subst t.
  apply (Htop eq_refl 1%nat 2%nat [1%nat] []); try reflexivity.
  - now left.
  - intros c [].
Defined.

Lemma invalidated_transform_recomputed_witness :
  exists h1 h2 t,
    makeTransformed Z 3 (setTransform Z (sampleHeap true) 1%nat 100) 1%nat
    = Some h1
    /\ getCombinedTransform Z Z.add 3 h1 3%nat = Some (h2, t)
    /\ World Z Z.add h1 3%nat t
    /\ getCombinedTransform Z Z.add 3 h2 3%nat = Some (h2, t).
Proof.
  destruct (invalidated_transform_recomputed Z Z.add sampleLvl 2
              (sampleHeap true) 1%nat 3%nat 100
              (sampleHeap_WellFormed true) (sampleHeap_CacheValid true)
              (Anc_parent Z (sampleHeap true) 1%nat 3%nat 1%nat eq_refl
                 (Anc_self Z (sampleHeap true) 1%nat)))
    as (h1 & h2 & t & E1 & _ & _ & E2 & Hw & _ & I2 & _).
  exists h1, h2, t. auto.
Defined.

(** The transform that node 3 reports after the transform of its parent
    has changed from 5 to 100: 0 + 100 + 7, not the 12 of the old cache. *)
Example recomputed_from_new_parent_transform :
  match makeTransformed Z 3 (setTransform Z (sampleHeap true) 1%nat 100)
          1%nat with
  | Some h1 => option_map snd (getCombinedTransform Z Z.add 3 h1 3%nat)
  | None => None
  end = Some 107.
Proof. reflexivity. Qed.

(** C9 (as stated) fails: node 3 is not selectable and its parent has no
    selected child; turning it selectable calls its leave hook. *)
Lemma turning_on_unselected_fires_leave :
  checkChildSelected Z (sampleHeap true) 1%nat 3%nat = false
  /\ option_map snd (setSelectable Z 3 (sampleHeap true) 3%nat true)
     = Some [MouseLeft 3%nat].
Proof. split; reflexivity. Qed.

Lemma setSelectable_hooks_witness :
  exists h' events,
    setSelectable Z 3 (sampleHeap true) 3%nat true = Some (h', events)
    /\ isSelectable Z (h' 3%nat) = true.
Proof.
  destruct (setSelectable_hooks Z sampleLvl 2 (sampleHeap true) 3%nat true
              (sampleHeap_WellFormed true))
    as (h' & events & E & Hflag & _).
  - intros _. discriminate.
  - exists h', events. auto.
Defined.

(** C7, where the code departs from it.  On the act of the sample tree,
    which has the two children [1; 2]: a [lastIndex] of -1 or beyond the
    number of children removes up to the end, but a [firstIndex] of 5 is
    not clamped: [begin] is past [end] and the call has no defined
    result, where the claim says that nothing is removed. *)
Theorem removeChildren_firstIndex_not_clamped :
  children Z (sampleHeap true 0%nat) = [1%nat; 2%nat]
  /\ option_map (fun h => children Z (h 0%nat))
       (removeChildren Z 3 (sampleHeap true) 0%nat false 1 (-1))
     = Some [1%nat]
  /\ option_map (fun h => children Z (h 0%nat))
       (removeChildren Z 3 (sampleHeap true) 0%nat false 1 7)
     = Some [1%nat]
  /\ removeChildren Z 3 (sampleHeap true) 0%nat false 5 (-1) = None
  /\ (forall fuel toDelete lastIndex,
        removeChildren Z fuel (sampleHeap true) 0%nat toDelete 5 lastIndex
        = None).
Proof.
  repeat split; try reflexivity.
  intros fuel toDelete lastIndex. apply removeChildren_beyond_end.
  cbn. lia.
Qed.

(** *** More runs on the concrete tree *)

Lemma sampleHeap_spare_WellFormed :
  WellFormed Z spareLvl 2 (sampleHeap true).
Proof.
  split.
  - intros [|[|[|[|n]]]] p; cbn; intros [= <-]; cbn; lia.
  - intros [|[|[|[|n]]]] c; cbn; intuition (subst; reflexivity).
  - intros [|[|[|[|n]]]] p; cbn; intros [= <-]; cbn; auto.
  - intros [|[|[|[|n]]]] c; cbn; discriminate.
  - intros [|[|[|n]]]; cbn; lia.
Qed.

Lemma selectedHeap_SameTree : SameTree Z (sampleHeap true) selectedHeap.
Proof. apply SameTree_upd. repeat split. Qed.

Lemma selectedHeap_WellFormed : WellFormed Z sampleLvl 2 selectedHeap.
Proof.
  apply (WellFormed_SameTree Z sampleLvl 2 (sampleHeap true));
    [exact selectedHeap_SameTree|exact (sampleHeap_WellFormed true)|].
  intros [|[|[|[|n]]]] c; cbn; try discriminate.
  intros [= <-]. auto.
Qed.

Lemma selectedHeap_CacheValid : CacheValid Z Z.add selectedHeap.
Proof.
  apply (CacheValid_transfer Z Z.add (sampleHeap true));
    [exact selectedHeap_SameTree| |exact (sampleHeap_CacheValid true)].
  apply SameCache_upd; reflexivity.
Qed.

Lemma selectedHeap_ActsAreRoots : ActsAreRoots Z selectedHeap.
Proof.
  apply (ActsAreRoots_SameTree Z (sampleHeap true));
    [exact selectedHeap_SameTree|exact (sampleHeap_ActsAreRoots true)].
Qed.

Lemma selectedHeap_Attached :
  Attached Z selectedHeap 0%nat {| hasFocus := true; getSize := (800, 600) |}.
Proof. eapply Attached_act. reflexivity. Qed.

Lemma addChild_appends_and_invalidates_witness :
  exists h',
    addChild Z 3 (sampleHeap true) 2%nat 4%nat = Some h'
    /\ children Z (h' 2%nat) = [4%nat]
    /\ parent Z (h' 4%nat) = Some 2%nat.
Proof.
  destruct (addChild_appends_and_invalidates Z sampleLvl 2 (sampleHeap true)
              2%nat 4%nat (sampleHeap_WellFormed true))
    as (h' & E & C & P & _).
  exists h'. auto.
Defined.

Lemma removeChild_detaches_child_witness :
  exists h',
    removeChild Z 3 (sampleHeap true) 0%nat 1%nat false = Some h'
    /\ children Z (h' 0%nat) = [2%nat]
    /\ parent Z (h' 1%nat) = None.
Proof.
  destruct (proj2 (removeChild_detaches_child Z sampleLvl 2 (sampleHeap true)
                     0%nat 1%nat (sampleHeap_WellFormed true))
              (or_introl eq_refl))
    as (h' & E & C & P & _).
  exists h'. auto.
Defined.

Lemma addChild_removeChild_round_trip_witness :
  exists h1 h2,
    addChild Z 3 (sampleHeap true) 0%nat 3%nat = Some h1
    /\ removeChild Z 3 h1 0%nat 3%nat false = Some h2
    /\ children Z (h2 0%nat) = [1%nat; 2%nat].
Proof.
  destruct (addChild_removeChild_round_trip Z sampleLvl 2 (sampleHeap true)
              0%nat 3%nat
              (WellFormed_ChildrenBelow Z sampleLvl 2 (sampleHeap true)
                 (sampleHeap_WellFormed true)))
    as (h1 & h2 & E1 & E2 & C & _).
  - cbn. lia.
  - cbn. intros [H|[H|[]]]; discriminate H.
  - exists h1, h2. split; [exact E1|]. split; [exact E2|]. apply C.
Defined.

Lemma removeChild_deletes_subtree_witness :
  exists h',
    removeChild Z 3 (sampleHeap true) 0%nat 1%nat true = Some h'
    /\ alive Z (h' 3%nat) = false
    /\ alive Z (h' 2%nat) = true.
Proof.
  destruct (removeChild_deletes_subtree Z sampleLvl 2 (sampleHeap true)
              0%nat 1%nat (sampleHeap_WellFormed true) (or_introl eq_refl))
    as (h' & E & _ & Dead & Alive & _).
  exists h'. split; [exact E|]. split.
  - apply Dead.
    exact (Anc_parent Z (sampleHeap true) 1%nat 3%nat 1%nat eq_refl
             (Anc_self Z (sampleHeap true) 1%nat)).
  - rewrite Alive; [reflexivity|].
    intros Ha. inversion Ha as [|m p Hp Hap]. cbn in Hp.
    inversion Hp; subst. inversion Hap as [|m' p' Hp' _]. discriminate Hp'.
Defined.

Lemma removeChildren_releases_range_witness :
  exists h',
    removeChildren Z 3 (sampleHeap true) 0%nat false 0 (-1) = Some h'
    /\ children Z (h' 0%nat) = []
    /\ parent Z (h' 2%nat) = None.
Proof.
  destruct (removeChildren_releases_range Z sampleLvl 2 (sampleHeap true)
              0%nat 0 (-1)
              (WellFormed_ChildrenBelow Z sampleLvl 2 (sampleHeap true)
                 (sampleHeap_WellFormed true)))
    as (h' & E & _ & R & _ & _ & Hall).
  - cbn. lia.
  - exists h'. split; [exact E|]. split; [now apply Hall|].
    apply R. vm_compute. auto.
Defined.

Lemma deselectChild_clears_selection_path_witness :
  exists h',
    deselectChild Z 3 selectedHeap 0%nat = Some (h', [MouseLeft 2%nat])
    /\ selectedChild Z (h' 0%nat) = None.
Proof.
  destruct (deselectChild_clears_selection_path Z sampleLvl 2 selectedHeap
              0%nat selectedHeap_WellFormed)
    as (path & h' & P & E & N & _).
  exists h'. split; [|apply N; now left].
  rewrite E. f_equal. f_equal.
  inversion P as [n Hn|n c rest Hc Prest]; subst; [discriminate Hn|].
  cbn in Hc. injection Hc as <-.
  inversion Prest as [n Hn|n c rest' Hc' _]; subst; [reflexivity|].
  discriminate Hc'.
Defined.

Lemma detached_node_has_no_window_witness :
  getWindow Z 5 looseHeap 0%nat = None
  /\ checkMouseOnIt Z Z.add shiftRect 5 looseHeap 0%nat (50, 50) = None.
Proof.
  destruct (detached_node_has_no_window Z Z.add shiftRect looseHeap 0%nat
              (50, 50) (Detached_root Z looseHeap 0%nat eq_refl eq_refl))
    as (W & C & _).
  split; [apply W|apply C].
Defined.

Lemma parentless_node_dereferences_null_witness :
  removeFromParent Z 3 (sampleHeap true) 0%nat false = None.
Proof.
  apply (parentless_node_dereferences_null Z sampleLvl 2 (sampleHeap true)
           0%nat (sampleHeap_WellFormed true) eq_refl).
Defined.

Lemma click_reaches_entered_nodes_witness :
  exists h' events,
    select Z Z.add shiftRect 6 (sampleHeap true) 0%nat (50, 50)
    = Some (h', events)
    /\ onLeftMouseButtonPressed Z 3 h' 0%nat
       = Some (map LeftMouseButtonPressed (entered events)).
Proof.
  destruct (click_reaches_entered_nodes Z Z.add shiftRect sampleLvl 2
              (sampleHeap true) 0%nat
              {| hasFocus := true; getSize := (800, 600) |} (50, 50)
              (sampleHeap_WellFormed true) (sampleHeap_CacheValid true)
              (sampleHeap_ActsAreRoots true) (sampleHeap_Attached true))
    as (h' & events & E & _ & _ & Click & _).
  exists h', events. auto.
Defined.

(** On the sample tree, with the pointer at (50, 50): [select] enters B,
    and the press that follows reaches B. *)
Example press_after_select_reaches_B :
  match select Z Z.add shiftRect 6 (sampleHeap true) 0%nat (50, 50) with
  | Some (h', events) =>
      Some (events, onLeftMouseButtonPressed Z 3 h' 0%nat)
  | None => None
  end
  = Some ([MouseEntered 2%nat], Some [LeftMouseButtonPressed 2%nat]).
Proof. vm_compute. reflexivity. Qed.

Lemma select_refires_hooks_witness :
  exists h' rest below,
    select Z Z.add shiftRect 6 selectedHeap 0%nat (50, 50)
    = Some (h', MouseLeft 2%nat :: rest ++ MouseEntered 2%nat :: below).
Proof.
  destruct (select_refires_hooks Z Z.add shiftRect sampleLvl 2 selectedHeap
              0%nat 2%nat {| hasFocus := true; getSize := (800, 600) |} 0
              (50, 50) selectedHeap_WellFormed selectedHeap_CacheValid
              selectedHeap_ActsAreRoots selectedHeap_Attached
              eq_refl eq_refl)
    as (h' & rest & below & E & _).
  - eapply World_act. reflexivity.
  - vm_compute. reflexivity.
  - exists h', rest, below. exact E.
Defined.

Lemma select_outside_window_deselects_witness :
  exists h' events,
    select Z Z.add shiftRect 6 (sampleHeap false) 0%nat (50, 50)
    = Some (h', events)
    /\ selectedChild Z (h' 0%nat) = None.
Proof.
  destruct (select_outside_window_deselects Z Z.add shiftRect sampleLvl 2
              (sampleHeap false) 0%nat
              {| hasFocus := false; getSize := (800, 600) |} (50, 50)
              (sampleHeap_WellFormed false) (sampleHeap_CacheValid false)
              (sampleHeap_ActsAreRoots false) (sampleHeap_Attached false)
              eq_refl)
    as (h' & events & E & N & _).
  exists h', events. auto.
Defined.

Lemma update_visits_updatable_nodes_witness :
  exists events,
    update Z allButA 3 (sampleHeap true) 0%nat = Some events
    /\ (In 3%nat events <-> Updated Z allButA (sampleHeap true) 0%nat 3%nat).
Proof.
  destruct (update_visits_updatable_nodes Z sampleLvl 2 allButA
              (sampleHeap true) 0%nat
              (WellFormed_ChildrenBelow Z sampleLvl 2 (sampleHeap true)
                 (sampleHeap_WellFormed true)))
    as (events & E & Hin & _).
  exists events. split; [exact E|apply Hin].
Defined.

(** On the sample tree: A is not updatable, so that neither A nor its
    child 3 is updated; B is updated before the act. *)
Example update_skips_below_A :
  update Z allButA 3 (sampleHeap true) 0%nat = Some [2%nat; 0%nat].
Proof. reflexivity. Qed.

Lemma reparented_child_follows_new_parent_witness :
  exists h1 h2,
    addChild Z 3 (sampleHeap true) 1%nat 4%nat = Some h1
    /\ getCombinedTransform Z Z.add 3 h1 4%nat = Some (h2, 5).
Proof.
  destruct (reparented_child_follows_new_parent Z Z.add spareLvl 2
              (sampleHeap true) 1%nat 4%nat 5
              sampleHeap_spare_WellFormed (sampleHeap_CacheValid true)
              eq_refl eq_refl)
    as (h1 & h2 & E1 & _ & _ & E2 & _).
  - cbn. lia.
  - exact (World_child Z Z.add (sampleHeap true) 1%nat 0%nat 0
             eq_refl eq_refl
             (World_act Z Z.add (sampleHeap true) 0%nat
                {| hasFocus := true; getSize := (800, 600) |} 0 eq_refl)).
  - exists h1, h2. split; [exact E1|exact E2].
Defined.

Lemma hit_test_is_strict_witness :
  exists h' t b,
    checkMouseOnIt Z Z.add shiftRect 3 (sampleHeap true) 2%nat (50, 50)
    = Some (h', b)
    /\ World Z Z.add (sampleHeap true) 0%nat t.
Proof.
  destruct (hit_test_is_strict Z Z.add shiftRect sampleLvl 2
              (sampleHeap true) 2%nat 0%nat
              {| hasFocus := true; getSize := (800, 600) |} (50, 50)
              (sampleHeap_WellFormed true) (sampleHeap_CacheValid true))
    as (h' & t & b & E & Hw & _).
  - apply Attached_child with (p := 0%nat); try reflexivity.
    apply sampleHeap_Attached.
  - reflexivity.
  - exists h', t, b. auto.
Defined.

(** On the sample tree, B spans from 20 to 120 on both axes: the pointer
    at (50, 50) is on B, the pointer at (20, 50), on its left border, is
    not. *)
Example pointer_on_border_of_B :
  option_map snd
    (checkMouseOnIt Z Z.add shiftRect 3 (sampleHeap true) 2%nat (50, 50))
  = Some true
  /\ option_map snd
       (checkMouseOnIt Z Z.add shiftRect 3 (sampleHeap true) 2%nat (20, 50))
     = Some false.
Proof. split; vm_compute; reflexivity. Qed.


(** *** Rotation *)

(** X27.  For a rotation of the transformable between 0 and 360
    degrees, 360 excluded, and a positive [MATH_PI], [getRotation] is the
    angle in radians brought into the interval from -[MATH_PI], excluded,
    to [MATH_PI], included: up to 180 degrees it is the angle itself,
    beyond 180 degrees the angle less a full turn. *)
Theorem getRotation_in_half_open_turn (MATH_PI degrees : Q) :
  (0 < MATH_PI)%Q -> (0 <= degrees)%Q -> (degrees < 360)%Q ->
  (- MATH_PI < getRotation MATH_PI degrees)%Q
  /\ (getRotation MATH_PI degrees <= MATH_PI)%Q
  /\ ((degrees <= 180)%Q ->
      (getRotation MATH_PI degrees == degrees * MATH_PI / 180)%Q)
  /\ ((180 < degrees)%Q ->
      (getRotation MATH_PI degrees
       == degrees * MATH_PI / 180 - MATH_PI * 2)%Q).
Proof.
  intros Hpi H0 H360. unfold getRotation.
  assert (Hlow : (0 <= degrees * MATH_PI)%Q).
  { apply Qmult_le_0_compat; [exact H0|now apply Qlt_le_weak]. }
  assert (Hhigh : (degrees * MATH_PI < 360 * MATH_PI)%Q).
  { now apply Qmult_lt_compat_r. }
  assert (Hhalf : (degrees <= 180)%Q ->
                  (degrees * MATH_PI <= 180 * MATH_PI)%Q).
  { intros Hle. apply Qmult_le_compat_r; [exact Hle|now apply Qlt_le_weak]. }
  assert (Hover : (180 < degrees)%Q ->
                  (180 * MATH_PI < degrees * MATH_PI)%Q).
  { intros Hgt. now apply Qmult_lt_compat_r. }
  assert (Hr : (degrees * MATH_PI / 180 == degrees * MATH_PI * (1 # 180))%Q)
    by (unfold Qdiv; reflexivity).
  destruct (Qltb MATH_PI (degrees * MATH_PI / 180)) eqn:E.
  - apply Qltb_lt in E. rewrite Hr in *.
    assert (H180 : (180 < degrees)%Q).
    { apply Qnot_le_lt. intros Hle. specialize (Hhalf Hle). lra. }
    specialize (Hover H180).
    repeat split; intros; lra.
  - assert (Hle : ~ (MATH_PI < degrees * MATH_PI / 180)%Q).
    { intros H. apply Qltb_lt in H. congruence. }
    apply Qnot_lt_le in Hle. rewrite Hr in *.
    repeat split; intros; lra.
Qed.

Lemma getRotation_in_half_open_turn_witness :
  (getRotation 3 270 == - (3 # 2))%Q.
Proof.
  destruct (getRotation_in_half_open_turn 3 270) as (_ & _ & _ & Hover).
  - reflexivity.
  - discriminate.
  - reflexivity.
  - rewrite Hover by reflexivity. reflexivity.
Defined.

End Node.
